(** * AI Comic Creator: scene parsing, retrying image calls, panel store, PDF export

    A shallow embedding of
      - [src/services/geminiService.ts]  ([generateScenePrompts], [generateImageForPrompt]),
      - [App.tsx]                        ([handleComicGeneration], [handleDownloadPdf]),
      - [constants.ts] and [types.ts]    (enums, [ComicPanelData], [FIXED_IMAGE_SEED]).

    Conventions of the embedding.
      - A JavaScript string is a [string], one [ascii] per UTF-16 code unit: the
        strings of the model are those whose code units all lie below 256
        (U+0000..U+00FF).  White space and case mapping are what JavaScript
        defines on that range; see [isSpaceChar], [toLowerCase], [toUpperCase].
      - A JavaScript number is an integer [Z] where it is a count or a value read
        from JSON (below 10^21 in absolute value, where its text is its decimal
        digits), and a rational [Q] where the code does layout or timing
        arithmetic; IEEE rounding is not represented.
      - Promises are run to completion in program order: an [async] function is a
        computation in the monad [M], which threads the record of the calls made
        to the outside world and may throw.
      - What the outside world answers (the two endpoints, [Math.random],
        [JSON.parse], image decoding, jsPDF text splitting) is read from an
        environment [Env]. *)

From Stdlib Require Import ZArith QArith Qround List String Ascii Bool Lia Arith.
From Stdlib Require Import DecimalString Lqa Qfield.
Import ListNotations.

Set Warnings "-register-all".

Local Open Scope string_scope.
Local Open Scope Z_scope.

(* ================================================================== *)
(** ** JavaScript values and strings *)

Module JS.

(** The double-quote character, U+0022. *)
Definition dquote : string := String (ascii_of_nat 34) EmptyString.

(** [!s] is true exactly for the empty string. *)
Definition nonEmpty (s : string) : bool :=
  match s with EmptyString => false | String _ _ => true end.

Definition isUpperChar (c : ascii) : bool :=
  let n := nat_of_ascii c in (Nat.leb 65 n && Nat.leb n 90)%bool.

Definition isLowerChar (c : ascii) : bool :=
  let n := nat_of_ascii c in (Nat.leb 97 n && Nat.leb n 122)%bool.

Definition isDigitChar (c : ascii) : bool :=
  let n := nat_of_ascii c in (Nat.leb 48 n && Nat.leb n 57)%bool.

(** The class [\w] of a regular expression: letters, digits, underscore. *)
Definition isWordChar (c : ascii) : bool :=
  (isUpperChar c || isLowerChar c || isDigitChar c || Nat.eqb (nat_of_ascii c) 95)%bool.

(** White space and line terminators, which are the class [\s] of a regular
    expression and the characters [trim] and [parseInt] skip.  Below 256 these
    are TAB, LF, VT, FF, CR, SP and the no-break space U+00A0. *)
Definition isSpaceChar (c : ascii) : bool :=
  let n := nat_of_ascii c in
  ((Nat.leb 9 n && Nat.leb n 13) || Nat.eqb n 32 || Nat.eqb n 160)%bool.

(** The code units below 256 that [toLowerCase] changes: A..Z, and
    U+00C0..U+00DE without the multiplication sign U+00D7.  Each goes 32 up. *)
Definition hasLowerCase (c : ascii) : bool :=
  let n := nat_of_ascii c in
  (isUpperChar c || (Nat.leb 192 n && Nat.leb n 222 && negb (Nat.eqb n 215)))%bool.

Definition lowerChar (c : ascii) : ascii :=
  if hasLowerCase c then ascii_of_nat (nat_of_ascii c + 32) else c.

(** The code units that [toUpperCase] moves 32 down: a..z, and U+00E0..U+00FE
    without the division sign U+00F7. *)
Definition hasUpperCase (c : ascii) : bool :=
  let n := nat_of_ascii c in
  (isLowerChar c || (Nat.leb 224 n && Nat.leb n 254 && negb (Nat.eqb n 247)))%bool.

Definition upperChar (c : ascii) : ascii :=
  if hasUpperCase c then ascii_of_nat (nat_of_ascii c - 32) else c.

Fixpoint mapChars (f : ascii -> ascii) (s : string) : string :=
  match s with
  | EmptyString => EmptyString
  | String c r => String (f c) (mapChars f r)
  end.

Definition toLowerCase : string -> string := mapChars lowerChar.

(** [toUpperCase] turns the sharp s, U+00DF, into two capital letters S.  The
    capitals of the micro sign U+00B5 and of U+00FF lie above 255, outside the
    strings of the model; the two code units are left as they are.  The program
    only searches the result for patterns made of ASCII capitals, digits, space
    and underscore, which no capital above 255 can be part of. *)
Fixpoint toUpperCase (s : string) : string :=
  match s with
  | EmptyString => EmptyString
  | String c r =>
      if Nat.eqb (nat_of_ascii c) 223 then "SS" ++ toUpperCase r
      else String (upperChar c) (toUpperCase r)
  end.

(** [s.includes(pat)]. *)
Fixpoint includes (s pat : string) : bool :=
  if String.prefix pat s then true
  else match s with
       | EmptyString => false
       | String _ r => includes r pat
       end.

Fixpoint dropWhile (p : ascii -> bool) (s : string) : string :=
  match s with
  | EmptyString => EmptyString
  | String c r => if p c then dropWhile p r else s
  end.

Fixpoint allChars (p : ascii -> bool) (s : string) : bool :=
  match s with
  | EmptyString => true
  | String c r => (p c && allChars p r)%bool
  end.

(** [trimEnd]: the shortest prefix after which only white space follows. *)
Fixpoint trimEnd (s : string) : string :=
  match s with
  | EmptyString => EmptyString
  | String c r => if allChars isSpaceChar s then EmptyString else String c (trimEnd r)
  end.

Definition trim (s : string) : string := trimEnd (dropWhile isSpaceChar s).

Fixpoint join (sep : string) (l : list string) : string :=
  match l with
  | [] => EmptyString
  | [x] => x
  | x :: r => x ++ sep ++ join sep r
  end.

(** Decimal rendering of an integer, as [String(n)] gives it for an integer
    below 10^21 in absolute value. *)
Definition showZ (z : Z) : string := NilZero.string_of_int (Z.to_int z).

(** A value as [JSON.parse] builds it, and [undefined] for a missing property.
    An object is the list of its own properties in the order in which [for-in]
    enumerates them (integer-like keys first, in ascending order, then the
    other keys in insertion order); a number is an integer below 10^21 in
    absolute value (fractions and exponents are not represented). *)
Inductive JValue : Type :=
| JUndefined
| JNull
| JBool (b : bool)
| JNum (n : Z)
| JStr (s : string)
| JArr (items : list JValue)
| JObj (fields : list (string * JValue)).

(** ToBoolean. *)
Definition truthy (v : JValue) : bool :=
  match v with
  | JUndefined | JNull => false
  | JBool b => b
  | JNum n => negb (n =? 0)
  | JStr s => nonEmpty s
  | JArr _ | JObj _ => true
  end.

(** [typeof v === 'object']: null, arrays and objects. *)
Definition typeofIsObject (v : JValue) : bool :=
  match v with
  | JNull | JArr _ | JObj _ => true
  | _ => false
  end.

Definition isArray (v : JValue) : bool :=
  match v with JArr _ => true | _ => false end.

Fixpoint lookupField (k : string) (fields : list (string * JValue)) : JValue :=
  match fields with
  | [] => JUndefined
  | (k', v) :: r => if String.eqb k k' then v else lookupField k r
  end.

(** [v.k] for one of the data property names the program reads.  Reading a
    property of [null] or [undefined] raises a TypeError ([None]); a primitive
    or an array has none of these properties. *)
Definition getProp (v : JValue) (k : string) : option JValue :=
  match v with
  | JUndefined | JNull => None
  | JObj fields => Some (lookupField k fields)
  | _ => Some JUndefined
  end.

(** [a || b]. *)
Definition orElse (a b : JValue) : JValue := if truthy a then a else b.

Definition hasOwn (k : string) (fields : list (string * JValue)) : bool :=
  existsb (fun kv => String.eqb k (fst kv)) fields.

(** Whether ToString, as used by [String(v)] and by template literals,
    returns for [v].  For an object it calls the [toString] it finds: an own
    property of that name, which in a parsed value is never a function, hides
    [Object.prototype.toString], and then neither it nor [valueOf] yields a
    primitive: a TypeError is thrown.  An array is joined, converting each
    element that is neither null nor undefined. *)
Fixpoint converts (v : JValue) : bool :=
  match v with
  | JObj fields => negb (hasOwn "toString" fields)
  | JArr items => forallb converts items
  | _ => true
  end.

(** ToString of a value that [converts].  The callback of the dialogue map
    tests [converts] before it uses the text; the other uses are on values
    that are taken to convert. *)
Fixpoint toStr (v : JValue) : string :=
  match v with
  | JUndefined => "undefined"
  | JNull => "null"
  | JBool true => "true"
  | JBool false => "false"
  | JNum n => showZ n
  | JStr s => s
  | JArr items =>
      join "," (map (fun x => match x with
                              | JUndefined | JNull => EmptyString
                              | _ => toStr x
                              end) items)
  | JObj _ => "[object Object]"
  end.

(** [a === b].  Two arrays or two objects are equal when they are the same
    heap object, which the caller knows and passes as [sameRef]. *)
Definition strictEq (sameRef : bool) (a b : JValue) : bool :=
  match a, b with
  | JUndefined, JUndefined => true
  | JNull, JNull => true
  | JBool x, JBool y => Bool.eqb x y
  | JNum x, JNum y => x =? y
  | JStr x, JStr y => String.eqb x y
  | JArr _, JArr _ => sameRef
  | JObj _, JObj _ => sameRef
  | _, _ => false
  end.

End JS.

Import JS.

(* ================================================================== *)
(** ** types.ts and constants.ts *)

Inductive ComicStyle := TWO_D | THREE_D | REALISTIC | ANIME | CARTOON.
Inductive ComicEra := OLD | NEW | FUTURISTIC.
Inductive AspectRatio := SQUARE | PORTRAIT | LANDSCAPE.
Inductive ImageGenerationModel := IMAGEN_3 | GEMINI_2_FLASH_IMG.
Inductive TextGenerationModel :=
  GEMINI_2_5_FLASH | GEMINI_2_5_FLASH_LITE | GEMINI_2_5_PRO | GEMINI_2_0_FLASH.
Inductive CaptionPlacement := IN_UI | IN_IMAGE.

(** The string value of each enum member. *)
Definition styleValue (s : ComicStyle) : string :=
  match s with
  | TWO_D => "2D Animation"
  | THREE_D => "3D Rendered"
  | REALISTIC => "Photorealistic"
  | ANIME => "Anime/Manga"
  | CARTOON => "Classic Cartoon"
  end.

Definition eraValue (e : ComicEra) : string :=
  match e with
  | OLD => "Vintage/Retro (e.g., 1950s-1970s style)"
  | NEW => "Modern/Contemporary (e.g., 2000s-Present style)"
  | FUTURISTIC => "Futuristic/Sci-Fi"
  end.

Definition imageModelValue (m : ImageGenerationModel) : string :=
  match m with
  | IMAGEN_3 => "imagen-3.0-generate-002"
  | GEMINI_2_FLASH_IMG => "gemini-2.0-flash-preview-image-generation"
  end.

Definition textModelValue (m : TextGenerationModel) : string :=
  match m with
  | GEMINI_2_5_FLASH => "gemini-2.5-flash"
  | GEMINI_2_5_FLASH_LITE => "gemini-2.5-flash-lite-preview-06-17"
  | GEMINI_2_5_PRO => "gemini-2.5-pro"
  | GEMINI_2_0_FLASH => "gemini-2.0-flash"
  end.

Definition aspectRatioEqb (a b : AspectRatio) : bool :=
  match a, b with
  | SQUARE, SQUARE | PORTRAIT, PORTRAIT | LANDSCAPE, LANDSCAPE => true
  | _, _ => false
  end.

Definition MAX_COMIC_PAGES : Z := 200.
Definition DEFAULT_NUM_PAGES : Z := 6.
Definition FIXED_IMAGE_SEED : Z := 42.

(** [ComicPanelData].  The fields hold what the scene parser puts there at run
    time: [scene_number], [image_prompt] and [caption] are whatever truthy
    value the model sent, or the parser's default.  [imageUrl] is [None] while
    the property is undefined. *)
Record ComicPanelData := mkPanel {
  scene_number : JValue;
  image_prompt : JValue;
  caption : JValue;
  dialogues : list string;
  imageUrl : option string;
  scene_description_for_prompt : option string
}.

Record StoryInputOptions := mkOptions {
  story : string;
  style : ComicStyle;
  era : ComicEra;
  aspectRatio : AspectRatio;
  includeCaptions : bool;
  numPages : Z;
  imageModel : ImageGenerationModel;
  textModel : TextGenerationModel;
  captionPlacement : CaptionPlacement
}.

(* ================================================================== *)
(** ** The SDK surface: requests, responses, thrown values *)

(** What a [catch] clause can tell about a thrown value: which class it is an
    instance of, and its [message] (for a value that is no Error, the result of
    [String(value)]). *)
Inductive ErrorKind := KError | KSyntaxError | KTypeError | KNotError.

Record Thrown := mkThrown { kind : ErrorKind; message : string }.

(** [new Error(msg)]. *)
Definition newError (msg : string) : Thrown := mkThrown KError msg.

Definition instanceofError (e : Thrown) : bool :=
  match kind e with KNotError => false | _ => true end.

Definition instanceofSyntaxError (e : Thrown) : bool :=
  match kind e with KSyntaxError => true | _ => false end.

Inductive Modality := TEXT | IMAGE.

(** [config] of a [generateContent] request: the text call sets
    [responseMimeType], the image call sets [responseModalities] and [seed]. *)
Record ContentConfig := mkContentConfig {
  responseMimeType : option string;
  responseModalities : option (list Modality);
  contentSeed : option Z
}.

Record GenerateContentRequest := mkContentReq {
  contentModel : string;
  contentText : string;
  contentConfig : ContentConfig
}.

Record ImagesConfig := mkImagesConfig {
  numberOfImages : Z;
  outputMimeType : string;
  imagesAspectRatio : string;
  imagesSeed : Z
}.

Record GenerateImagesRequest := mkImagesReq {
  imagesModel : string;
  imagesPrompt : string;
  imagesConfig : ImagesConfig
}.

(** [SafetyRating] (geminiService.ts, line 36).  [category] and [probability]
    are the strings the endpoint sent; the SDK types them as members of its
    enums [HarmCategory] and [HarmProbability] and checks nothing. *)
Record SafetyRating := mkRating {
  category : string;
  probability : string;
  blocked : option bool
}.

Record InlineData := mkInline { data : option string; mimeType : option string }.
Record Part := mkPart { partText : option string; inlineData : option InlineData }.

Record Candidate := mkCandidate {
  finishReason : option string;
  safetyRatings : option (list SafetyRating);
  contentParts : option (list Part)
}.

Record GenerateContentResponse := mkContentResp {
  blockReason : option string;
  responseText : option string;
  candidates : option (list Candidate)
}.

Record SdkImage := mkSdkImage { imageBytes : option string }.
Record GeneratedImage := mkGenerated { image : option SdkImage }.

(** [GenerateImagesResponse], with the two properties the code probes through
    [(response as any)]. *)
Record GenerateImagesResponse := mkImagesResp {
  respError : JValue;
  respCode : JValue;
  generatedImages : option (list GeneratedImage)
}.

Inductive Result (A : Type) : Type :=
| Ok (a : A)
| Throw (e : Thrown).
Arguments Ok {A} a.
Arguments Throw {A} e.

Inductive ParseResult := Parsed (v : JValue) | ParseError (msg : string).

(** What the program does to the outside world, in order. *)
Inductive Event :=
| EvNewClient (apiKey : string)
| EvGenerateContent (req : GenerateContentRequest)
| EvGenerateImages (req : GenerateImagesRequest)
| EvDelay (ms : Q).

Record World := mkWorld {
  trace : list Event;   (* oldest first *)
  calls : nat;          (* endpoint calls made so far *)
  randoms : nat         (* Math.random() calls made so far *)
}.

Definition world0 : World := mkWorld [] 0 0.

(** The environment: what each outside call answers.  The two endpoints are
    indexed by the number of endpoint calls made before. *)
Record Env := mkEnv {
  generateContent : nat -> GenerateContentRequest -> Result GenerateContentResponse;
  generateImages : nat -> GenerateImagesRequest -> Result GenerateImagesResponse;
  mathRandom : nat -> Q;
  JSON_parse : string -> ParseResult;
  JSON_stringify : JValue -> string;
  (** the engine's TypeError message for reading property [k] of null *)
  nullReadMessage : string -> string;
  (** the engine's TypeError message for a value that does not convert to a
      string *)
  convertMessage : string;
  (** the fixed text of the scene instruction (geminiService.ts, lines 92-160)
      filled in with the options *)
  systemInstruction : StoryInputOptions -> string;
  (** the fixed directive text of the image prompt (lines 327-350) around the
      character sections and the scene context, with style and era *)
  imagePromptText : string -> string -> string -> string -> string;
  (** decoding a data URL in an [Image] element: its width and height, or
      [None] when [onerror] fires *)
  loadImage : string -> option (Z * Z);
  (** [pdf.splitTextToSize(text, maxWidth)] at the given font size *)
  splitTextToSize : Z -> string -> Q -> list string
}.

(* ================================================================== *)
(** ** The monad of asynchronous functions *)

Definition M (A : Type) : Type := World -> Result A * World.

Definition ret {A} (a : A) : M A := fun w => (Ok a, w).
Definition throw {A} (e : Thrown) : M A := fun w => (Throw e, w).

Definition bind {A B} (m : M A) (k : A -> M B) : M B :=
  fun w => match m w with
           | (Ok a, w') => k a w'
           | (Throw e, w') => (Throw e, w')
           end.

(** [try { m } catch (e) { h e }]. *)
Definition tryCatch {A} (m : M A) (h : Thrown -> M A) : M A :=
  fun w => match m w with
           | (Ok a, w') => (Ok a, w')
           | (Throw e, w') => h e w'
           end.

Definition liftResult {A} (r : Result A) : M A := fun w => (r, w).

Definition emit (ev : Event) : M unit :=
  fun w => (Ok tt, mkWorld (trace w ++ [ev]) (calls w) (randoms w)).

Notation "x <- m ;; k" := (bind m (fun x => k))
  (at level 61, m at next level, right associativity).
Notation "m ;;; k" := (bind m (fun _ => k))
  (at level 61, right associativity).

(** [new GoogleGenAI({ apiKey })]. *)
Definition newClient (apiKey : string) : M unit := emit (EvNewClient apiKey).

(** [await ai.models.generateContent(req)]. *)
Definition callGenerateContent (E : Env) (req : GenerateContentRequest)
  : M GenerateContentResponse :=
  fun w =>
    (generateContent E (calls w) req,
     mkWorld (trace w ++ [EvGenerateContent req]) (S (calls w)) (randoms w)).

(** [await ai.models.generateImages(req)]. *)
Definition callGenerateImages (E : Env) (req : GenerateImagesRequest)
  : M GenerateImagesResponse :=
  fun w =>
    (generateImages E (calls w) req,
     mkWorld (trace w ++ [EvGenerateImages req]) (S (calls w)) (randoms w)).

(** [Math.random()]. *)
Definition random (E : Env) : M Q :=
  fun w => (Ok (mathRandom E (randoms w)),
            mkWorld (trace w) (calls w) (S (randoms w))).

(** [await delay(ms)]. *)
Definition delay (ms : Q) : M unit := emit (EvDelay ms).

(* ================================================================== *)
(** ** geminiService.ts: generateScenePrompts *)

Module Scene.

Definition fence : string := "```".

Fixpoint dropN (n : nat) (s : string) : string :=
  match n, s with
  | S k, String _ r => dropN k r
  | _, _ => s
  end.

(** The tail of [fenceRegex] (flag [s]) from its lazy group on: the group takes
    the fewest characters after which only white space and the closing fence
    remain up to the end of the string. *)
Fixpoint lazyBody (s : string) : option string :=
  if String.eqb (dropWhile isSpaceChar s) fence then Some EmptyString
  else match s with
       | EmptyString => None
       | String c r => option_map (String c) (lazyBody r)
       end.

(** [jsonStr.match(fenceRegex)], giving capture group 2.  After the opening
    fence, the optional word group and the white space run are greedy, and
    what they skip can hold no back-quote, so they never give characters back. *)
Definition fenceMatch (s : string) : option string :=
  if String.prefix fence s
  then lazyBody (dropWhile isSpaceChar (dropWhile isWordChar (dropN 3 s)))
  else None.

(** Lines 179-184: trim, then unwrap a fenced block when group 2 is not empty. *)
Definition stripFence (responseText : string) : string :=
  let jsonStr := trim responseText in
  match fenceMatch jsonStr with
  | Some g2 => if nonEmpty g2 then trim g2 else jsonStr
  | None => jsonStr
  end.

(** [v.k] where [v] is known not to be null or undefined. *)
Definition prop (v : JValue) (k : string) : JValue :=
  match getProp v k with
  | Some x => x
  | None => JUndefined
  end.

(** The callback of [panel.dialogues.map] (lines 207-211).  The template
    literal of line 209 converts the character and then the line, [String(d)]
    of line 210 converts the entry; a value that does not convert makes the
    callback throw a TypeError. *)
Definition normalizeDialogue (E : Env) (d : JValue) : Result string :=
  match d with
  | JStr s => Ok s
  | _ =>
      if (truthy d && truthy (prop d "character") && truthy (prop d "line"))%bool
      then
        if (converts (prop d "character") && converts (prop d "line"))%bool
        then Ok (toStr (prop d "character") ++ ": " ++ dquote ++
                 toStr (prop d "line") ++ dquote)
        else Throw (mkThrown KTypeError (convertMessage E))
      else
        if converts d then Ok (toStr d)
        else Throw (mkThrown KTypeError (convertMessage E))
  end.

(** [panel.dialogues.map(callback)]: the first entry on which the callback
    throws ends the map. *)
Fixpoint mapDialogues (E : Env) (ds : list JValue) : Result (list string) :=
  match ds with
  | [] => Ok []
  | d :: rest =>
      match normalizeDialogue E d with
      | Throw e => Throw e
      | Ok line =>
          match mapDialogues E rest with
          | Throw e => Throw e
          | Ok lines => Ok (line :: lines)
          end
      end
  end.

Definition captionPlacementIsUI (c : CaptionPlacement) : bool :=
  match c with IN_UI => true | IN_IMAGE => false end.

(** The callback of [scenes.map] (lines 199-236).  [panel] is an element of the
    parsed array; reading a property of a null element raises a TypeError
    naming the first property read, and so does a dialogue entry that does not
    convert to a string. *)
Definition buildPanel (E : Env) (options : StoryInputOptions) (characterCanon : JValue)
    (panel : JValue) (index : Z) : Result ComicPanelData :=
  let useUI := (includeCaptions options && captionPlacementIsUI (captionPlacement options))%bool in
  match getProp panel "scene_number" with
  | None =>
      Throw (mkThrown KTypeError
               (nullReadMessage E (if useUI then "caption" else "scene_number")))
  | Some sn =>
      let finalCaption :=
        if useUI then orElse (prop panel "caption") (JStr EmptyString) else JNull in
      match (if useUI
             then match prop panel "dialogues" with
                  | JArr ds =>
                      match mapDialogues E ds with
                      | Ok lines => Ok (filter nonEmpty lines)
                      | Throw e => Throw e
                      end
                  | _ => Ok []
                  end
             else Ok []) with
      | Throw e => Throw e
      | Ok finalDialogues =>
          Ok {| scene_number := orElse sn (JNum (index + 1));
                image_prompt := orElse (prop panel "image_prompt")
                                       (JStr "No prompt generated for this scene.");
                caption := finalCaption;
                dialogues := finalDialogues;
                imageUrl := None;
                scene_description_for_prompt :=
                  Some (JSON_stringify E
                          (JObj [("characters", characterCanon);
                                 ("scene", prop panel "scene_description_for_prompt");
                                 ("mood", JStr "default")])) |}
      end
  end.

(** [scenes.map(callback)]: the first callback that throws ends the map. *)
Fixpoint mapPanels (f : JValue -> Z -> Result ComicPanelData)
    (scenes : list JValue) (index : Z) : Result (list ComicPanelData) :=
  match scenes with
  | [] => Ok []
  | panel :: rest =>
      match f panel index with
      | Throw e => Throw e
      | Ok p =>
          match mapPanels f rest (index + 1) with
          | Throw e => Throw e
          | Ok ps => Ok (p :: ps)
          end
      end
  end.

Definition optTruthy (o : option string) : bool :=
  match o with Some s => nonEmpty s | None => false end.

Definition optText (o : option string) : string :=
  match o with Some s => s | None => "undefined" end.

Definition missingScenesMessage (tm : string) : string :=
  "API response (model: " ++ tm ++
  ") did not contain the expected JSON structure. Missing 'scenes' array or 'characterCanon'.".

Definition missingCanonMessage (tm : string) : string :=
  "API response (model: " ++ tm ++
  ") did not contain the expected 'characterCanon' object.".

(** Lines 186-236: parse, validate, build the panels. *)
Definition parseScenes (E : Env) (options : StoryInputOptions) (jsonStr : string)
  : Result (list ComicPanelData) :=
  let tm := textModelValue (textModel options) in
  match JSON_parse E jsonStr with
  | ParseError msg => Throw (mkThrown KSyntaxError msg)
  | Parsed parsedData =>
      if (negb (truthy parsedData) || negb (typeofIsObject parsedData)
          || negb (isArray (prop parsedData "scenes")))%bool
      then Throw (newError (missingScenesMessage tm))
      else if (negb (truthy (prop parsedData "characterCanon"))
               || negb (typeofIsObject (prop parsedData "characterCanon")))%bool
      then Throw (newError (missingCanonMessage tm))
      else
        let characterCanon := prop parsedData "characterCanon" in
        match prop parsedData "scenes" with
        | JArr scenes => mapPanels (buildPanel E options characterCanon) scenes 0
        | _ => Ok []
        end
  end.

(** The [try] block (lines 162-236). *)
Definition sceneTry (E : Env) (options : StoryInputOptions) : M (list ComicPanelData) :=
  let tm := textModelValue (textModel options) in
  result <- callGenerateContent E
              (mkContentReq tm (systemInstruction E options)
                 (mkContentConfig (Some "application/json") None None)) ;;
  if optTruthy (blockReason result)
  then throw (newError ("Your story was blocked by content policies using model " ++ tm ++
                        " (" ++ optText (blockReason result) ++ "). Please revise your story."))
  else if negb (optTruthy (responseText result))
  then throw (newError ("API response (model: " ++ tm ++
                        ") was malformed or did not contain expected text content."))
  else liftResult (parseScenes E options (stripFence (optText (responseText result)))).

(** The [catch] block (lines 238-251): every branch throws. *)
Definition sceneCatch (options : StoryInputOptions) (error : Thrown) : Thrown :=
  let tm := textModelValue (textModel options) in
  let msg := if instanceofError error then message error
             else "An unknown error occurred." in
  let lower := toLowerCase msg in
  if (includes lower "api key not valid" || includes lower "permission denied")%bool
  then newError ("Failed to generate scene prompts (model: " ++ tm ++
                 ") due to an API key issue: " ++ msg ++
                 ". Check your API key and permissions.")
  else if (instanceofSyntaxError error || includes lower "json"
           || includes lower "unexpected token" || includes lower "malformed")%bool
  then newError ("Failed to parse scene prompts from API response (model: " ++ tm ++ "): " ++
                 msg ++ ". " ++
                 "This can happen if the story is too long or requests too many pages, leading to an incomplete/malformed response. " ++
                 "Try reducing pages or simplifying story.")
  else newError ("Failed to generate scene prompts (model: " ++ tm ++ "). Error: " ++ msg ++
                 ". Ensure API key is valid and model is accessible.").

Definition generateScenePrompts (E : Env) (apiKey : string) (options : StoryInputOptions)
  : M (list ComicPanelData) :=
  if negb (nonEmpty apiKey)
  then throw (newError "API Key is required to generate scene prompts.")
  else
    newClient apiKey ;;;
    tryCatch (sceneTry E options) (fun error => throw (sceneCatch options error)).

End Scene.

(* ================================================================== *)
(** ** geminiService.ts: generateImageForPrompt *)

Module Image.

Import Scene.

Definition newline : string := String (ascii_of_nat 10) EmptyString.

(** The [switch] of lines 278-284; its [default] arm is for no member of the enum. *)
Definition apiAspectRatioValue (inputAspectRatio : AspectRatio) : string :=
  match inputAspectRatio with
  | SQUARE => "1:1"
  | PORTRAIT => "9:16"
  | LANDSCAPE => "16:9"
  end.

Fixpoint indexedFrom {A} (i : Z) (l : list A) : list (string * A) :=
  match l with
  | [] => []
  | x :: r => (showZ i, x) :: indexedFrom (i + 1) r
  end.

Fixpoint charsOf (s : string) : list JValue :=
  match s with
  | EmptyString => []
  | String c r => JStr (String c EmptyString) :: charsOf r
  end.

(** The keys [for (k in v)] visits, each with [v[k]]; the properties of an
    object are visited in the order of its field list. *)
Definition forIn (v : JValue) : list (string * JValue) :=
  match v with
  | JObj fields => fields
  | JArr items => indexedFrom 0 items
  | JStr s => indexedFrom 0 (charsOf s)
  | _ => []
  end.

(** Lines 309-318. *)
Fixpoint characterSections (E : Env) (entries : list (string * JValue))
  : Result (list string) :=
  match entries with
  | [] => Ok []
  | (characterName, char) :: rest =>
      match getProp char "IVAP" with
      | None => Throw (mkThrown KTypeError (nullReadMessage E "IVAP"))
      | Some ivapValue =>
          let ivap := if truthy ivapValue
                      then toStr ivapValue ++ " (" ++ characterName ++ ")"
                      else characterName in
          let description :=
            orElse (prop char "description") (JStr "detailed description unavailable") in
          match characterSections E rest with
          | Throw e => Throw e
          | Ok sections =>
              Ok (("Character: " ++ ivap ++ ", " ++ toStr description ++ ".") :: sections)
          end
      end
  end.

(** Lines 290-350: the augmented prompt. *)
Definition buildAugmentedPrompt (E : Env) (initialImagePrompt style era : string)
  : Result string :=
  let sceneDetails :=
    match JSON_parse E initialImagePrompt with
    | Parsed parsedPrompt =>
        if (truthy parsedPrompt && typeofIsObject parsedPrompt)%bool
        then parsedPrompt else JObj []
    | ParseError _ => JObj [("scene", JStr initialImagePrompt)]
    end in
  match (if truthy (prop sceneDetails "characters")
         then characterSections E (forIn (prop sceneDetails "characters"))
         else Ok []) with
  | Throw e => Throw e
  | Ok sections =>
      let sceneContextParts :=
        List.app
          (if truthy (prop sceneDetails "scene")
           then ["Scene: " ++ toStr (prop sceneDetails "scene") ++ "."] else [])
          (if truthy (prop sceneDetails "mood")
           then ["Mood: " ++ toStr (prop sceneDetails "mood") ++ "."] else []) in
      Ok (imagePromptText E (join newline sections) (join " " sceneContextParts) style era)
  end.

Definition maxRetries : Z := 2.
Definition baseDelayMs : Z := 2000.

Definition isSafetyFinish (c : Candidate) : bool :=
  match finishReason c with
  | Some r => (String.eqb r "SAFETY" || String.eqb r "IMAGE_SAFETY")%bool
  | None => false
  end.

Definition blockedIsTrue (r : SafetyRating) : bool :=
  match blocked r with Some true => true | _ => false end.

(** Lines 372-378. *)
Definition safetyMessage (c : Candidate) : string :=
  "Image generation was blocked by safety filters (Reason: " ++ optText (finishReason c) ++ ")." ++
  match (match safetyRatings c with
         | Some ratings => find blockedIsTrue ratings
         | None => None
         end) with
  | Some blockedRating =>
      " Details: Category " ++ category blockedRating ++
      ", Probability " ++ probability blockedRating ++ "."
  | None => EmptyString
  end ++
  " Please try a different prompt or adjust story content.".

Definition hasInlineData (p : Part) : bool :=
  match inlineData p with Some _ => true | None => false end.

Definition partsOf (c : option Candidate) : option (list Part) :=
  match c with Some c' => contentParts c' | None => None end.

(** Lines 383-386: the data URL of the first part with inline data, when both
    its bytes and its MIME type are there. *)
Definition inlineImage (c : Candidate) : option string :=
  match contentParts c with
  | Some parts =>
      match find hasInlineData parts with
      | Some imagePart =>
          match inlineData imagePart with
          | Some d =>
              if (optTruthy (data d) && optTruthy (mimeType d))%bool
              then Some ("data:" ++ optText (mimeType d) ++ ";base64," ++ optText (data d))
              else None
          | None => None
          end
      | None => None
      end
  | None => None
  end.

(** Lines 390-395. *)
Definition noImageMessage (imageModelName : string) (candidate : option Candidate) : string :=
  let textFeedback :=
    match partsOf candidate with
    | Some parts =>
        match filter (fun p => optTruthy (partText p)) parts with
        | [] => "No explicit text feedback from API."
        | textFeedbackParts => join " " (map (fun p => optText (partText p)) textFeedbackParts)
        end
    | None => "No explicit text feedback from API."
    end in
  "API did not return an image for " ++ imageModelName ++ ". Feedback: " ++ dquote ++
  textFeedback ++ dquote ++
  ". This could be due to restrictive safety filters, an issue with the prompt, or an API problem. Full response logged to console.".

Definition flashRequest (imageModelName augmentedPrompt : string) : GenerateContentRequest :=
  mkContentReq imageModelName augmentedPrompt
    (mkContentConfig None (Some [TEXT; IMAGE]) (Some FIXED_IMAGE_SEED)).

Definition imagenRequest (imageModelName augmentedPrompt : string)
    (inputAspectRatio : AspectRatio) : GenerateImagesRequest :=
  mkImagesReq imageModelName augmentedPrompt
    (mkImagesConfig 1 "image/jpeg" (apiAspectRatioValue inputAspectRatio) FIXED_IMAGE_SEED).

(** What the flash branch does with a response (lines 369-395). *)
Definition readFlashResponse (imageModelName : string) (result : GenerateContentResponse)
  : Result string :=
  let candidate := match candidates result with
                   | Some (c :: _) => Some c
                   | _ => None
                   end in
  match candidate with
  | Some c =>
      if isSafetyFinish c then Throw (newError (safetyMessage c))
      else match inlineImage c with
           | Some url => Ok url
           | None => Throw (newError (noImageMessage imageModelName candidate))
           end
  | None => Throw (newError (noImageMessage imageModelName candidate))
  end.

(** What the Imagen branch does with a response (lines 412-421). *)
Definition readImagenResponse (E : Env) (imageModelName : string)
    (response : GenerateImagesResponse) : Result string :=
  if (truthy (respError response) || truthy (respCode response))%bool
  then Throw (newError ("Image generation failed for " ++ imageModelName ++ ". API Error: " ++
                        JSON_stringify E (orElse (respError response) (respCode response))))
  else
    match (match generatedImages response with
           | Some (g :: _) =>
               match image g with Some i => imageBytes i | None => None end
           | _ => None
           end) with
    | Some bytes =>
        if nonEmpty bytes then Ok ("data:image/jpeg;base64," ++ bytes)
        else Throw (newError ("No image data received from " ++ imageModelName ++
               " API. This could be due to safety filters or other issues. Full response logged to console."))
    | None =>
        Throw (newError ("No image data received from " ++ imageModelName ++
               " API. This could be due to safety filters or other issues. Full response logged to console."))
    end.

(** The [try] block of one pass of the loop (lines 357-422). *)
Definition attempt (E : Env) (imageModelName augmentedPrompt : string)
    (inputAspectRatio : AspectRatio) : M string :=
  if String.eqb imageModelName (imageModelValue GEMINI_2_FLASH_IMG)
  then
    result <- callGenerateContent E (flashRequest imageModelName augmentedPrompt) ;;
    liftResult (readFlashResponse imageModelName result)
  else
    response <- callGenerateImages E (imagenRequest imageModelName augmentedPrompt inputAspectRatio) ;;
    liftResult (readImagenResponse E imageModelName response).

(** The tests of the [catch] block on the message (lines 425-443). *)
Definition isApiKeyError (errorMessage : string) : bool :=
  (includes (toLowerCase errorMessage) "api key not valid"
   || includes (toLowerCase errorMessage) "permission denied")%bool.

Definition isRateLimitError (errorMessage : string) : bool :=
  (includes (toLowerCase errorMessage) "429"
   || includes (toUpperCase errorMessage) "RESOURCE_EXHAUSTED"
   || includes (toUpperCase errorMessage) "RATE_LIMIT_EXCEEDED")%bool.

Definition isInternalServerError (errorMessage : string) : bool :=
  (includes (toLowerCase errorMessage) "status: 500"
   || includes (toUpperCase errorMessage) "INTERNAL ERROR"
   || includes (toUpperCase errorMessage) "INTERNAL")%bool.

Definition isSafetyError (errorMessage : string) : bool :=
  (includes (toLowerCase errorMessage) "blocked by safety filters"
   || includes (toLowerCase errorMessage) "safety policy")%bool.

(** [baseDelayMs * Math.pow(2, retries - 1) + Math.random() * 1000]. *)
Definition delayTime (retries : Z) (rnd : Q) : Q :=
  (inject_Z baseDelayMs * Qpower (2 # 1) (retries - 1) + rnd * (1000 # 1))%Q.

(** The [catch] block (lines 423-448), entered with the current [retries].
    [None] is falling out of the block, back to the loop test, with [retries]
    one higher; the other branches throw. *)
Definition catchAttempt (E : Env) (imageModelName : string) (retries : Z) (error : Thrown)
  : M (option string) :=
  let errorMessage := message error in
  if isApiKeyError errorMessage
  then throw (newError ("Image generation failed for model '" ++ imageModelName ++
                        "' due to an API key issue: " ++ errorMessage ++
                        ". Please check your API key and its permissions."))
  else if ((isRateLimitError errorMessage || isInternalServerError errorMessage)
           && (retries <? maxRetries))%bool
  then
    rnd <- random E ;;
    delay (delayTime (retries + 1) rnd) ;;;
    ret None
  else if isSafetyError errorMessage
  then throw error
  else throw (newError ("API call failed for model '" ++ imageModelName ++ "' (attempt " ++
                        showZ (retries + 1) ++ "/" ++ showZ (maxRetries + 1) ++
                        "). Original error: " ++ errorMessage)).

(** The [while (retries <= maxRetries)] loop and the [throw] after it
    (lines 356-450).  [remaining] is [maxRetries + 1 - retries], the variant of
    the loop: the loop test holds exactly while it is positive, and a pass that
    neither returns nor throws raises [retries] by one. *)
Fixpoint attemptLoop (E : Env) (imageModelName augmentedPrompt : string)
    (inputAspectRatio : AspectRatio) (remaining : nat) (retries : Z) : M string :=
  match remaining with
  | O => throw (newError ("Failed to generate image after all retries for model '" ++
                          imageModelName ++ "'. Check console for details."))
  | S remaining' =>
      outcome <- tryCatch
                   (url <- attempt E imageModelName augmentedPrompt inputAspectRatio ;;
                    ret (Some url))
                   (catchAttempt E imageModelName retries) ;;
      match outcome with
      | Some url => ret url
      | None => attemptLoop E imageModelName augmentedPrompt inputAspectRatio
                  remaining' (retries + 1)
      end
  end.

Definition generateImageForPrompt (E : Env) (apiKey initialImagePrompt : string)
    (inputAspectRatio : AspectRatio) (imageModelName style era : string) : M string :=
  if negb (nonEmpty apiKey)
  then throw (newError "API Key is required for image generation.")
  else
    newClient apiKey ;;;
    augmentedPrompt <- liftResult (buildAugmentedPrompt E initialImagePrompt style era) ;;
    attemptLoop E imageModelName augmentedPrompt inputAspectRatio
      (Z.to_nat (maxRetries + 1)) 0.

End Image.

(* ================================================================== *)
(** ** App.tsx: the panel store and the generation run *)

Module App.

Import Scene Image.

(** The React state of [App].  [progress] only feeds the spinner and is left
    out; so is the two-second timer that delays the last [setIsLoading(false)]. *)
Record AppState := mkApp {
  apiKey : string;
  comicPanels : list ComicPanelData;
  isLoading : bool;
  isDownloadingPdf : bool;
  error : option string;
  currentAspectRatio : AspectRatio
}.

Definition setComicPanels (f : list ComicPanelData -> list ComicPanelData) (st : AppState)
  : AppState :=
  mkApp (apiKey st) (f (comicPanels st)) (isLoading st) (isDownloadingPdf st)
        (error st) (currentAspectRatio st).

Definition setError (f : option string -> option string) (st : AppState) : AppState :=
  mkApp (apiKey st) (comicPanels st) (isLoading st) (isDownloadingPdf st)
        (f (error st)) (currentAspectRatio st).

Definition setIsLoading (b : bool) (st : AppState) : AppState :=
  mkApp (apiKey st) (comicPanels st) b (isDownloadingPdf st)
        (error st) (currentAspectRatio st).

Definition setIsDownloadingPdf (b : bool) (st : AppState) : AppState :=
  mkApp (apiKey st) (comicPanels st) (isLoading st) b
        (error st) (currentAspectRatio st).

Definition setCurrentAspectRatio (a : AspectRatio) (st : AppState) : AppState :=
  mkApp (apiKey st) (comicPanels st) (isLoading st) (isDownloadingPdf st)
        (error st) a.

(** [{ ...p, imageUrl: u }]. *)
Definition withImageUrl (p : ComicPanelData) (u : option string) : ComicPanelData :=
  mkPanel (scene_number p) (image_prompt p) (caption p) (dialogues p) u
          (scene_description_for_prompt p).

(** [prevPanels.map(p => p.scene_number === panel.scene_number ? { ...p, imageUrl } : p)]
    where [panel] is [scenePrompts[i]].  The store holds copies of the scene
    prompts at the same positions, so the element at position [j] shares its
    [scene_number] object with [panel] exactly when [j = i]. *)
Fixpoint markPanels (j i : nat) (panel : ComicPanelData) (imageUrl : string)
    (prevPanels : list ComicPanelData) : list ComicPanelData :=
  match prevPanels with
  | [] => []
  | p :: rest =>
      (if strictEq (Nat.eqb j i) (scene_number p) (scene_number panel)
       then withImageUrl p (Some imageUrl) else p)
      :: markPanels (S j) i panel imageUrl rest
  end.

(** One pass of the [for] loop (lines 51-85) on [panel = scenePrompts[i]]. *)
Definition panelPass (E : Env) (options : StoryInputOptions) (key : string)
    (i : nat) (panel : ComicPanelData) (sw : AppState * World) : AppState * World :=
  let (st, w) := sw in
  match Image.generateImageForPrompt E key (toStr (image_prompt panel))
          (aspectRatio options) (imageModelValue (imageModel options))
          (styleValue (style options)) (eraValue (era options)) w with
  | (Ok imageUrl, w') =>
      (setComicPanels (markPanels 0 i panel imageUrl) st, w')
  | (Throw imgError, w') =>
      let imgErrMessage := if instanceofError imgError then message imgError
                           else "Unknown image error" in
      let panelErrMessage :=
        "Error on panel " ++ toStr (scene_number panel) ++ ": " ++ imgErrMessage in
      (setError (fun prevError =>
                   Some (if optTruthy prevError
                         then optText prevError ++ newline ++ panelErrMessage
                         else panelErrMessage))
         (setComicPanels (markPanels 0 i panel "error") st),
       w')
  end.

(** The [for] loop: the state and the world after each pass, in order. *)
Fixpoint imageLoop (E : Env) (options : StoryInputOptions) (key : string)
    (i : nat) (todo : list ComicPanelData) (sw : AppState * World)
  : list (AppState * World) :=
  match todo with
  | [] => []
  | panel :: rest =>
      let sw' := panelPass E options key i panel sw in
      sw' :: imageLoop E options key (S i) rest sw'
  end.

(** A run of [handleComicGeneration]: where it starts the image loop, what
    each pass leaves, and where it ends. *)
Record Run := mkRun {
  loopStart : option (AppState * World);
  passes : list (AppState * World);
  final : AppState * World
}.

(** The outer [catch] (lines 88-96). *)
Definition generationFailed (err : Thrown) (st : AppState) : AppState :=
  let errorMessage := if instanceofError err then message err
                      else "An unknown error occurred during comic generation." in
  let errorMessage' :=
    if (includes (toLowerCase errorMessage) "api key"
        || includes (toLowerCase errorMessage) "permission")%bool
    then errorMessage ++ " Please ensure API key is correct and has permissions for all selected models."
    else errorMessage in
  setComicPanels (fun _ => []) (setError (fun _ => Some errorMessage') st).

Definition handleComicGeneration (E : Env) (options : StoryInputOptions)
    (st : AppState) (w : World) : Run :=
  if negb (nonEmpty (trim (apiKey st)))
  then mkRun None []
         (setError (fun _ => Some "Please enter your API Key to generate comics.") st, w)
  else
    let st1 := setCurrentAspectRatio (aspectRatio options)
                 (setComicPanels (fun _ => [])
                    (setError (fun _ => None) (setIsLoading true st))) in
    match Scene.generateScenePrompts E (apiKey st) options w with
    | (Throw err, w1) =>
        mkRun None [] (setIsLoading false (generationFailed err st1), w1)
    | (Ok [], w1) =>
        mkRun None []
          (setIsLoading false
             (generationFailed
                (newError "No scene prompts generated. Story might be too short or API issue. Check API key & story.")
                st1), w1)
    | (Ok scenePrompts, w1) =>
        let initialPanels := map (fun p => withImageUrl p None) scenePrompts in
        let start := (setComicPanels (fun _ => initialPanels) st1, w1) in
        let ps := imageLoop E options (apiKey st) 0 scenePrompts start in
        let (stN, wN) := last ps start in
        mkRun (Some start) ps (setIsLoading false stN, wN)
    end.

(* ------------------------------------------------------------------ *)
(** *** The PDF export *)

Inductive Color := Gray (g : Z) | RGB (r g b : Z).

(** What jsPDF is asked to put on a page. *)
Inductive DrawOp :=
| DrawText (lines : list string) (x y : Q) (fontSize : Z) (color : Color)
           (maxWidth : option Q)
| DrawImage (imageData format : string) (x y w h : Q).

Definition Page := list DrawOp.

(** A jsPDF document: the pages already left, the page being drawn, and the
    current text settings. *)
Record Pdf := mkPdf {
  donePages : list Page;
  page : Page;
  fontSize : Z;
  textColor : Color
}.

(** [new jsPDF(...)]: one empty page, jsPDF's default font size and colour. *)
Definition newPdf : Pdf := mkPdf [] [] 16 (Gray 0).

Definition addPage (pdf : Pdf) : Pdf :=
  mkPdf (donePages pdf ++ [page pdf])%list [] (fontSize pdf) (textColor pdf).

Definition setFontSize (n : Z) (pdf : Pdf) : Pdf :=
  mkPdf (donePages pdf) (page pdf) n (textColor pdf).

Definition setTextColor (c : Color) (pdf : Pdf) : Pdf :=
  mkPdf (donePages pdf) (page pdf) (fontSize pdf) c.

Definition text (lines : list string) (x y : Q) (maxWidth : option Q) (pdf : Pdf) : Pdf :=
  mkPdf (donePages pdf)
        (page pdf ++ [DrawText lines x y (fontSize pdf) (textColor pdf) maxWidth])%list
        (fontSize pdf) (textColor pdf).

Definition addImage (imageData format : string) (x y w h : Q) (pdf : Pdf) : Pdf :=
  mkPdf (donePages pdf) (page pdf ++ [DrawImage imageData format x y w h])%list
        (fontSize pdf) (textColor pdf).

(** [pdf.save]: the pages of the document. *)
Definition savedPages (pdf : Pdf) : list Page := (donePages pdf ++ [page pdf])%list.

Section Layout.

Local Open Scope Q_scope.

Variable isLandscape : bool.

Definition A4_WIDTH_MM : Q := if isLandscape then 297 else 210.
Definition A4_HEIGHT_MM : Q := if isLandscape then 210 else 297.
Definition MARGIN_MM : Q := 10.
Definition MAX_IMG_WIDTH : Q := A4_WIDTH_MM - 2 * MARGIN_MM.
Definition MAX_IMG_HEIGHT_AREA : Q := A4_HEIGHT_MM * 0.65 - MARGIN_MM.
Definition TEXT_START_Y_OFFSET : Q := 10.

(** [a > b]. *)
Definition Qgtb (a b : Q) : bool := negb (Qle_bool a b).

(** Lines 157-167: the size of the picture on the page, from the size of the
    decoded image, both sides of which are positive (a zero side would make the
    script divide by zero). *)
Definition fitImage (imgWidth imgHeight : Z) : Q * Q :=
  let aspectRatioVal := inject_Z imgWidth / inject_Z imgHeight in
  let pdfImgWidth := MAX_IMG_WIDTH in
  let pdfImgHeight := pdfImgWidth / aspectRatioVal in
  if Qgtb pdfImgHeight MAX_IMG_HEIGHT_AREA
  then (MAX_IMG_HEIGHT_AREA * aspectRatioVal, MAX_IMG_HEIGHT_AREA)
  else (pdfImgWidth, pdfImgHeight).

Variable E : Env.

Definition lengthQ {A} (l : list A) : Q := inject_Z (Z.of_nat (List.length l)).

(** [panel.dialogues.forEach(...)] (lines 188-198). *)
Fixpoint drawDialogues (panel : ComicPanelData) (ds : list string)
    (currentTextY : Q) (pdf : Pdf) : Pdf :=
  match ds with
  | [] => pdf
  | dialogue :: rest =>
      let '(pdf1, y1) :=
        if Qgtb currentTextY (A4_HEIGHT_MM - MARGIN_MM - 10)
        then (text ["Panel " ++ toStr (scene_number panel) ++ " (cont.)"]
                   MARGIN_MM MARGIN_MM None (addPage pdf),
              MARGIN_MM + 10)
        else (pdf, currentTextY) in
      let dialogueLines := splitTextToSize E (fontSize pdf1) dialogue MAX_IMG_WIDTH in
      drawDialogues panel rest (y1 + (lengthQ dialogueLines * 4) + 2)
        (text dialogueLines MARGIN_MM y1 None pdf1)
  end.

(** The body of the export loop for [panel = comicPanels[i]] (lines 138-213).
    A failure of [addImage] or of a text call itself is not represented; the
    inner [catch] is entered when the image does not load. *)
Definition drawPanel (i : nat) (panel : ComicPanelData) (pdf0 : Pdf) : Pdf :=
  let pdf1 := if Nat.ltb 0%nat i then addPage pdf0 else pdf0 in
  let pdf2 := text ["Panel " ++ toStr (scene_number panel)] MARGIN_MM (MARGIN_MM + 5) None
                (setTextColor (Gray 100%Z) (setFontSize 10%Z pdf1)) in
  if (optTruthy (imageUrl panel)
      && negb (String.eqb (optText (imageUrl panel)) "error"))%bool
  then
    match loadImage E (optText (imageUrl panel)) with
    | Some (imgWidth, imgHeight) =>
        let '(pdfImgWidth, pdfImgHeight) := fitImage imgWidth imgHeight in
        let imgX := (A4_WIDTH_MM - pdfImgWidth) / 2 in
        let imgY := MARGIN_MM + 10 in
        let pdf3 := addImage (optText (imageUrl panel)) "JPEG" imgX imgY
                      pdfImgWidth pdfImgHeight pdf2 in
        let currentTextY := imgY + pdfImgHeight + TEXT_START_Y_OFFSET in
        let '(pdf4, y4) :=
          if truthy (caption panel)
          then
            let pdfc := setTextColor (Gray 0%Z) (setFontSize 12%Z pdf3) in
            let captionLines :=
              splitTextToSize E (fontSize pdfc) ("Caption: " ++ toStr (caption panel))
                MAX_IMG_WIDTH in
            (text captionLines MARGIN_MM currentTextY None pdfc,
             currentTextY + (lengthQ captionLines * 5) + 5)
          else (pdf3, currentTextY) in
        match dialogues panel with
        | [] => pdf4
        | ds => drawDialogues panel ds y4 (setTextColor (Gray 50%Z) (setFontSize 10%Z pdf4))
        end
    | None =>
        let errorTextY := MARGIN_MM + 20 in
        setTextColor (Gray 0%Z)
          (text ["Error loading image for this panel."] MARGIN_MM errorTextY
             (Some MAX_IMG_WIDTH) (setTextColor (RGB 255%Z 0%Z 0%Z) pdf2))
    end
  else
    let errorTextY := MARGIN_MM + 20 in
    setTextColor (Gray 0%Z)
      (text [match imageUrl panel with
             | Some u => if String.eqb u "error"
                         then "Image generation failed for this panel."
                         else "Image not available for this panel."
             | None => "Image not available for this panel."
             end]
         MARGIN_MM errorTextY (Some MAX_IMG_WIDTH)
         (setTextColor (RGB 255%Z 0%Z 0%Z) (setFontSize 12%Z pdf2))).

(** The export loop (line 137). *)
Fixpoint drawPanels (i : nat) (panels : list ComicPanelData) (pdf : Pdf) : Pdf :=
  match panels with
  | [] => pdf
  | panel :: rest => drawPanels (S i) rest (drawPanel i panel pdf)
  end.

End Layout.

(** [handleDownloadPdf] (lines 116-222): the pages saved, if any, and the
    state left. *)
Definition handleDownloadPdf (E : Env) (st : AppState) : option (list Page) * AppState :=
  if (Nat.eqb (List.length (comicPanels st)) 0 || isLoading st)%bool
  then (None, st)
  else
    let isLandscape := aspectRatioEqb (currentAspectRatio st) LANDSCAPE in
    let pdf := drawPanels isLandscape E 0 (comicPanels st) newPdf in
    (Some (savedPages pdf), setIsDownloadingPdf false (setIsDownloadingPdf true st)).

(** The text a page shows, in drawing order. *)
Definition pageText (p : Page) : list string :=
  flat_map (fun op => match op with
                      | DrawText lines _ _ _ _ _ => lines
                      | DrawImage _ _ _ _ _ _ => []
                      end) p.

Definition pageImages (p : Page) : list DrawOp :=
  filter (fun op => match op with DrawImage _ _ _ _ _ _ => true | _ => false end) p.

End App.

(* ================================================================== *)
(** * The components: the form, the panel and the display

    [src/components/StoryInputForm.tsx], [src/components/Panel.tsx],
    [src/components/ComicDisplay.tsx], and the defaults of the constants file
    that the form starts from. *)

Module Components.

Import Scene Image App.

(** constants.ts: what each select offers, value and label. *)
Definition AVAILABLE_STYLES : list (ComicStyle * string) :=
  [(TWO_D, "2D Animation"); (THREE_D, "3D Rendered"); (REALISTIC, "Photorealistic");
   (ANIME, "Anime/Manga"); (CARTOON, "Classic Cartoon")].

Definition AVAILABLE_ERAS : list (ComicEra * string) :=
  [(OLD, "Vintage (1950s-70s)"); (NEW, "Modern (2000s-Now)");
   (FUTURISTIC, "Futuristic/Sci-Fi")].

Definition AVAILABLE_ASPECT_RATIOS : list (AspectRatio * string) :=
  [(SQUARE, "Square (1:1)"); (PORTRAIT, "Portrait (9:16)");
   (LANDSCAPE, "Landscape (16:9)")].

Definition DEFAULT_TEXT_MODEL : TextGenerationModel := GEMINI_2_5_FLASH.
Definition DEFAULT_GEMINI_IMAGE_MODEL : ImageGenerationModel := GEMINI_2_FLASH_IMG.
Definition DEFAULT_CAPTION_PLACEMENT : CaptionPlacement := IN_UI.

(** [list[0].value]; the lists above are not empty. *)
Definition firstValue {A} (list : list (A * string)) (unused : A) : A :=
  match list with
  | (value, _) :: _ => value
  | [] => unused
  end.

(** The state of [StoryInputForm] is one field per property of
    [StoryInputOptions]; the form as first rendered (lines 26-34). *)
Definition initialForm : StoryInputOptions :=
  mkOptions EmptyString
    (firstValue AVAILABLE_STYLES TWO_D) (firstValue AVAILABLE_ERAS OLD)
    (firstValue AVAILABLE_ASPECT_RATIOS SQUARE)
    true DEFAULT_NUM_PAGES DEFAULT_GEMINI_IMAGE_MODEL DEFAULT_TEXT_MODEL
    DEFAULT_CAPTION_PLACEMENT.

Definition digitValue (c : ascii) : Z := Z.of_nat (nat_of_ascii c - 48).

(** The longest run of decimal digits a string starts with. *)
Fixpoint leadingDigits (s : string) : list ascii :=
  match s with
  | EmptyString => []
  | String c r => if isDigitChar c then c :: leadingDigits r else []
  end.

Definition digitsValue (ds : list ascii) : Z :=
  fold_left (fun acc c => acc * 10 + digitValue c) ds 0.

(** [parseInt(s, 10)]: leading white space is skipped, then a sign, then the
    digits are read up to the first other character; [None] is NaN.  The
    value is exact (a double rounds above 2^53). *)
Definition parseInt10 (s : string) : option Z :=
  let inputString := dropWhile isSpaceChar s in
  let '(negative, rest) :=
    match inputString with
    | String "-" r => (true, r)
    | String "+" r => (false, r)
    | _ => (false, inputString)
    end in
  match leadingDigits rest with
  | [] => None
  | ds => Some (if negative then - digitsValue ds else digitsValue ds)
  end.

(** The [onChange] handler of the page-count input (line 103):
    [Math.max(1, Math.min(MAX_COMIC_PAGES, parseInt(value, 10) || 1))]. *)
Definition onNumPagesChange (value : string) : Z :=
  Z.max 1 (Z.min MAX_COMIC_PAGES
             (match parseInt10 value with
              | Some n => if n =? 0 then 1 else n
              | None => 1
              end)).

(** What the user can do to the form between two submissions. *)
Inductive FormEvent :=
| ChangeStory (value : string)
| ChangeStyle (value : ComicStyle)
| ChangeEra (value : ComicEra)
| ChangeAspectRatio (value : AspectRatio)
| ChangeNumPages (value : string)
| ChangeTextModel (value : TextGenerationModel)
| ChangeImageModel (value : ImageGenerationModel)
| ChangeIncludeCaptions (checked : bool)
| ChangeCaptionPlacement (value : CaptionPlacement).

(** The [onChange] handlers.  The placement select is only rendered while
    captions are included; its handler is given for every state. *)
Definition onChange (ev : FormEvent) (form : StoryInputOptions) : StoryInputOptions :=
  match ev with
  | ChangeStory v =>
      mkOptions v (style form) (era form) (aspectRatio form) (includeCaptions form)
        (numPages form) (imageModel form) (textModel form) (captionPlacement form)
  | ChangeStyle v =>
      mkOptions (story form) v (era form) (aspectRatio form) (includeCaptions form)
        (numPages form) (imageModel form) (textModel form) (captionPlacement form)
  | ChangeEra v =>
      mkOptions (story form) (style form) v (aspectRatio form) (includeCaptions form)
        (numPages form) (imageModel form) (textModel form) (captionPlacement form)
  | ChangeAspectRatio v =>
      mkOptions (story form) (style form) (era form) v (includeCaptions form)
        (numPages form) (imageModel form) (textModel form) (captionPlacement form)
  | ChangeNumPages v =>
      mkOptions (story form) (style form) (era form) (aspectRatio form)
        (includeCaptions form) (onNumPagesChange v) (imageModel form) (textModel form)
        (captionPlacement form)
  | ChangeTextModel v =>
      mkOptions (story form) (style form) (era form) (aspectRatio form)
        (includeCaptions form) (numPages form) (imageModel form) v (captionPlacement form)
  | ChangeImageModel v =>
      mkOptions (story form) (style form) (era form) (aspectRatio form)
        (includeCaptions form) (numPages form) v (textModel form) (captionPlacement form)
  | ChangeIncludeCaptions v =>
      mkOptions (story form) (style form) (era form) (aspectRatio form) v
        (numPages form) (imageModel form) (textModel form) (captionPlacement form)
  | ChangeCaptionPlacement v =>
      mkOptions (story form) (style form) (era form) (aspectRatio form)
        (includeCaptions form) (numPages form) (imageModel form) (textModel form) v
  end.

(** The form after the events [evs], oldest first. *)
Definition formAfter (evs : list FormEvent) : StoryInputOptions :=
  fold_left (fun form ev => onChange ev form) evs initialForm.

(** What [handleSubmit] (lines 37-48) does: an alert, or the call of
    [onSubmit] with the fields of the form. *)
Inductive Submission :=
| Alert (msg : string)
| OnSubmit (options : StoryInputOptions).

Definition handleSubmit (isApiKeyProvided : bool) (form : StoryInputOptions) : Submission :=
  if negb isApiKeyProvided then Alert "Please enter your API Key above the form."
  else if negb (nonEmpty (trim (story form))) then Alert "Please enter a story."
  else OnSubmit form.

(** What a submission of the form does to the application: [App] renders the
    form with [onSubmit = handleComicGeneration] and
    [isApiKeyProvided = !!apiKey.trim()] (App.tsx, lines 256-261). *)
Inductive Submitted :=
| Alerted (msg : string)
| Started (run : Run).

Definition submitForm (E : Env) (st : AppState) (form : StoryInputOptions) (w : World)
  : Submitted :=
  match handleSubmit (nonEmpty (trim (apiKey st))) form with
  | Alert msg => Alerted msg
  | OnSubmit options => Started (handleComicGeneration E options st w)
  end.

(** Panel.tsx, lines 21-37: what the image area of a panel shows. *)
Inductive ImageView :=
| ShowImage (src alt : string)
| ShowImageError
| ShowGenerating.

Definition panelImage (panel : ComicPanelData) : ImageView :=
  if (optTruthy (imageUrl panel)
      && negb (String.eqb (optText (imageUrl panel)) "error"))%bool
  then ShowImage (optText (imageUrl panel))
                 ("Comic panel " ++ toStr (scene_number panel))
  else if match imageUrl panel with
          | Some u => String.eqb u "error"
          | None => false
          end
  then ShowImageError
  else ShowGenerating.

(** Panel.tsx, lines 39-61: the text under the image.  [panelContent] is the
    [panel-content] block: the caption paragraph (heading and caption) and the
    dialogue paragraphs; [sceneNumberOnly] is the block that shows the scene
    number alone. *)
Record PanelText := mkPanelText {
  panelContent : option (option (string * string) * list string);
  sceneNumberOnly : option string
}.

Definition panelText (panel : ComicPanelData) : PanelText :=
  let hasDialogues := negb (Nat.eqb (List.length (dialogues panel)) 0) in
  mkPanelText
    (if (truthy (caption panel) || hasDialogues)%bool
     then Some (if truthy (caption panel)
                then Some ("Scene " ++ toStr (scene_number panel) ++ ":",
                           toStr (caption panel))
                else None,
                dialogues panel)
     else None)
    (if (negb (truthy (caption panel)) && negb hasDialogues)%bool
     then Some ("Scene " ++ toStr (scene_number panel))
     else None).

(** ComicDisplay.tsx: [None] is the placeholder text, otherwise one panel
    component per element of the store, in order. *)
Definition comicDisplay (panels : list ComicPanelData)
  : option (list (ImageView * PanelText)) :=
  if Nat.eqb (List.length panels) 0 then None
  else Some (map (fun panel => (panelImage panel, panelText panel)) panels).

(** App.tsx, line 52: the percentage shown while the image of panel [i]
    (counted from 0) is generated. *)
Definition panelProgressPercentage (i totalPanels : nat) : Q :=
  (10 + (inject_Z (Z.of_nat i + 1) / inject_Z (Z.of_nat totalPanels)) * 90)%Q.

(** [Math.round]: the nearest integer, a half going up. *)
Definition mathRound (x : Q) : Z := Qfloor (x + (1 # 2))%Q.

End Components.

(* ================================================================== *)
(** ** Stating the properties *)

Module Props.

Import Scene Image App.

(** The endpoint requests among the events of a trace. *)
Definition isRequest (ev : Event) : bool :=
  match ev with
  | EvGenerateContent _ | EvGenerateImages _ => true
  | _ => false
  end.

Definition requestsOf (tr : list Event) : list Event := filter isRequest tr.

Fixpoint delaysOf (tr : list Event) : list Q :=
  match tr with
  | [] => []
  | EvDelay ms :: r => ms :: delaysOf r
  | _ :: r => delaysOf r
  end.

(** The seed a request carries. *)
Definition requestSeed (ev : Event) : option Z :=
  match ev with
  | EvGenerateContent req => contentSeed (contentConfig req)
  | EvGenerateImages req => Some (imagesSeed (imagesConfig req))
  | _ => None
  end.

(** The aspect ratio a request carries; the configuration of a
    [generateContent] request has no such property. *)
Definition requestAspectRatio (ev : Event) : option string :=
  match ev with
  | EvGenerateImages req => Some (imagesAspectRatio (imagesConfig req))
  | _ => None
  end.

(** The error of an attempt is one the [catch] block retries while the budget
    lasts: no API key error, and a rate-limit or internal-server error. *)
Definition isTransient (errorMessage : string) : bool :=
  (negb (isApiKeyError errorMessage)
   && (isRateLimitError errorMessage || isInternalServerError errorMessage))%bool.

(** What the [try] block of a pass yields when it makes endpoint call number [n]. *)
Definition outcomeAt (E : Env) (imageModelName augmentedPrompt : string)
    (inputAspectRatio : AspectRatio) (n : nat) : Result string :=
  if String.eqb imageModelName (imageModelValue GEMINI_2_FLASH_IMG)
  then match generateContent E n (flashRequest imageModelName augmentedPrompt) with
       | Ok result => readFlashResponse imageModelName result
       | Throw e => Throw e
       end
  else match generateImages E n
               (imagenRequest imageModelName augmentedPrompt inputAspectRatio) with
       | Ok response => readImagenResponse E imageModelName response
       | Throw e => Throw e
       end.

(** The request event of a pass. *)
Definition requestEvent (imageModelName augmentedPrompt : string)
    (inputAspectRatio : AspectRatio) : Event :=
  if String.eqb imageModelName (imageModelValue GEMINI_2_FLASH_IMG)
  then EvGenerateContent (flashRequest imageModelName augmentedPrompt)
  else EvGenerateImages (imagenRequest imageModelName augmentedPrompt inputAspectRatio).

(** The world after a pass that made its request and threw or returned. *)
Definition requested (ev : Event) (w : World) : World :=
  mkWorld (trace w ++ [ev]) (S (calls w)) (randoms w).

(** The world after a pass that made its request, drew a random number and
    slept for [ms]. *)
Definition retried (ev : Event) (ms : Q) (w : World) : World :=
  mkWorld (trace w ++ [ev; EvDelay ms]) (S (calls w)) (S (randoms w)).

(** The error that ends the loop when the last pass fails with [e]. *)
Definition lastError (imageModelName : string) (retries : Z) (e : Thrown) : Thrown :=
  if isSafetyError (message e) then e
  else newError ("API call failed for model '" ++ imageModelName ++ "' (attempt " ++
                 showZ (retries + 1) ++ "/" ++ showZ (maxRetries + 1) ++
                 "). Original error: " ++ message e).

(** The delays slept before retries 1..k, the first random number drawn being
    number [r0]. *)
Definition retryDelays (E : Env) (r0 k : nat) : list Q :=
  map (fun i => delayTime (Z.of_nat i + 1) (mathRandom E (i + r0))) (seq 0 k).

(** A request of [generateImageForPrompt] for model [m] and setting [ar]:
    either shape has the fixed seed; the [generateImages] shape has the aspect
    ratio of the setting as well. *)
Definition wellFormedRequest (m : string) (ar : AspectRatio) (ev : Event) : Prop :=
  match ev with
  | EvGenerateContent req =>
      m = imageModelValue GEMINI_2_FLASH_IMG /\ contentModel req = m /\
      contentConfig req = mkContentConfig None (Some [TEXT; IMAGE]) (Some FIXED_IMAGE_SEED)
  | EvGenerateImages req =>
      m <> imageModelValue GEMINI_2_FLASH_IMG /\ imagesModel req = m /\
      imagesSeed (imagesConfig req) = FIXED_IMAGE_SEED /\
      imagesAspectRatio (imagesConfig req) = apiAspectRatioValue ar /\
      In (apiAspectRatioValue ar) ["1:1"; "9:16"; "16:9"]
  | _ => True
  end.

(** What C9 asks of a request: the fixed seed and the aspect ratio of the
    setting. *)
Definition carriesSeedAndRatio (ar : AspectRatio) (ev : Event) : Prop :=
  requestSeed ev = Some FIXED_IMAGE_SEED /\
  requestAspectRatio ev = Some (apiAspectRatioValue ar).

(** The rating [safetyMessage] reports: the first one marked as blocked. *)
Definition blockedRating (c : Candidate) : option SafetyRating :=
  match safetyRatings c with
  | Some ratings => find blockedIsTrue ratings
  | None => None
  end.

(** Starting in world [w], the passes fail with the transient errors [errs],
    one after the other. *)
Definition failsWith (E : Env) (inputAspectRatio : AspectRatio)
    (imageModelName : string) (w : World) (augmentedPrompt : string)
    (errs : list Thrown) : Prop :=
  forall i e, nth_error errs i = Some e ->
    outcomeAt E imageModelName augmentedPrompt inputAspectRatio (i + calls w) = Throw e /\
    isTransient (message e) = true.

(** The text request of [generateScenePrompts]. *)
Definition sceneRequest (E : Env) (options : StoryInputOptions) : GenerateContentRequest :=
  mkContentReq (textModelValue (textModel options)) (systemInstruction E options)
    (mkContentConfig (Some "application/json") None None).

(** Panel records numbered 1..n in order. *)
Definition numberedOneTo (n : Z) (panels : list ComicPanelData) : Prop :=
  map scene_number panels = map (fun i => JNum (Z.of_nat i + 1)) (seq 0 (Z.to_nat n)).

(** The scene number the parser gives the scene at position [i]. *)
Definition sceneNumberAt (i : nat) (scene : JValue) : JValue :=
  orElse (prop scene "scene_number") (JNum (Z.of_nat i + 1)).

Fixpoint sceneNumbersFrom (i : nat) (scenes : list JValue) : list JValue :=
  match scenes with
  | [] => []
  | s :: r => sceneNumberAt i s :: sceneNumbersFrom (S i) r
  end.

(** The text endpoint answers the scene request made in world [w] with the
    text [t], unblocked. *)
Definition answersText (E : Env) (options : StoryInputOptions) (w : World) (t : string)
  : Prop :=
  exists resp,
    generateContent E (calls w) (sceneRequest E options) = Ok resp /\
    optTruthy (blockReason resp) = false /\
    responseText resp = Some t /\ nonEmpty t = true.

(** The parsed response passes the two checks of lines 189-194 and its scene
    list is [scenes]. *)
Definition hasScenes (parsedData : JValue) (scenes : list JValue) : Prop :=
  truthy parsedData = true /\ typeofIsObject parsedData = true /\
  prop parsedData "scenes" = JArr scenes /\
  truthy (prop parsedData "characterCanon") = true /\
  typeofIsObject (prop parsedData "characterCanon") = true.

(** The world after the client was built and the scene request was sent. *)
Definition afterSceneCall (E : Env) (apiKey : string) (options : StoryInputOptions)
    (w : World) : World :=
  mkWorld (trace w ++ [EvNewClient apiKey; EvGenerateContent (sceneRequest E options)])
          (S (calls w)) (randoms w).

(** A scene element of which properties can be read. *)
Definition readable (scene : JValue) : bool :=
  match scene with JUndefined | JNull => false | _ => true end.

(** A dialogue entry on which the callback of lines 207-211 does not throw. *)
Definition dialogueConverts (d : JValue) : bool :=
  match d with
  | JStr _ => true
  | _ =>
      if (truthy d && truthy (prop d "character") && truthy (prop d "line"))%bool
      then (converts (prop d "character") && converts (prop d "line"))%bool
      else converts d
  end.

(** What the callback of [scenes.map] makes of the dialogue list of a scene. *)
Definition sceneDialogues (E : Env) (options : StoryInputOptions) (panel : JValue)
  : Result (list string) :=
  if (includeCaptions options && captionPlacementIsUI (captionPlacement options))%bool
  then match prop panel "dialogues" with
       | JArr ds =>
           match mapDialogues E ds with
           | Ok lines => Ok (filter nonEmpty lines)
           | Throw e => Throw e
           end
       | _ => Ok []
       end
  else Ok [].

(** A scene element on which the callback of [scenes.map] does not throw: its
    properties can be read and, where the dialogues are taken over, each entry
    of its dialogue list converts to a string. *)
Definition buildable (options : StoryInputOptions) (scene : JValue) : bool :=
  (readable scene
   && (negb (includeCaptions options && captionPlacementIsUI (captionPlacement options))
       || match prop scene "dialogues" with
          | JArr ds => forallb dialogueConverts ds
          | _ => true
          end))%bool.

(** The image slot of the panel at position [j] of a store. *)
Definition slot (j : nat) (st : AppState) : option (option string) :=
  option_map imageUrl (nth_error (comicPanels st) j).

(** No two panels at different positions have [===] scene numbers. *)
Definition distinctSceneNumbers (panels : list ComicPanelData) : Prop :=
  forall i j p q, i <> j ->
    nth_error panels i = Some p -> nth_error panels j = Some q ->
    strictEq false (scene_number p) (scene_number q) = false.

(** What the store looks like when pass [i] is next: the panels of the scene
    list at their positions, with no image from position [i] on. *)
Definition storeAt (scenePrompts : list ComicPanelData) (i : nat)
    (store : list ComicPanelData) : Prop :=
  map scene_number store = map scene_number scenePrompts /\
  (forall j p, (i <= j)%nat -> nth_error store j = Some p -> imageUrl p = None).

(** What pass [panel] writes into the store when started in world [w]. *)
Definition passValue (E : Env) (options : StoryInputOptions) (key : string)
    (panel : ComicPanelData) (w : World) : string :=
  match fst (Image.generateImageForPrompt E key (toStr (image_prompt panel))
               (aspectRatio options) (imageModelValue (imageModel options))
               (styleValue (style options)) (eraValue (era options)) w) with
  | Ok imageUrl => imageUrl
  | Throw _ => "error"
  end.

(** Pass [i] of the image loop, on [panel], leads from [prev] to [next]: it
    runs one image generation, finds slot [i] absent, leaves there the image
    reference or the error marker, and touches no other slot. *)
Definition passStep (E : Env) (options : StoryInputOptions) (key : string)
    (i : nat) (panel : ComicPanelData) (prev next : AppState * World) : Prop :=
  snd next = snd (Image.generateImageForPrompt E key (toStr (image_prompt panel))
                    (aspectRatio options) (imageModelValue (imageModel options))
                    (styleValue (style options)) (eraValue (era options)) (snd prev)) /\
  slot i (fst prev) = Some None /\
  slot i (fst next) = Some (Some (passValue E options key panel (snd prev))) /\
  (forall j, j <> i -> slot j (fst next) = slot j (fst prev)).

(** The passes [ps], started in [prev] at position [i], are the passes on the
    panels [todo], one each. *)
Fixpoint passSteps (E : Env) (options : StoryInputOptions) (key : string)
    (i : nat) (prev : AppState * World) (ps : list (AppState * World))
    (todo : list ComicPanelData) : Prop :=
  match ps, todo with
  | [], [] => True
  | next :: ps', panel :: todo' =>
      passStep E options key i panel prev next /\
      passSteps E options key (S i) next ps' todo'
  | _, _ => False
  end.

(** A slot, once set, keeps its value from one state to the next. *)
Definition slotsKeepValue (states : list AppState) : Prop :=
  forall k j s s' u,
    nth_error states k = Some s -> nth_error states (S k) = Some s' ->
    slot j s = Some (Some u) -> slot j s' = Some (Some u).

(** A panel that carries the error marker, and one with an image that decodes. *)
Definition hasErrorMarker (p : ComicPanelData) : Prop := imageUrl p = Some "error".

Definition hasValidImage (E : Env) (p : ComicPanelData) (w h : Z) : Prop :=
  exists u, imageUrl p = Some u /\ nonEmpty u = true /\ u <> "error" /\
            loadImage E u = Some (w, h) /\ 0 < w /\ 0 < h.

(** A document with the pages [pre] put before its own. *)
Definition prepend (pre : list Page) (pdf : Pdf) : Pdf :=
  mkPdf (pre ++ donePages pdf) (page pdf) (fontSize pdf) (textColor pdf).

(** The label and the placeholder of a panel whose image generation failed. *)
Definition errorMarkerPage (isLandscape : bool) (p : ComicPanelData) : Page :=
  [DrawText ["Panel " ++ toStr (scene_number p)] 10 15 10 (Gray 100) None;
   DrawText ["Image generation failed for this panel."] 10 30 12 (RGB 255 0 0)
            (Some (MAX_IMG_WIDTH isLandscape))].

(** How many of the dialogue lines [ds], printed from height [y] on at font
    size [fs], start below the bottom threshold and so open a continuation
    page. *)
Fixpoint continuationCount (isLandscape : bool) (E : Env) (fs : Z) (ds : list string)
    (y : Q) : nat :=
  match ds with
  | [] => 0%nat
  | d :: rest =>
      let dialogueLines := splitTextToSize E fs d (MAX_IMG_WIDTH isLandscape) in
      if Qgtb y (A4_HEIGHT_MM isLandscape - MARGIN_MM - 10)%Q
      then S (continuationCount isLandscape E fs rest
                (MARGIN_MM + 10 + lengthQ dialogueLines * 4 + 2)%Q)
      else continuationCount isLandscape E fs rest
             (y + lengthQ dialogueLines * 4 + 2)%Q
  end.

(** The height at which the dialogue lines of [p] start, under a picture of an
    image [w] by [h] and under the caption, if any. *)
Definition dialogueStartY (isLandscape : bool) (E : Env) (p : ComicPanelData)
    (w h : Z) : Q :=
  let currentTextY :=
    (MARGIN_MM + 10 + snd (fitImage isLandscape w h) + TEXT_START_Y_OFFSET)%Q in
  if truthy (caption p)
  then (currentTextY +
        lengthQ (splitTextToSize E 12 ("Caption: " ++ toStr (caption p))
                   (MAX_IMG_WIDTH isLandscape)) * 5 + 5)%Q
  else currentTextY.

(** The pages one panel gives when drawn as the first panel of a document. *)
Definition panelPages (isLandscape : bool) (E : Env) (p : ComicPanelData) : list Page :=
  savedPages (drawPanel isLandscape E 0 p newPdf).

(** The message of the [catch] block of [generateScenePrompts] for an answer
    that cannot be parsed. *)
Definition parseFailureMessage (tm msg : string) : string :=
  "Failed to parse scene prompts from API response (model: " ++ tm ++ "): " ++ msg ++
  ". This can happen if the story is too long or requests too many pages, leading to an incomplete/malformed response. Try reducing pages or simplifying story.".

(** The text of the error thrown for a blocked story (line 171). *)
Definition blockedStoryMessage (tm reason : string) : string :=
  "Your story was blocked by content policies using model " ++ tm ++
  " (" ++ reason ++ "). Please revise your story.".

(** A panel record as the scene parser leaves it: no image yet, a truthy
    number and prompt, no empty dialogue line, and a caption that is null, the
    empty string, or truthy. *)
Definition completePanel (p : ComicPanelData) : Prop :=
  imageUrl p = None /\
  truthy (scene_number p) = true /\
  truthy (image_prompt p) = true /\
  Forall (fun d => nonEmpty d = true) (dialogues p) /\
  (caption p = JNull \/ caption p = JStr EmptyString \/ truthy (caption p) = true) /\
  scene_description_for_prompt p <> None.

(** The error the [catch] block of [generateImageForPrompt] throws for the
    error [e] of a pass it does not retry, [retries] retries having been
    made. *)
Definition finalError (imageModelName : string) (retries : Z) (e : Thrown) : Thrown :=
  if isApiKeyError (message e)
  then newError ("Image generation failed for model '" ++ imageModelName ++
                 "' due to an API key issue: " ++ message e ++
                 ". Please check your API key and its permissions.")
  else lastError imageModelName retries e.

(** The events of a call that builds its client and makes the request [ev],
    having slept for each of [delays] after a failed request before. *)
Definition callEvents (apiKey : string) (ev : Event) (delays : list Q) : list Event :=
  EvNewClient apiKey :: (flat_map (fun ms => [ev; EvDelay ms]) delays ++ [ev])%list.

Definition sumQ (l : list Q) : Q := fold_right Qplus 0%Q l.



(** The sentence [handleComicGeneration] adds to a message that mentions the
    API key or a permission (line 92). *)
Definition keyHint : string :=
  " Please ensure API key is correct and has permissions for all selected models.".

(** A panel whose image slot is settled: it holds the error marker or a data
    URL. *)
Definition settled (p : ComicPanelData) : Prop :=
  exists u, imageUrl p = Some u /\ (u = "error" \/ String.prefix "data:" u = true).

(** For each panel of the scene list, the result of its image generation,
    run in the world the pass for the panel started in; [states] are the
    states the passes started in, in order. *)
Definition passOutcomes (E : Env) (options : StoryInputOptions) (key : string)
    (scenePrompts : list ComicPanelData) (states : list (AppState * World))
  : list (ComicPanelData * Result string) :=
  map (fun ps =>
         (fst ps,
          fst (Image.generateImageForPrompt E key (toStr (image_prompt (fst ps)))
                 (aspectRatio options) (imageModelValue (imageModel options))
                 (styleValue (style options)) (eraValue (era options)) (snd (snd ps)))))
      (combine scenePrompts states).

(** The line of the error banner for a panel whose image generation threw. *)
Definition errorLine (panel : ComicPanelData) (e : Thrown) : string :=
  "Error on panel " ++ toStr (scene_number panel) ++ ": " ++
  (if instanceofError e then message e else "Unknown image error").

Definition errorLines (outcomes : list (ComicPanelData * Result string)) : list string :=
  flat_map (fun o => match snd o with
                     | Throw e => [errorLine (fst o) e]
                     | Ok _ => []
                     end) outcomes.

(** The error state that shows the given lines, one per paragraph. *)
Definition banner (lines : list string) : option string :=
  match lines with
  | [] => None
  | _ => Some (join newline lines)
  end.

(** What the store looks like when pass [i] is next, whatever the scene
    numbers are: the panels carry the numbers of the scene list, every slot is
    absent or settled, and the slots before position [i] are settled. *)
Definition storeSettled (scenePrompts : list ComicPanelData) (i : nat)
    (store : list ComicPanelData) : Prop :=
  map scene_number store = map scene_number scenePrompts /\
  (forall j p, nth_error store j = Some p ->
     (imageUrl p = None \/ settled p) /\ ((j < i)%nat -> settled p)).

(** The label a page opens with: the one line of its first text, if the page
    opens with a text of one line. *)
Definition pageLabel (pg : Page) : option string :=
  match pg with
  | DrawText [l] _ _ _ _ _ :: _ => Some l
  | _ => None
  end.

(** The text of a page after what it opens with. *)
Definition pageBody (pg : Page) : list string := pageText (tl pg).

(** The labels of the pages of a panel that has [n] continuation pages. *)
Definition panelLabels (pn : ComicPanelData * nat) : list (option string) :=
  Some ("Panel " ++ toStr (scene_number (fst pn)))
  :: repeat (Some ("Panel " ++ toStr (scene_number (fst pn)) ++ " (cont.)")) (snd pn).

(** A dialogue entry in object form, and the line the parser makes of it. *)
Definition speakerEntry (cl : string * string) : JValue :=
  JObj [("character", JStr (fst cl)); ("line", JStr (snd cl))].

Definition speakerLine (cl : string * string) : string :=
  fst cl ++ ": " ++ dquote ++ snd cl ++ dquote.

(** The environment [E'] decodes images and splits text as [E] does. *)
Definition sameRendering (E E' : Env) : Prop :=
  (forall url, loadImage E' url = loadImage E url) /\
  (forall size t width, splitTextToSize E' size t width = splitTextToSize E size t width).

End Props.

(* ================================================================== *)
(** ** Concrete runs *)

Module Examples.

Import Scene Image App Props.

Definition q (s : string) : string := dquote ++ s ++ dquote.

(** A world that never answers: every call is rejected. *)
Definition noAnswer {A} : Result A := Throw (mkThrown KError "fetch failed").

Definition textResponse (t : string) : Result GenerateContentResponse :=
  Ok (mkContentResp None (Some t) None).

(** [JSON.parse] on the texts the runs below hand it: the listed JSON texts
    parse to the listed values, the prompts (no JSON) are rejected. *)
Definition parseWith (table : list (string * JValue)) (s : string) : ParseResult :=
  match find (fun kv => String.eqb (fst kv) s) table with
  | Some kv => Parsed (snd kv)
  | None => ParseError "Unexpected token"
  end.

Definition baseEnv (table : list (string * JValue))
    (content : nat -> GenerateContentRequest -> Result GenerateContentResponse)
    (images : nat -> GenerateImagesRequest -> Result GenerateImagesResponse) : Env :=
  {| generateContent := content;
     generateImages := images;
     mathRandom := fun _ => (1 # 2)%Q;
     JSON_parse := parseWith table;
     JSON_stringify := fun _ => "{}";
     nullReadMessage := fun k => "Cannot read properties of null (reading '" ++ k ++ "')";
     convertMessage := "Cannot convert object to primitive value";
     systemInstruction := fun _ => "Break the story into scenes.";
     imagePromptText := fun sections context st er => sections ++ " " ++ context;
     loadImage := fun _ => Some (1024, 1024);
     splitTextToSize := fun _ t _ => [t] |}.

Definition options3 (m : ImageGenerationModel) (inc : bool) (pl : CaptionPlacement)
  : StoryInputOptions :=
  mkOptions "A cat finds a hat." ANIME NEW SQUARE inc 3 m GEMINI_2_5_FLASH pl.

(** One scene, numbered 7 by the model, with a caption and a dialogue line. *)
Definition oneSceneText : string :=
  "{" ++ q "characterCanon" ++ ":{}," ++ q "scenes" ++ ":[{" ++
  q "scene_number" ++ ":7," ++ q "image_prompt" ++ ":" ++ q "A cat" ++ "," ++
  q "caption" ++ ":" ++ q "Morning" ++ "," ++
  q "dialogues" ++ ":[" ++ q "Cat: Meow" ++ "]}]}".

Definition oneSceneValue : JValue :=
  JObj [("characterCanon", JObj []);
        ("scenes", JArr [JObj [("scene_number", JNum 7);
                               ("image_prompt", JStr "A cat");
                               ("caption", JStr "Morning");
                               ("dialogues", JArr [JStr "Cat: Meow"])]])].

Definition fenced (t : string) : string := "```json" ++ newline ++ t ++ newline ++ "```".

Definition oneSceneEnv : Env :=
  baseEnv [(oneSceneText, oneSceneValue)]
    (fun _ _ => textResponse (fenced oneSceneText)) (fun _ _ => noAnswer).

(** Two scenes to which the model gave the same number. *)
Definition twinScenesText : string :=
  "{" ++ q "characterCanon" ++ ":{}," ++ q "scenes" ++ ":[{" ++
  q "scene_number" ++ ":1," ++ q "image_prompt" ++ ":" ++ q "A cat" ++ "},{" ++
  q "scene_number" ++ ":1," ++ q "image_prompt" ++ ":" ++ q "A hat" ++ "}]}".

Definition twinScenesValue : JValue :=
  JObj [("characterCanon", JObj []);
        ("scenes", JArr [JObj [("scene_number", JNum 1); ("image_prompt", JStr "A cat")];
                         JObj [("scene_number", JNum 1); ("image_prompt", JStr "A hat")]])].

Definition imagenOk (bytes : string) : Result GenerateImagesResponse :=
  Ok (mkImagesResp JUndefined JUndefined (Some [mkGenerated (Some (mkSdkImage (Some bytes)))])).

(** Imagen answers the first image call and refuses the second for good. *)
Definition twinScenesEnv : Env :=
  baseEnv [(twinScenesText, twinScenesValue)]
    (fun _ _ => textResponse twinScenesText)
    (fun n _ => if Nat.eqb n 1 then imagenOk "AAAA"
                else Throw (mkThrown KError "400 Bad Request")).

(** Two scenes without numbers. *)
Definition plainScenesText : string :=
  "{" ++ q "characterCanon" ++ ":{}," ++ q "scenes" ++ ":[{" ++
  q "image_prompt" ++ ":" ++ q "A cat" ++ "},{" ++
  q "image_prompt" ++ ":" ++ q "A hat" ++ "}]}".

Definition plainScenesValue : JValue :=
  JObj [("characterCanon", JObj []);
        ("scenes", JArr [JObj [("image_prompt", JStr "A cat")];
                         JObj [("image_prompt", JStr "A hat")]])].

Definition plainScenesEnv : Env :=
  baseEnv [(plainScenesText, plainScenesValue)]
    (fun _ _ => textResponse plainScenesText)
    (fun n _ => if Nat.eqb n 1 then imagenOk "AAAA"
                else Throw (mkThrown KError "400 Bad Request")).

Definition app0 (key : string) : AppState := mkApp key [] false false None SQUARE.

Definition twinRun : Run :=
  handleComicGeneration twinScenesEnv (options3 IMAGEN_3 true IN_UI) (app0 "key") world0.

Definition plainRun : Run :=
  handleComicGeneration plainScenesEnv (options3 IMAGEN_3 true IN_UI) (app0 "key") world0.

(** A flash response stopped by the safety filter, with one blocked rating. *)
Definition blockedCandidate : Candidate :=
  mkCandidate (Some "IMAGE_SAFETY")
    (Some [mkRating "HARM_CATEGORY_HARASSMENT" "LOW" None;
           mkRating "HARM_CATEGORY_DANGEROUS_CONTENT" "HIGH" (Some true)])
    None.

Definition flashImage (bytes : string) : Result GenerateContentResponse :=
  Ok (mkContentResp None None
        (Some [mkCandidate (Some "STOP") None
                 (Some [mkPart (Some "Here it is") None;
                        mkPart None (Some (mkInline (Some bytes) (Some "image/png")))])])).

(** The flash endpoint: busy once, then blocked by the safety filter. *)
Definition busyThenBlockedEnv : Env :=
  baseEnv []
    (fun n _ => if Nat.eqb n 0
                then Throw (mkThrown KError "got status: 429 RESOURCE_EXHAUSTED")
                else Ok (mkContentResp None None (Some [blockedCandidate])))
    (fun _ _ => noAnswer).

(** An endpoint that is always busy. *)
Definition alwaysBusyEnv : Env :=
  baseEnv []
    (fun _ _ => Throw (mkThrown KError "got status: 500 INTERNAL"))
    (fun _ _ => Throw (mkThrown KError "429 Too Many Requests")).

(** The flash endpoint: busy twice, then an image. *)
Definition busyTwiceEnv : Env :=
  baseEnv []
    (fun n _ => if Nat.ltb n 2
                then Throw (mkThrown KError "got status: 500 INTERNAL")
                else flashImage "BBBB")
    (fun _ _ => noAnswer).

(** Three panels for the export: an image, the error marker, an image whose
    panel has twelve dialogue lines. *)
Definition imagePanel (n : Z) (ds : list string) : ComicPanelData :=
  mkPanel (JNum n) (JStr "A cat") (JStr EmptyString) ds
          (Some "data:image/jpeg;base64,AAAA") None.

Definition errorPanel (n : Z) : ComicPanelData :=
  mkPanel (JNum n) (JStr "A hat") JNull [] (Some "error") None.

Definition exportState (ds : list string) : AppState :=
  mkApp "key" [imagePanel 1 []; errorPanel 2; imagePanel 3 ds] false false None SQUARE.

Definition twelveLines : list string := repeat "Cat: Meow" 12.

(** For the export only image decoding and text splitting are consulted: every
    image is 1024 by 1024, every text fits one line. *)
Definition exportEnv : Env := baseEnv [] (fun _ _ => noAnswer) (fun _ _ => noAnswer).

(** The text endpoint blocks the story, though its answer carries a text. *)
Definition blockedStoryEnv : Env :=
  baseEnv [(oneSceneText, oneSceneValue)]
    (fun _ _ => Ok (mkContentResp (Some "PROHIBITED_CONTENT") (Some oneSceneText) None))
    (fun _ _ => noAnswer).

(** The text endpoint answers without a text. *)
Definition silentEnv : Env :=
  baseEnv [] (fun _ _ => Ok (mkContentResp None None None)) (fun _ _ => noAnswer).

(** The text endpoint answers with a text that is cut short. *)
Definition cutShortEnv : Env :=
  baseEnv [] (fun _ _ => textResponse "{") (fun _ _ => noAnswer).

(** The image endpoint refuses the key, in words that also read as a
    rate-limit error. *)
Definition badKeyEnv : Env :=
  baseEnv [] (fun _ _ => noAnswer)
    (fun _ _ => Throw (mkThrown KError "429 API key not valid. Please pass a valid API key.")).

(** [JSON.parse] reads the text 42 as a number. *)
Definition numberPromptEnv : Env :=
  baseEnv [("42", JNum 42)] (fun _ _ => noAnswer) (fun _ _ => noAnswer).



(** An image endpoint that refuses every request for the safety policy and
    reports a support code. *)
Definition refusedMessage : string :=
  "The prompt was blocked by safety policy. Support codes: 14295672".

Definition refusingEnv : Env :=
  baseEnv [] (fun _ _ => noAnswer) (fun _ _ => Throw (mkThrown KError refusedMessage)).

(** A flash response stopped by the safety filter, whose blocked rating has a
    category of the endpoint's that is no member of the SDK's enum. *)
Definition internalPolicyCandidate : Candidate :=
  mkCandidate (Some "SAFETY")
    (Some [mkRating "HARM_CATEGORY_INTERNAL_POLICY" "HIGH" (Some true)]) None.

Definition internalPolicyEnv : Env :=
  baseEnv []
    (fun _ _ => Ok (mkContentResp None None (Some [internalPolicyCandidate])))
    (fun _ _ => noAnswer).

(** The no-break space, U+00A0. *)
Definition nbsp : string := String (ascii_of_nat 160) EmptyString.

(** One scene whose only dialogue entry is an object with an own property
    [toString]. *)
Definition ownToStringText : string :=
  "{" ++ q "characterCanon" ++ ":{}," ++ q "scenes" ++ ":[{" ++
  q "image_prompt" ++ ":" ++ q "A cat" ++ "," ++
  q "dialogues" ++ ":[{" ++ q "toString" ++ ":1}]}]}".

Definition ownToStringScene : JValue :=
  JObj [("image_prompt", JStr "A cat");
        ("dialogues", JArr [JObj [("toString", JNum 1)]])].

Definition ownToStringValue : JValue :=
  JObj [("characterCanon", JObj []); ("scenes", JArr [ownToStringScene])].

Definition ownToStringEnv : Env :=
  baseEnv [(ownToStringText, ownToStringValue)]
    (fun _ _ => textResponse ownToStringText) (fun _ _ => noAnswer).

End Examples.


(* ================================================================== *)
(** ** Facts about strings *)

Import Scene Image App Props Examples.

Lemma append_assoc (a b c : string) : (a ++ b) ++ c = a ++ (b ++ c).
Proof. induction a as [|x a IH]; simpl; [reflexivity | now rewrite IH]. Qed.

Lemma length_append (a b : string) :
  String.length (a ++ b) = (String.length a + String.length b)%nat.
Proof. induction a as [|x a IH]; simpl; [reflexivity | now rewrite IH]. Qed.

Lemma prefix_append (m b : string) : String.prefix m (m ++ b) = true.
Proof.
  induction m as [|x m IH]; simpl.
  - destruct b; reflexivity.
  - destruct (ascii_dec x x); [exact IH | congruence].
Qed.

Lemma includes_prefix (s pat : string) :
  String.prefix pat s = true -> includes s pat = true.
Proof. intros H. destruct s; unfold includes; fold includes; now rewrite H. Qed.

(** A string includes each of its substrings. *)
Lemma includes_append (a m b : string) : includes (a ++ m ++ b) m = true.
Proof.
  induction a as [|x a IH].
  - change (includes (m ++ b) m = true). apply includes_prefix, prefix_append.
  - change ((String x a) ++ m ++ b) with (String x (a ++ m ++ b)).
    unfold includes; fold includes.
    destruct (String.prefix m (String x (a ++ m ++ b))); [reflexivity | exact IH].
Qed.

Lemma append_empty_r (s : string) : s ++ EmptyString = s.
Proof. induction s as [|c r IH]; simpl; [reflexivity | now rewrite IH]. Qed.

Lemma includes_refl (m : string) : includes m m = true.
Proof.
  apply includes_prefix. rewrite <- (append_empty_r m) at 2. apply prefix_append.
Qed.

Lemma allChars_false_dropWhile (p : ascii -> bool) (s t : string) :
  allChars p s = false ->
  exists c r, dropWhile p (s ++ t) = String c (r ++ t).
Proof.
  induction s as [|x s IH]; simpl; [discriminate|].
  destruct (p x) eqn:Hx; simpl.
  - intros H. apply IH in H. exact H.
  - intros _. exists x, s. reflexivity.
Qed.

Lemma dropWhile_all (p : ascii -> bool) (s : string) (c : ascii) (r : string) :
  allChars p s = true -> p c = false ->
  dropWhile p (s ++ String c r) = String c r.
Proof.
  intros Hs Hc. induction s as [|x s IH]; simpl.
  - now rewrite Hc.
  - simpl in Hs. apply andb_prop in Hs as [Hx Hs]. rewrite Hx. auto.
Qed.

Lemma trimEnd_fixed_inv (c : ascii) (r : string) :
  trimEnd (String c r) = String c r ->
  allChars isSpaceChar (String c r) = false /\ trimEnd r = r.
Proof.
  unfold trimEnd; fold trimEnd.
  destruct (allChars isSpaceChar (String c r)); [discriminate|].
  intros H; injection H as H. auto.
Qed.

Lemma trimEnd_ends_nonspace (a : string) (c : ascii) :
  isSpaceChar c = false -> trimEnd (a ++ String c EmptyString) = a ++ String c EmptyString.
Proof.
  intros Hc. induction a as [|x a IH].
  - simpl. rewrite Hc. reflexivity.
  - change (String x a ++ String c EmptyString) with (String x (a ++ String c EmptyString)).
    unfold trimEnd; fold trimEnd.
    replace (allChars isSpaceChar (String x (a ++ String c EmptyString))) with false.
    + now rewrite IH.
    + symmetry. clear IH. revert x. induction a as [|y a IHa]; intros x; simpl.
      * rewrite Hc. apply andb_false_r.
      * specialize (IHa y). simpl in IHa. rewrite IHa. apply andb_false_r.
Qed.

(** The lazy group stops right before the closing line when the body does
    not end in white space. *)
Lemma lazyBody_trimmed (body : string) :
  trimEnd body = body ->
  lazyBody (body ++ newline ++ fence) = Some body.
Proof.
  induction body as [|c r IH]; intros Hfix.
  - reflexivity.
  - destruct (trimEnd_fixed_inv c r Hfix) as [Hall Hr].
    change (String c r ++ newline ++ fence) with (String c (r ++ newline ++ fence)).
    unfold lazyBody; fold lazyBody.
    destruct (allChars_false_dropWhile isSpaceChar (String c r) (newline ++ fence) Hall)
      as (c' & r' & Hdrop).
    change (String c r ++ newline ++ fence) with (String c (r ++ newline ++ fence)) in Hdrop.
    rewrite Hdrop.
    replace (String.eqb (String c' (r' ++ newline ++ fence)) fence) with false.
    + rewrite (IH Hr). reflexivity.
    + symmetry. apply String.eqb_neq. intros Heq.
      apply (f_equal String.length) in Heq. simpl in Heq.
      rewrite length_append in Heq. simpl in Heq. lia.
Qed.

(** A fenced block with a word as language tag and a body that neither starts
    nor ends in white space is unwrapped to its body. *)
Lemma stripFence_fenced (tag body : string) :
  allChars isWordChar tag = true ->
  nonEmpty body = true ->
  dropWhile isSpaceChar body = body ->
  trimEnd body = body ->
  stripFence (fence ++ tag ++ newline ++ body ++ newline ++ fence) = body.
Proof.
  intros Htag Hne Hstart Hend.
  assert (Htrim : trim (fence ++ tag ++ newline ++ body ++ newline ++ fence)
                  = fence ++ tag ++ newline ++ body ++ newline ++ fence).
  { unfold trim. change (dropWhile isSpaceChar (fence ++ ?x)) with (fence ++ x).
    replace (fence ++ tag ++ newline ++ body ++ newline ++ fence)
      with ((fence ++ tag ++ newline ++ body ++ newline ++ "``") ++ "`").
    - apply trimEnd_ends_nonspace. reflexivity.
    - rewrite !append_assoc. reflexivity. }
  unfold stripFence. rewrite Htrim.
  unfold fenceMatch.
  rewrite prefix_append.
  change (dropN 3 (fence ++ ?x)) with x.
  unfold newline at 1. change (String ?c EmptyString ++ ?x) with (String c x).
  rewrite dropWhile_all by (auto; reflexivity).
  change (dropWhile isSpaceChar (String (ascii_of_nat 10) ?x)) with (dropWhile isSpaceChar x).
  destruct body as [|c r]; [discriminate|].
  assert (Hc : isSpaceChar c = false).
  { simpl in Hstart. destruct (isSpaceChar c) eqn:Hc; [|reflexivity].
    exfalso. apply (f_equal String.length) in Hstart. simpl in Hstart.
    assert (Hle : forall s, (String.length (dropWhile isSpaceChar s) <= String.length s)%nat).
    { induction s as [|y s IHs]; simpl; [lia|]. destruct (isSpaceChar y); simpl; lia. }
    specialize (Hle r). lia. }
  change (String c r ++ ?x) with (String c (r ++ x)).
  unfold dropWhile at 1. rewrite Hc.
  change (String c (r ++ ?x)) with (String c r ++ x).
  rewrite (lazyBody_trimmed (String c r) Hend).
  cbn [nonEmpty]. unfold trim. rewrite Hstart. exact Hend.
Qed.

(** Text that does not open with a fence is only trimmed. *)
Lemma stripFence_plain (t : string) :
  String.prefix fence (trim t) = false -> stripFence t = trim t.
Proof. intros H. unfold stripFence, fenceMatch. now rewrite H. Qed.

Lemma app_trace_assoc (a : list Event) (x y : Event) :
  ((a ++ [x]) ++ [y] = a ++ [x; y])%list.
Proof. now rewrite <- app_assoc. Qed.

(* ================================================================== *)
(** ** generateScenePrompts *)

Section SceneFacts.

Variable E : Env.
Variable options : StoryInputOptions.

(** With a key and a text answer, the outcome of the call is the outcome of
    parsing the unwrapped text, failures passing through the [catch] block. *)
Lemma generateScenePrompts_run (apiKey : string) (w : World) (t : string) :
  nonEmpty apiKey = true ->
  answersText E options w t ->
  generateScenePrompts E apiKey options w =
    (match parseScenes E options (stripFence t) with
     | Ok panels => Ok panels
     | Throw e => Throw (sceneCatch options e)
     end, afterSceneCall E apiKey options w).
Proof.
  intros Hkey (resp & Hcall & Hblock & Htext & Hne).
  unfold generateScenePrompts. rewrite Hkey.
  cbv beta iota zeta delta [negb newClient emit bind tryCatch sceneTry
    callGenerateContent liftResult throw].
  cbn [trace calls randoms].
  unfold sceneRequest in Hcall. rewrite Hcall, Hblock, Htext.
  cbn [optTruthy optText]. rewrite Hne.
  unfold afterSceneCall, sceneRequest. rewrite app_trace_assoc.
  destruct (parseScenes E options (stripFence t)); reflexivity.
Qed.

Lemma getProp_readable (scene : JValue) (k : string) :
  readable scene = true -> exists v, getProp scene k = Some v.
Proof. destruct scene; simpl; intros; try discriminate; eauto. Qed.

(** The dialogue map returns when every entry converts. *)
Lemma mapDialogues_converts (ds : list JValue) :
  forallb dialogueConverts ds = true -> exists lines, mapDialogues E ds = Ok lines.
Proof.
  induction ds as [|d rest IH]; simpl; [eauto|].
  intros H. apply andb_prop in H as [Hd Hrest].
  destruct (IH Hrest) as [lines ->].
  assert (Hline : exists line, normalizeDialogue E d = Ok line).
  { unfold normalizeDialogue, dialogueConverts in *.
    destruct d; eauto;
      destruct (_ && _ && _)%bool; rewrite Hd; eauto. }
  destruct Hline as [line ->]. eauto.
Qed.

Lemma buildPanel_ok_inv (canon panel : JValue) (index : Z) (p : ComicPanelData) :
  buildPanel E options canon panel index = Ok p ->
  readable panel = true /\
  scene_number p = orElse (prop panel "scene_number") (JNum (index + 1)) /\
  imageUrl p = None /\
  sceneDialogues E options panel = Ok (dialogues p) /\
  ((includeCaptions options && captionPlacementIsUI (captionPlacement options))%bool = false ->
   caption p = JNull /\ dialogues p = []).
Proof.
  unfold buildPanel, sceneDialogues, prop.
  destruct (getProp panel "scene_number") as [sn|] eqn:Hsn; [|discriminate].
  match goal with
  | |- match ?m with Ok _ => _ | Throw _ => _ end = _ -> _ =>
      destruct m as [lines|] eqn:Hlines; [|discriminate]
  end.
  intros H; injection H as <-. cbn [scene_number imageUrl caption dialogues].
  split; [|split; [|split; [|split]]]; try reflexivity.
  - destruct panel; simpl in Hsn; try discriminate; reflexivity.
  - intros Hoff. rewrite Hoff in Hlines |- *. injection Hlines as <-. split; reflexivity.
Qed.

Lemma buildPanel_buildable (canon panel : JValue) (index : Z) :
  buildable options panel = true -> exists p, buildPanel E options canon panel index = Ok p.
Proof.
  unfold buildable. intros H. apply andb_prop in H as [Hr Hd].
  unfold buildPanel.
  destruct (getProp_readable panel "scene_number" Hr) as [sn ->].
  destruct (includeCaptions options && captionPlacementIsUI (captionPlacement options))%bool;
    [|eauto].
  cbn [negb orb] in Hd.
  destruct (prop panel "dialogues"); eauto.
  destruct (mapDialogues_converts items Hd) as [lines ->]. eauto.
Qed.

(** [scenes.map] keeps the length and the order, and numbers each record from
    its scene or from its position. *)
Lemma mapPanels_ok_inv (canon : JValue) (scenes : list JValue) :
  forall (k : nat) (panels : list ComicPanelData),
    mapPanels (buildPanel E options canon) scenes (Z.of_nat k) = Ok panels ->
    List.length panels = List.length scenes /\
    map scene_number panels = sceneNumbersFrom k scenes /\
    forallb readable scenes = true /\
    Forall (fun p => imageUrl p = None) panels /\
    ((includeCaptions options && captionPlacementIsUI (captionPlacement options))%bool = false ->
     Forall (fun p => caption p = JNull /\ dialogues p = []) panels).
Proof.
  induction scenes as [|scene rest IH]; intros k panels H; simpl in H.
  - injection H as <-. repeat split; auto.
  - destruct (buildPanel E options canon scene (Z.of_nat k)) as [p|] eqn:Hp; [|discriminate].
    replace (Z.of_nat k + 1) with (Z.of_nat (S k)) in H by lia.
    destruct (mapPanels _ rest (Z.of_nat (S k))) as [ps|] eqn:Hps; [|discriminate].
    injection H as <-.
    destruct (IH _ _ Hps) as (Hlen & Hnum & Hread & Hurl & Hcap).
    destruct (buildPanel_ok_inv _ _ _ _ Hp) as (Hr & Hsn & Hu & _ & Hc).
    simpl. rewrite Hlen, Hnum, Hr, Hread. unfold sceneNumberAt. rewrite Hsn.
    repeat split; auto.
Qed.

Lemma mapPanels_total (canon : JValue) (scenes : list JValue) :
  forall index : Z,
    forallb (buildable options) scenes = true ->
    exists panels, mapPanels (buildPanel E options canon) scenes index = Ok panels.
Proof.
  induction scenes as [|scene rest IH]; intros index H; simpl.
  - eauto.
  - simpl in H. apply andb_prop in H as [Hs Hr].
    destruct (buildPanel_buildable canon scene index Hs) as [p ->].
    destruct (IH (index + 1) Hr) as [ps ->]. eauto.
Qed.

(** A response that passes the checks is handed to [scenes.map]. *)
Lemma parseScenes_valid (jsonStr : string) (parsedData : JValue) (scenes : list JValue) :
  JSON_parse E jsonStr = Parsed parsedData ->
  hasScenes parsedData scenes ->
  parseScenes E options jsonStr =
    mapPanels (buildPanel E options (prop parsedData "characterCanon")) scenes 0.
Proof.
  intros Hparse (Ht & Ho & Hs & Hct & Hco).
  unfold parseScenes. rewrite Hparse, Ht, Ho, Hs, Hct, Hco. reflexivity.
Qed.

(** A successful call got a text answer that parsed to a checked response, and
    its panels are those of [scenes.map]. *)
Lemma generateScenePrompts_ok_inv (apiKey : string) (w w' : World)
    (panels : list ComicPanelData) :
  generateScenePrompts E apiKey options w = (Ok panels, w') ->
  exists t parsedData scenes,
    nonEmpty apiKey = true /\ answersText E options w t /\
    JSON_parse E (stripFence t) = Parsed parsedData /\
    hasScenes parsedData scenes /\
    mapPanels (buildPanel E options (prop parsedData "characterCanon")) scenes 0 = Ok panels.
Proof.
  unfold generateScenePrompts.
  destruct (nonEmpty apiKey) eqn:Hkey; [|discriminate].
  cbv beta iota zeta delta [negb newClient emit bind tryCatch sceneTry
    callGenerateContent liftResult throw].
  cbn [trace calls randoms].
  destruct (generateContent E (calls w) _) as [resp|] eqn:Hcall; [|discriminate].
  destruct (optTruthy (blockReason resp)) eqn:Hblock; [discriminate|].
  destruct (optTruthy (responseText resp)) eqn:Htext; [|discriminate].
  cbn [negb].
  destruct (parseScenes E options _) as [ps|] eqn:Hparse; [|discriminate].
  intros H; injection H as <- _.
  destruct (responseText resp) as [t|] eqn:Ht; [|discriminate].
  cbn [optText optTruthy] in *.
  unfold parseScenes in Hparse.
  destruct (JSON_parse E (stripFence t)) as [parsedData|] eqn:HJ; [|discriminate].
  destruct (truthy parsedData) eqn:H1; [|discriminate].
  destruct (typeofIsObject parsedData) eqn:H2; [|discriminate].
  destruct (prop parsedData "scenes") as [| | | | |scenes|] eqn:H3; try discriminate.
  cbn [negb orb isArray] in Hparse.
  destruct (truthy (prop parsedData "characterCanon")) eqn:H4; [|discriminate].
  destruct (typeofIsObject (prop parsedData "characterCanon")) eqn:H5; [|discriminate].
  cbn [negb orb] in Hparse.
  exists t, parsedData, scenes. repeat split; auto.
  exists resp. repeat split; auto.
Qed.

End SceneFacts.

(** C10.  With the empty string as API key, [generateScenePrompts] and
    [generateImageForPrompt] both throw at once: the world is left as it was,
    so no client was built and no endpoint was called. *)
Theorem empty_api_key_throws_before_any_call
    (E : Env) (options : StoryInputOptions) (initialImagePrompt : string)
    (inputAspectRatio : AspectRatio) (imageModelName style era : string) (w : World) :
  generateScenePrompts E EmptyString options w =
    (Throw (newError "API Key is required to generate scene prompts."), w) /\
  generateImageForPrompt E EmptyString initialImagePrompt inputAspectRatio
      imageModelName style era w =
    (Throw (newError "API Key is required for image generation."), w).
Proof. split; reflexivity. Qed.

(** C2.  When captions are not included, or are to be embedded in the image,
    every panel record [generateScenePrompts] returns has a null caption and
    no dialogue line, whatever the text endpoint sent. *)
Theorem captions_off_or_embedded_give_empty_fields
    (E : Env) (apiKey : string) (options : StoryInputOptions) (w w' : World)
    (panels : list ComicPanelData) :
  includeCaptions options = false \/ captionPlacement options = IN_IMAGE ->
  generateScenePrompts E apiKey options w = (Ok panels, w') ->
  Forall (fun p => caption p = JNull /\ dialogues p = []) panels.
Proof.
  intros Hmode Hrun.
  destruct (generateScenePrompts_ok_inv E options apiKey w w' panels Hrun)
    as (t & parsedData & scenes & _ & _ & _ & _ & Hmap).
  change 0 with (Z.of_nat 0) in Hmap.
  apply mapPanels_ok_inv in Hmap as (_ & _ & _ & _ & Hcap).
  apply Hcap. destruct Hmode as [-> | ->]; [reflexivity | apply andb_false_r].
Qed.

Lemma captions_off_or_embedded_witness :
  fst (generateScenePrompts oneSceneEnv "key" (options3 IMAGEN_3 true IN_IMAGE) world0) =
    Ok [mkPanel (JNum 7) (JStr "A cat") JNull [] None (Some "{}")] /\
  Forall (fun p => caption p = JNull /\ dialogues p = [])
    [mkPanel (JNum 7) (JStr "A cat") JNull [] None (Some "{}")].
Proof.
  split; [reflexivity|].
  apply (captions_off_or_embedded_give_empty_fields oneSceneEnv "key"
           (options3 IMAGEN_3 true IN_IMAGE) world0
           (afterSceneCall oneSceneEnv "key" (options3 IMAGEN_3 true IN_IMAGE) world0)).
  - right; reflexivity.
  - reflexivity.
Defined.

Lemma sceneNumbersFrom_unnumbered (scenes : list JValue) :
  forall k : nat,
    Forall (fun s => truthy (prop s "scene_number") = false) scenes ->
    sceneNumbersFrom k scenes =
      map (fun i => JNum (Z.of_nat i + 1)) (seq k (List.length scenes)).
Proof.
  induction scenes as [|s r IH]; intros k H; simpl.
  - reflexivity.
  - inversion H as [|? ? Hs Hr]; subst.
    rewrite (IH (S k) Hr). unfold sceneNumberAt, orElse. now rewrite Hs.
Qed.

(** C1, as the spec has it, fails: asked for three pages, the text endpoint
    answers with one scene that it numbered 7; the call succeeds and returns
    that one record, numbered 7. *)
Lemma scene_count_is_the_models_not_numPages :
  numPages (options3 IMAGEN_3 true IN_UI) = 3 /\
  fst (generateScenePrompts oneSceneEnv "key" (options3 IMAGEN_3 true IN_UI) world0) =
    Ok [mkPanel (JNum 7) (JStr "A cat") (JStr "Morning") ["Cat: Meow"] None (Some "{}")] /\
  ~ numberedOneTo 3
      [mkPanel (JNum 7) (JStr "A cat") (JStr "Morning") ["Cat: Meow"] None (Some "{}")].
Proof.
  split; [reflexivity|]. split; [reflexivity|].
  unfold numberedOneTo. simpl. discriminate.
Qed.

(** C1, amended.  A successful call returns one panel record per element of
    the scene list of the response, in order, whatever [numPages] is: the
    record at position i carries the scene's own number when that is truthy
    and i (counted from 1) otherwise.  So scenes without numbers come back
    numbered 1..n, n being the length of the scene list.  There are such
    calls: for a response that passes the shape checks the call returns when
    the callback of [scenes.map] throws on no scene, that is, when no scene is
    null and every dialogue entry that is taken over converts to a string. *)
Theorem panels_follow_the_scene_list
    (E : Env) (apiKey : string) (options : StoryInputOptions) (w : World)
    (t : string) (parsedData : JValue) (scenes : list JValue) :
  nonEmpty apiKey = true ->
  answersText E options w t ->
  JSON_parse E (stripFence t) = Parsed parsedData ->
  hasScenes parsedData scenes ->
  (forallb (buildable options) scenes = true ->
   exists panels, fst (generateScenePrompts E apiKey options w) = Ok panels) /\
  (forall panels,
     fst (generateScenePrompts E apiKey options w) = Ok panels ->
     List.length panels = List.length scenes /\
     map scene_number panels = sceneNumbersFrom 0 scenes /\
     (Forall (fun s => truthy (prop s "scene_number") = false) scenes ->
      numberedOneTo (Z.of_nat (List.length scenes)) panels)).
Proof.
  intros Hkey Hans Hparse Hshape.
  rewrite (generateScenePrompts_run E options apiKey w t Hkey Hans).
  rewrite (parseScenes_valid E options _ _ _ Hparse Hshape).
  cbn [fst]. split.
  - intros Hread.
    destruct (mapPanels_total E options (prop parsedData "characterCanon") scenes 0 Hread)
      as [panels ->].
    eauto.
  - intros panels Hok.
    destruct (mapPanels _ scenes 0) as [ps|] eqn:Hmap; [|discriminate].
    injection Hok as ->.
    change 0 with (Z.of_nat 0) in Hmap.
    apply mapPanels_ok_inv in Hmap as (Hlen & Hnum & _).
    split; [exact Hlen|]. split; [exact Hnum|].
    intros Hno. unfold numberedOneTo.
    rewrite Hnum, Nat2Z.id. now apply sceneNumbersFrom_unnumbered.
Qed.

Lemma panels_follow_the_scene_list_witness :
  numberedOneTo 2
    [mkPanel (JNum 1) (JStr "A cat") (JStr EmptyString) [] None (Some "{}");
     mkPanel (JNum 2) (JStr "A hat") (JStr EmptyString) [] None (Some "{}")].
Proof.
  assert (Hrun : fst (generateScenePrompts plainScenesEnv "key"
                        (options3 IMAGEN_3 true IN_UI) world0)
                 = Ok [mkPanel (JNum 1) (JStr "A cat") (JStr EmptyString) [] None (Some "{}");
                       mkPanel (JNum 2) (JStr "A hat") (JStr EmptyString) [] None (Some "{}")])
    by reflexivity.
  refine (proj2 (proj2 (proj2
    (panels_follow_the_scene_list plainScenesEnv "key" (options3 IMAGEN_3 true IN_UI)
       world0 plainScenesText plainScenesValue
       [JObj [("image_prompt", JStr "A cat")]; JObj [("image_prompt", JStr "A hat")]]
       eq_refl _ eq_refl _) _ Hrun)) _).
  - exists (mkContentResp None (Some plainScenesText) None). repeat split.
  - repeat split.
  - repeat constructor.
Defined.

(** C5.  The text of the answer is trimmed of white space (TAB, LF, VT, FF,
    CR, SP and the no-break space) and, when it is a fenced block, is
    unwrapped to the body of the block before it is parsed.  A parsed value
    that is no object, or whose [scenes] is no array, makes the call throw the
    error that names the missing scene list; one whose [characterCanon] is
    missing, falsy or not of type object makes it throw the error that names
    the canon; any other value goes on to [scenes.map]. *)
Theorem fenced_answer_is_unwrapped_and_checked
    (E : Env) (apiKey : string) (options : StoryInputOptions) (w : World)
    (t : string) (parsedData : JValue) :
  nonEmpty apiKey = true ->
  answersText E options w t ->
  JSON_parse E (stripFence t) = Parsed parsedData ->
  (forall tag body,
     allChars isWordChar tag = true -> nonEmpty body = true ->
     dropWhile isSpaceChar body = body -> trimEnd body = body ->
     t = fence ++ tag ++ newline ++ body ++ newline ++ fence ->
     stripFence t = body) /\
  (String.prefix fence (trim t) = false -> stripFence t = trim t) /\
  ((truthy parsedData && typeofIsObject parsedData
    && isArray (prop parsedData "scenes"))%bool = false ->
   exists e, fst (generateScenePrompts E apiKey options w) = Throw e /\
             includes (message e)
               "did not contain the expected JSON structure. Missing 'scenes' array or 'characterCanon'."
             = true) /\
  ((truthy parsedData && typeofIsObject parsedData
    && isArray (prop parsedData "scenes"))%bool = true ->
   (truthy (prop parsedData "characterCanon")
    && typeofIsObject (prop parsedData "characterCanon"))%bool = false ->
   exists e, fst (generateScenePrompts E apiKey options w) = Throw e /\
             includes (message e) "did not contain the expected 'characterCanon' object."
             = true) /\
  (forall scenes,
     hasScenes parsedData scenes ->
     fst (generateScenePrompts E apiKey options w) =
       match mapPanels (buildPanel E options (prop parsedData "characterCanon")) scenes 0 with
       | Ok panels => Ok panels
       | Throw e => Throw (sceneCatch options e)
       end).
Proof.
  intros Hkey Hans Hparse.
  rewrite (generateScenePrompts_run E options apiKey w t Hkey Hans). cbn [fst].
  split; [|split; [|split; [|split]]].
  - intros tag body Htag Hne Hs He ->. now apply stripFence_fenced.
  - apply stripFence_plain.
  - intros Hbad. unfold parseScenes. rewrite Hparse.
    replace (negb (truthy parsedData) || negb (typeofIsObject parsedData)
             || negb (isArray (prop parsedData "scenes")))%bool with true.
    + eexists; split; [reflexivity|]. unfold sceneCatch.
      destruct (textModel options); vm_compute; reflexivity.
    + destruct (truthy parsedData), (typeofIsObject parsedData),
        (isArray (prop parsedData "scenes")); simpl in *; congruence.
  - intros Hgood Hbad. unfold parseScenes. rewrite Hparse.
    replace (negb (truthy parsedData) || negb (typeofIsObject parsedData)
             || negb (isArray (prop parsedData "scenes")))%bool with false.
    + replace (negb (truthy (prop parsedData "characterCanon"))
               || negb (typeofIsObject (prop parsedData "characterCanon")))%bool with true.
      * eexists; split; [reflexivity|]. unfold sceneCatch.
        destruct (textModel options); vm_compute; reflexivity.
      * destruct (truthy (prop parsedData "characterCanon")),
          (typeofIsObject (prop parsedData "characterCanon")); simpl in *; congruence.
    + destruct (truthy parsedData), (typeofIsObject parsedData),
        (isArray (prop parsedData "scenes")); simpl in *; congruence.
  - intros scenes Hshape.
    now rewrite (parseScenes_valid E options _ _ _ Hparse Hshape).
Qed.

Lemma fenced_answer_is_unwrapped_and_checked_witness :
  stripFence (fenced oneSceneText) = oneSceneText /\
  fst (generateScenePrompts oneSceneEnv "key" (options3 IMAGEN_3 true IN_UI) world0) =
    Ok [mkPanel (JNum 7) (JStr "A cat") (JStr "Morning") ["Cat: Meow"] None (Some "{}")].
Proof.
  assert (Hans : answersText oneSceneEnv (options3 IMAGEN_3 true IN_UI) world0
                   (fenced oneSceneText)).
  { exists (mkContentResp None (Some (fenced oneSceneText)) None). repeat split. }
  destruct (fenced_answer_is_unwrapped_and_checked oneSceneEnv "key"
              (options3 IMAGEN_3 true IN_UI) world0 (fenced oneSceneText) oneSceneValue
              eq_refl Hans eq_refl) as (Hfence & _ & _ & _ & Hbuild).
  split.
  - apply (Hfence "json" oneSceneText); reflexivity.
  - rewrite (Hbuild [JObj [("scene_number", JNum 7); ("image_prompt", JStr "A cat");
                           ("caption", JStr "Morning");
                           ("dialogues", JArr [JStr "Cat: Meow"])]]).
    + reflexivity.
    + repeat split.
Defined.

(* ================================================================== *)
(** ** generateImageForPrompt *)

Section ImageFacts.

Variable E : Env.
Variables imageModelName augmentedPrompt : string.
Variable inputAspectRatio : AspectRatio.

Let ev := requestEvent imageModelName augmentedPrompt inputAspectRatio.
Let outcome := outcomeAt E imageModelName augmentedPrompt inputAspectRatio.
Let loop := attemptLoop E imageModelName augmentedPrompt inputAspectRatio.

Lemma attempt_run (w : World) :
  attempt E imageModelName augmentedPrompt inputAspectRatio w =
    (outcome (calls w), requested ev w).
Proof.
  unfold attempt, outcome, outcomeAt, ev, requestEvent, requested.
  destruct (String.eqb imageModelName (imageModelValue GEMINI_2_FLASH_IMG));
    cbv beta iota zeta delta [bind callGenerateContent callGenerateImages liftResult].
  - destruct (generateContent E (calls w) _); reflexivity.
  - destruct (generateImages E (calls w) _); reflexivity.
Qed.

Lemma transient_inv (msg : string) :
  isTransient msg = true ->
  isApiKeyError msg = false /\
  (isRateLimitError msg || isInternalServerError msg)%bool = true.
Proof.
  unfold isTransient. intros H. apply andb_prop in H as [H1 H2].
  split; [now apply negb_true_iff | exact H2].
Qed.

(** A pass that gets an image returns it. *)
Lemma pass_returns (remaining : nat) (retries : Z) (w : World) (url : string) :
  outcome (calls w) = Ok url ->
  loop (S remaining) retries w = (Ok url, requested ev w).
Proof.
  intros Hout. unfold loop. cbn [attemptLoop].
  cbv beta iota zeta delta [bind tryCatch ret]. rewrite attempt_run.
  fold outcome. rewrite Hout. reflexivity.
Qed.

(** A pass that fails with a transient error while the budget lasts sleeps and
    goes round again. *)
Lemma pass_retries (remaining : nat) (retries : Z) (w : World) (e : Thrown) :
  outcome (calls w) = Throw e ->
  isTransient (message e) = true ->
  retries < maxRetries ->
  loop (S remaining) retries w =
    loop remaining (retries + 1)
      (retried ev (delayTime (retries + 1) (mathRandom E (randoms w))) w).
Proof.
  intros Hout Htr Hlt. destruct (transient_inv _ Htr) as [Hkey Hretry].
  unfold loop. cbn [attemptLoop].
  cbv beta iota zeta delta [bind tryCatch ret]. rewrite attempt_run.
  fold outcome. rewrite Hout.
  unfold catchAttempt. rewrite Hkey, Hretry.
  apply Z.ltb_lt in Hlt. rewrite Hlt.
  cbv beta iota zeta delta [andb bind random delay emit ret requested retried].
  cbn [trace calls randoms]. rewrite app_trace_assoc. reflexivity.
Qed.

(** A pass that fails with a transient error when the budget is spent ends the
    call. *)
Lemma pass_gives_up (remaining : nat) (retries : Z) (w : World) (e : Thrown) :
  outcome (calls w) = Throw e ->
  isTransient (message e) = true ->
  maxRetries <= retries ->
  loop (S remaining) retries w =
    (Throw (lastError imageModelName retries e), requested ev w).
Proof.
  intros Hout Htr Hge. destruct (transient_inv _ Htr) as [Hkey Hretry].
  unfold loop. cbn [attemptLoop].
  cbv beta iota zeta delta [bind tryCatch ret]. rewrite attempt_run.
  fold outcome. rewrite Hout.
  unfold catchAttempt, lastError. rewrite Hkey, Hretry.
  apply Z.ltb_ge in Hge. rewrite Hge. cbn [andb].
  destruct (isSafetyError (message e)); reflexivity.
Qed.

(** A pass that fails with an error that is neither a rate-limit nor an
    internal-server error ends the call: a safety error is thrown on as it
    is, unless its message also reads as an API key error. *)
Lemma pass_throws_safety (remaining : nat) (retries : Z) (w : World) (e : Thrown) :
  outcome (calls w) = Throw e ->
  (isRateLimitError (message e) || isInternalServerError (message e))%bool = false ->
  isSafetyError (message e) = true ->
  exists e',
    loop (S remaining) retries w = (Throw e', requested ev w) /\
    includes (message e') (message e) = true /\
    (isApiKeyError (message e) = false -> e' = e).
Proof.
  intros Hout Hno Hsafe.
  unfold loop. cbn [attemptLoop].
  cbv beta iota zeta delta [bind tryCatch ret]. rewrite attempt_run.
  fold outcome. rewrite Hout.
  unfold catchAttempt. rewrite Hno, Hsafe. cbn [andb].
  destruct (isApiKeyError (message e)).
  - eexists; split; [reflexivity|]. split; [|discriminate].
    cbn [message newError]. rewrite <- !append_assoc. rewrite append_assoc.
    apply includes_append.
  - exists e. split; [reflexivity|]. split; [apply includes_refl | reflexivity].
Qed.

End ImageFacts.

Section ImageRun.

Variable E : Env.
Variables apiKey initialImagePrompt : string.
Variable inputAspectRatio : AspectRatio.
Variables imageModelName style era : string.
Variable w : World.

Let run := generateImageForPrompt E apiKey initialImagePrompt inputAspectRatio
             imageModelName style era w.

Lemma generateImageForPrompt_run (p : string) :
  nonEmpty apiKey = true ->
  buildAugmentedPrompt E initialImagePrompt style era = Ok p ->
  run = attemptLoop E imageModelName p inputAspectRatio 3 0
          (mkWorld (trace w ++ [EvNewClient apiKey]) (calls w) (randoms w)).
Proof.
  intros Hkey Hp. unfold run, generateImageForPrompt. rewrite Hkey.
  cbv beta iota zeta delta [negb bind newClient emit liftResult]. rewrite Hp.
  reflexivity.
Qed.

(** Every pass makes the request of the model's shape, and nothing else
    reaches an endpoint. *)
Lemma attemptLoop_events (p : string) (remaining : nat) :
  forall (retries : Z) (w0 : World),
  exists evs,
    trace (snd (attemptLoop E imageModelName p inputAspectRatio remaining retries w0))
      = (trace w0 ++ evs)%list /\
    Forall (fun e => e = requestEvent imageModelName p inputAspectRatio
                     \/ isRequest e = false) evs.
Proof.
  induction remaining as [|remaining IH]; intros retries w0.
  - exists []. cbn. now rewrite app_nil_r.
  - cbn [attemptLoop]. cbv beta iota zeta delta [bind tryCatch ret].
    rewrite attempt_run.
    destruct (outcomeAt E imageModelName p inputAspectRatio (calls w0)) as [url|e].
    + exists [requestEvent imageModelName p inputAspectRatio]. cbn. auto.
    + unfold catchAttempt.
      destruct (isApiKeyError (message e)).
      { exists [requestEvent imageModelName p inputAspectRatio]. cbn. auto. }
      destruct ((isRateLimitError (message e) || isInternalServerError (message e))
                && (retries <? maxRetries))%bool.
      * cbv beta iota zeta delta [bind random delay emit ret requested].
        cbn [trace calls randoms].
        match goal with
        | |- context [attemptLoop _ _ _ _ remaining ?r ?w1] =>
            destruct (IH r w1) as (evs & Htr & Hall)
        end.
        exists (requestEvent imageModelName p inputAspectRatio
                :: EvDelay (delayTime (retries + 1) (mathRandom E (randoms w0))) :: evs).
        split.
        -- rewrite Htr. cbn [trace]. rewrite <- !app_assoc. reflexivity.
        -- constructor; [now left|]. constructor; [now right | exact Hall].
      * destruct (isSafetyError (message e));
          exists [requestEvent imageModelName p inputAspectRatio]; cbn; auto.
Qed.

End ImageRun.

Lemma requestEvent_wellFormed (m p : string) (ar : AspectRatio) :
  wellFormedRequest m ar (requestEvent m p ar).
Proof.
  unfold requestEvent.
  destruct (String.eqb m (imageModelValue GEMINI_2_FLASH_IMG)) eqn:Hm; cbn.
  - apply String.eqb_eq in Hm. auto.
  - apply String.eqb_neq in Hm. repeat split; auto.
    destruct ar; cbn; auto.
Qed.

Lemma isRequest_requestEvent (m p : string) (ar : AspectRatio) :
  isRequest (requestEvent m p ar) = true.
Proof. unfold requestEvent. destruct (String.eqb _ _); reflexivity. Qed.

(** C9, as the spec has it, fails for the request shape of the model that
    returns inline image bytes: the configuration of that request has the seed
    and the response modalities, and no aspect ratio, whatever the setting. *)
Lemma flash_request_has_no_aspect_ratio :
  In (EvGenerateContent
        (flashRequest (imageModelValue GEMINI_2_FLASH_IMG) " Scene: A cat."))
     (trace (snd (generateImageForPrompt busyTwiceEnv "key" "A cat" PORTRAIT
                    (imageModelValue GEMINI_2_FLASH_IMG) "Anime/Manga" "Futuristic/Sci-Fi"
                    world0))) /\
  requestAspectRatio
    (EvGenerateContent
       (flashRequest (imageModelValue GEMINI_2_FLASH_IMG) " Scene: A cat.")) = None /\
  ~ carriesSeedAndRatio PORTRAIT
      (EvGenerateContent
         (flashRequest (imageModelValue GEMINI_2_FLASH_IMG) " Scene: A cat.")).
Proof.
  split; [vm_compute; auto|]. split; [reflexivity|].
  intros [_ H]. discriminate H.
Qed.

(** C9, amended.  Every endpoint request [generateImageForPrompt] makes, of
    either shape, carries the fixed seed 42.  A request of the shape that
    returns a list of generated images also carries the aspect ratio of the
    setting, one of 1:1, 9:16 and 16:9; a request of the shape that returns
    inline bytes carries the two response modalities and the seed only. *)
Theorem image_requests_carry_the_seed
    (E : Env) (apiKey initialImagePrompt : string) (inputAspectRatio : AspectRatio)
    (imageModelName style era : string) (w : World) :
  exists evs,
    trace (snd (generateImageForPrompt E apiKey initialImagePrompt inputAspectRatio
                  imageModelName style era w)) = (trace w ++ evs)%list /\
    Forall (fun ev => isRequest ev = true ->
                      requestSeed ev = Some 42 /\
                      wellFormedRequest imageModelName inputAspectRatio ev) evs.
Proof.
  unfold generateImageForPrompt.
  destruct (nonEmpty apiKey).
  2:{ exists []. cbn. now rewrite app_nil_r. }
  cbv beta iota zeta delta [negb bind newClient emit liftResult].
  destruct (buildAugmentedPrompt E initialImagePrompt style era) as [p|e].
  2:{ exists [EvNewClient apiKey]. cbn. split; [reflexivity|].
      constructor; [discriminate | constructor]. }
  destruct (attemptLoop_events E inputAspectRatio imageModelName p
              (Z.to_nat (maxRetries + 1)) 0
              (mkWorld (trace w ++ [EvNewClient apiKey]) (calls w) (randoms w)))
    as (evs & Htr & Hall).
  exists (EvNewClient apiKey :: evs). split.
  - rewrite Htr. cbn [trace]. now rewrite <- app_assoc.
  - constructor; [discriminate|].
    eapply Forall_impl; [|exact Hall].
    intros ev [-> | Hno] Hreq.
    + split; [|apply requestEvent_wellFormed].
      unfold requestEvent. destruct (String.eqb _ _); reflexivity.
    + congruence.
Qed.

Lemma delaysOf_app_request (evs : list Event) (e : Event) :
  isRequest e = true -> delaysOf (evs ++ [e]) = delaysOf evs.
Proof.
  intros He. induction evs as [|x evs IH]; cbn.
  - destruct e; try discriminate; reflexivity.
  - destruct x; cbn; now rewrite ?IH.
Qed.

Lemma delayTime_jitter (k : nat) (rnd : Q) :
  (k <= 1)%nat ->
  (0 <= rnd -> rnd < 1 ->
   exists jitter,
     delayTime (Z.of_nat k + 1) rnd == inject_Z (2000 * 2 ^ Z.of_nat k) + jitter /\
     0 <= jitter /\ jitter < 1000)%Q.
Proof.
  intros Hk H0 H1. exists (rnd * 1000)%Q. split; [|split; lra].
  unfold delayTime, baseDelayMs.
  destruct k as [|[|k]]; [| |lia].
  - change (Qpower (2 # 1) (Z.of_nat 0 + 1 - 1)) with 1%Q.
    change (inject_Z (2000 * 2 ^ Z.of_nat 0)) with 2000%Q.
    change (inject_Z 2000) with 2000%Q. lra.
  - change (Qpower (2 # 1) (Z.of_nat 1 + 1 - 1)) with 2%Q.
    change (inject_Z (2000 * 2 ^ Z.of_nat 1)) with 4000%Q.
    change (inject_Z 2000) with 2000%Q. lra.
Qed.

Section RetryBudget.

Variable E : Env.
Variables apiKey initialImagePrompt : string.
Variable inputAspectRatio : AspectRatio.
Variables imageModelName style era : string.
Variable w : World.
Variable p : string.

Hypothesis key_given : nonEmpty apiKey = true.
Hypothesis prompt_built : buildAugmentedPrompt E initialImagePrompt style era = Ok p.

Let run := generateImageForPrompt E apiKey initialImagePrompt inputAspectRatio
             imageModelName style era w.
Let outcome := outcomeAt E imageModelName p inputAspectRatio.
Let ev := requestEvent imageModelName p inputAspectRatio.
Let w1 := mkWorld (trace w ++ [EvNewClient apiKey]) (calls w) (randoms w).

(** After [length errs] transient failures within the budget, the loop stands
    at the next pass, having made that many requests and slept that often. *)
Lemma loop_after_failures (errs : list Thrown) :
  (List.length errs <= 2)%nat ->
  failsWith E inputAspectRatio imageModelName w p errs ->
  exists evs w',
    run = attemptLoop E imageModelName p inputAspectRatio
            (3 - List.length errs) (Z.of_nat (List.length errs)) w' /\
    trace w' = (trace w ++ evs)%list /\
    calls w' = (List.length errs + calls w)%nat /\
    List.length (requestsOf evs) = List.length errs /\
    delaysOf evs = retryDelays E (randoms w) (List.length errs).
Proof.
  intros Hlen Hfail. unfold run.
  rewrite (generateImageForPrompt_run E apiKey initialImagePrompt inputAspectRatio
             imageModelName style era w p key_given prompt_built).
  fold w1.
  pose proof (isRequest_requestEvent imageModelName p inputAspectRatio) as Hreq.
  fold ev in Hreq.
  destruct errs as [|e0 [|e1 [|e2 errs]]]; [| | |cbn in Hlen; lia].
  - exists [EvNewClient apiKey], w1. repeat split; reflexivity.
  - destruct (Hfail 0%nat e0 eq_refl) as [H0 T0].
    rewrite (pass_retries E imageModelName p inputAspectRatio 2 0 w1 e0 H0 T0)
      by (unfold maxRetries; lia).
    fold ev. eexists _, _. split; [reflexivity|].
    unfold retried, w1. cbn [trace calls randoms].
    split; [rewrite <- app_assoc; reflexivity|]. split; [reflexivity|].
    cbn [requestsOf filter isRequest List.app delaysOf]. rewrite Hreq.
    split; [reflexivity|].
    destruct ev; try discriminate; reflexivity.
  - destruct (Hfail 0%nat e0 eq_refl) as [H0 T0].
    destruct (Hfail 1%nat e1 eq_refl) as [H1 T1].
    rewrite (pass_retries E imageModelName p inputAspectRatio 2 0 w1 e0 H0 T0)
      by (unfold maxRetries; lia).
    rewrite (pass_retries E imageModelName p inputAspectRatio 1 (0 + 1)
               (retried (requestEvent imageModelName p inputAspectRatio)
                  (delayTime (0 + 1) (mathRandom E (randoms w1))) w1) e1 H1 T1)
      by (unfold maxRetries; lia).
    fold ev. eexists _, _. split; [reflexivity|].
    unfold retried, w1. cbn [trace calls randoms].
    split; [rewrite <- !app_assoc; reflexivity|]. split; [reflexivity|].
    cbn [requestsOf filter isRequest List.app delaysOf]. rewrite Hreq.
    split; [reflexivity|].
    destruct ev; try discriminate; reflexivity.
Qed.

End RetryBudget.

(** C3.  Once the prompt is built, transient failures are retried twice at
    most.  When three passes in a row fail with transient errors the call ends
    with a fatal error after exactly three requests and two delays; when at
    most two transient failures are followed by an image, the call returns
    that image after one request more than there were failures.  The delay
    before retry k is 2000 * 2^(k-1) milliseconds plus a jitter below 1000. *)
Theorem transient_failures_are_retried_twice
    (E : Env) (apiKey initialImagePrompt : string) (inputAspectRatio : AspectRatio)
    (imageModelName style era : string) (w : World) (p : string) (errs : list Thrown) :
  nonEmpty apiKey = true ->
  buildAugmentedPrompt E initialImagePrompt style era = Ok p ->
  (forall i, 0 <= mathRandom E i /\ mathRandom E i < 1)%Q ->
  failsWith E inputAspectRatio imageModelName w p errs ->
  let run := generateImageForPrompt E apiKey initialImagePrompt inputAspectRatio
               imageModelName style era w in
  (forall e0 e1 e2, errs = [e0; e1; e2] ->
     exists evs,
       fst run = Throw (lastError imageModelName maxRetries e2) /\
       trace (snd run) = (trace w ++ evs)%list /\
       List.length (requestsOf evs) = 3%nat /\
       delaysOf evs = retryDelays E (randoms w) 2) /\
  (forall url,
     (List.length errs <= 2)%nat ->
     outcomeAt E imageModelName p inputAspectRatio (List.length errs + calls w) = Ok url ->
     exists evs,
       fst run = Ok url /\
       trace (snd run) = (trace w ++ evs)%list /\
       List.length (requestsOf evs) = S (List.length errs) /\
       delaysOf evs = retryDelays E (randoms w) (List.length errs)) /\
  (forall k d,
     nth_error (retryDelays E (randoms w) 2) k = Some d ->
     exists jitter,
       d == inject_Z (2000 * 2 ^ Z.of_nat k) + jitter /\ 0 <= jitter /\ jitter < 1000)%Q.
Proof.
  intros Hkey Hp Hrnd Hfail run.
  pose proof (isRequest_requestEvent imageModelName p inputAspectRatio) as Hreq.
  split; [|split].
  - intros e0 e1 e2 ->.
    assert (Hfail2 : failsWith E inputAspectRatio imageModelName w p [e0; e1]).
    { intros i e Hi. apply Hfail. destruct i as [|[|i]]; cbn in *; try exact Hi.
      destruct i; discriminate. }
    destruct (loop_after_failures E apiKey initialImagePrompt inputAspectRatio
                imageModelName style era w p Hkey Hp [e0; e1] (le_n _) Hfail2)
      as (evs & w' & Hrun & Htr & Hcalls & Hreqs & Hdel).
    destruct (Hfail 2%nat e2 eq_refl) as [H2 T2].
    cbn [List.length Nat.sub Z.of_nat Pos.of_succ_nat Pos.succ] in Hrun.
    cbn [List.length Nat.add] in Hcalls, H2.
    rewrite <- Hcalls in H2.
    unfold run. rewrite Hrun.
    rewrite (pass_gives_up E imageModelName p inputAspectRatio 0 2 w' e2 H2 T2)
      by (unfold maxRetries; lia).
    exists (evs ++ [requestEvent imageModelName p inputAspectRatio])%list.
    cbn [fst snd requested trace]. rewrite Htr, <- app_assoc.
    split; [reflexivity|]. split; [reflexivity|].
    split.
    + unfold requestsOf in *. rewrite filter_app, length_app, Hreqs.
      cbn [filter]. rewrite Hreq. reflexivity.
    + cbn [List.length] in Hdel. rewrite <- Hdel.
      now apply delaysOf_app_request.
  - intros url Hlen Hok.
    destruct (loop_after_failures E apiKey initialImagePrompt inputAspectRatio
                imageModelName style era w p Hkey Hp errs Hlen Hfail)
      as (evs & w' & Hrun & Htr & Hcalls & Hreqs & Hdel).
    rewrite <- Hcalls in Hok.
    unfold run. rewrite Hrun.
    replace (3 - List.length errs)%nat with (S (2 - List.length errs)) by lia.
    rewrite (pass_returns E imageModelName p inputAspectRatio _ _ w' url Hok).
    exists (evs ++ [requestEvent imageModelName p inputAspectRatio])%list.
    cbn [fst snd requested trace]. rewrite Htr, <- app_assoc.
    split; [reflexivity|]. split; [reflexivity|].
    split.
    + unfold requestsOf in *. rewrite filter_app, length_app, Hreqs.
      cbn [filter]. rewrite Hreq. cbn. lia.
    + cbn [List.length] in Hdel. rewrite <- Hdel.
      now apply delaysOf_app_request.
  - intros k d Hk.
    destruct k as [|[|k]]; cbn in Hk; try (destruct k; discriminate);
      injection Hk as <-.
    + apply (delayTime_jitter 0); [lia | apply Hrnd | apply Hrnd].
    + apply (delayTime_jitter 1); [lia | apply Hrnd | apply Hrnd].
Qed.

Lemma transient_failures_are_retried_twice_witness :
  exists evs,
    fst (generateImageForPrompt alwaysBusyEnv "key" "A cat" SQUARE
           (imageModelValue GEMINI_2_FLASH_IMG) "Anime/Manga" "Futuristic/Sci-Fi" world0)
      = Throw (lastError (imageModelValue GEMINI_2_FLASH_IMG) maxRetries
                 (mkThrown KError "got status: 500 INTERNAL")) /\
    trace (snd (generateImageForPrompt alwaysBusyEnv "key" "A cat" SQUARE
                  (imageModelValue GEMINI_2_FLASH_IMG) "Anime/Manga" "Futuristic/Sci-Fi"
                  world0))
      = (trace world0 ++ evs)%list /\
    List.length (requestsOf evs) = 3%nat /\
    delaysOf evs = retryDelays alwaysBusyEnv (randoms world0) 2.
Proof.
  refine (proj1 (transient_failures_are_retried_twice alwaysBusyEnv "key" "A cat" SQUARE
                   (imageModelValue GEMINI_2_FLASH_IMG) "Anime/Manga" "Futuristic/Sci-Fi"
                   world0 " Scene: A cat."
                   [mkThrown KError "got status: 500 INTERNAL";
                    mkThrown KError "got status: 500 INTERNAL";
                    mkThrown KError "got status: 500 INTERNAL"]
                   eq_refl eq_refl _ _) _ _ _ eq_refl).
  - intros i. split; cbn; [discriminate | reflexivity].
  - intros i e Hi.
    destruct i as [|[|[|i]]]; cbn in Hi; try (destruct i; discriminate);
      injection Hi as <-; split; reflexivity.
Defined.

(** The safety message names the filter, so the [catch] block reads it as a
    safety error. *)
Lemma safetyMessage_is_safety (c : Candidate) : isSafetyError (safetyMessage c) = true.
Proof.
  unfold isSafetyError, safetyMessage, toLowerCase.
  match goal with
  | |- (includes (mapChars _ (?a ++ ?b)) ?pat || _)%bool = true =>
      replace (includes (mapChars lowerChar (a ++ b)) pat) with true; [reflexivity|]
  end.
  symmetry. vm_compute. reflexivity.
Qed.

(** The message of a block with a blocked rating names its category and its
    probability. *)
Lemma safetyMessage_names_category (c : Candidate) (ratings : list SafetyRating)
    (r : SafetyRating) :
  safetyRatings c = Some ratings ->
  find blockedIsTrue ratings = Some r ->
  includes (safetyMessage c)
    (" Details: Category " ++ category r ++ ", Probability " ++ probability r ++ ".") = true.
Proof.
  intros Hr Hf. unfold safetyMessage. rewrite Hr, Hf.
  set (m := " Details: Category " ++ category r ++ ", Probability " ++ probability r ++ ".").
  match goal with
  | |- includes (?pre ++ ?fr ++ ?close ++ m ++ ?post) m = true =>
      replace (pre ++ fr ++ close ++ m ++ post) with ((pre ++ fr ++ close) ++ m ++ post)
        by (now rewrite !append_assoc)
  end.
  apply includes_append.
Qed.

(** C4 fails on the code.  The [catch] block tests for a rate-limit or server
    error before it tests for a safety error, so a safety error whose message
    also reads as one of those is retried while the budget lasts, against the
    comment of line 444.  Here every request is refused for the safety policy
    with a support code that holds the digits 429: the call makes three
    requests and sleeps twice, more than six seconds in all, before the
    refusal comes out.  The same happens to the safety message the code itself
    builds, when the category of the blocked rating holds the word INTERNAL. *)
Theorem safety_error_that_reads_as_busy_is_retried :
  let run := generateImageForPrompt refusingEnv "key" "A cat" SQUARE
               (imageModelValue IMAGEN_3) "Anime/Manga" "Futuristic/Sci-Fi" world0 in
  let run' := generateImageForPrompt internalPolicyEnv "key" "A cat" SQUARE
                (imageModelValue GEMINI_2_FLASH_IMG) "Anime/Manga" "Futuristic/Sci-Fi"
                world0 in
  (isSafetyError refusedMessage = true /\
   isApiKeyError refusedMessage = false /\
   fst run = Throw (mkThrown KError refusedMessage) /\
   List.length (requestsOf (trace (snd run))) = 3%nat /\
   List.length (delaysOf (trace (snd run))) = 2%nat /\
   Qle_bool 6000 (sumQ (delaysOf (trace (snd run)))) = true) /\
  (isSafetyFinish internalPolicyCandidate = true /\
   fst run' = Throw (newError (safetyMessage internalPolicyCandidate)) /\
   List.length (requestsOf (trace (snd run'))) = 3%nat /\
   List.length (delaysOf (trace (snd run'))) = 2%nat).
Proof. repeat split; vm_compute; reflexivity. Qed.

(** X27.  A safety error whose message reads neither as an API key error nor
    as a rate-limit or server error ends the call at the pass in which it
    occurs, for either model and after any number of retried failures: the
    error is thrown on as it is, the request of that pass is the last thing
    the call did, and no delay follows it.  When it is the safety block of the
    inline-bytes model (finish reason SAFETY or IMAGE_SAFETY of the first
    candidate), the error is the one with the safety message, which names the
    category and the probability of the blocked rating if there is one. *)
Theorem safety_error_that_reads_as_nothing_else_is_final
    (E : Env) (apiKey initialImagePrompt : string) (inputAspectRatio : AspectRatio)
    (imageModelName style era : string) (w : World) (p : string) (errs : list Thrown)
    (e : Thrown) :
  nonEmpty apiKey = true ->
  buildAugmentedPrompt E initialImagePrompt style era = Ok p ->
  (List.length errs <= 2)%nat ->
  failsWith E inputAspectRatio imageModelName w p errs ->
  outcomeAt E imageModelName p inputAspectRatio (List.length errs + calls w) = Throw e ->
  isSafetyError (message e) = true ->
  isApiKeyError (message e) = false ->
  (isRateLimitError (message e) || isInternalServerError (message e))%bool = false ->
  let run := generateImageForPrompt E apiKey initialImagePrompt inputAspectRatio
               imageModelName style era w in
  exists evs,
    fst run = Throw e /\
    trace (snd run) =
      (trace w ++ evs ++ [requestEvent imageModelName p inputAspectRatio])%list /\
    List.length (requestsOf evs) = List.length errs /\
    delaysOf evs = retryDelays E (randoms w) (List.length errs) /\
    (forall resp c others,
       imageModelName = imageModelValue GEMINI_2_FLASH_IMG ->
       generateContent E (List.length errs + calls w) (flashRequest imageModelName p)
         = Ok resp ->
       candidates resp = Some (c :: others) ->
       isSafetyFinish c = true ->
       e = newError (safetyMessage c) /\
       forall r,
         blockedRating c = Some r ->
         includes (message e)
           (" Details: Category " ++ category r ++ ", Probability " ++ probability r ++ ".")
         = true).
Proof.
  intros Hkey Hp Hlen Hfail Hout Hsafe Hnokey Hnobusy run.
  destruct (loop_after_failures E apiKey initialImagePrompt inputAspectRatio
              imageModelName style era w p Hkey Hp errs Hlen Hfail)
    as (evs & w' & Hrun & Htr & Hcalls & Hreqs & Hdel).
  replace (3 - List.length errs)%nat with (S (2 - List.length errs)) in Hrun by lia.
  rewrite <- Hcalls in Hout.
  destruct (pass_throws_safety E imageModelName p inputAspectRatio
              (2 - List.length errs) (Z.of_nat (List.length errs)) w' e Hout Hnobusy Hsafe)
    as (e' & Hloop & _ & Hsame).
  rewrite (Hsame Hnokey) in Hloop.
  exists evs. unfold run. rewrite Hrun, Hloop. cbn [fst snd requested trace].
  split; [reflexivity|].
  split; [now rewrite Htr, <- app_assoc|].
  split; [exact Hreqs|]. split; [exact Hdel|].
  intros resp c others Hm Hresp Hcand Hfinish.
  assert (He : e = newError (safetyMessage c)).
  { unfold outcomeAt in Hout. rewrite Hcalls in Hout. subst imageModelName.
    rewrite String.eqb_refl, Hresp in Hout.
    unfold readFlashResponse in Hout. rewrite Hcand, Hfinish in Hout.
    now injection Hout as <-. }
  split; [exact He|].
  intros r Hr. rewrite He. cbn [message newError]. unfold blockedRating in Hr.
  destruct (safetyRatings c) as [ratings|] eqn:Hratings; [|discriminate].
  now apply (safetyMessage_names_category c ratings r).
Qed.

Lemma safety_error_that_reads_as_nothing_else_is_final_witness :
  exists evs,
    fst (generateImageForPrompt busyThenBlockedEnv "key" "A cat" SQUARE
           (imageModelValue GEMINI_2_FLASH_IMG) "Anime/Manga" "Futuristic/Sci-Fi" world0)
      = Throw (newError (safetyMessage blockedCandidate)) /\
    trace (snd (generateImageForPrompt busyThenBlockedEnv "key" "A cat" SQUARE
                  (imageModelValue GEMINI_2_FLASH_IMG) "Anime/Manga" "Futuristic/Sci-Fi"
                  world0))
      = (trace world0 ++ evs ++
         [requestEvent (imageModelValue GEMINI_2_FLASH_IMG) " Scene: A cat." SQUARE])%list /\
    List.length (requestsOf evs) = 1%nat /\
    delaysOf evs = retryDelays busyThenBlockedEnv (randoms world0) 1.
Proof.
  destruct (safety_error_that_reads_as_nothing_else_is_final busyThenBlockedEnv "key" "A cat"
              SQUARE (imageModelValue GEMINI_2_FLASH_IMG) "Anime/Manga" "Futuristic/Sci-Fi"
              world0 " Scene: A cat."
              [mkThrown KError "got status: 429 RESOURCE_EXHAUSTED"]
              (newError (safetyMessage blockedCandidate)))
    as (evs & Hres & Htr & Hreqs & Hdel & _); try reflexivity.
  - cbn. lia.
  - intros i e Hi.
    destruct i as [|i]; cbn in Hi; try (destruct i; discriminate).
    injection Hi as <-. split; reflexivity.
  - exists evs. auto.
Defined.

(* ================================================================== *)
(** ** handleComicGeneration *)

Lemma map_eq_of_nth {A B} (f : A -> B) (l1 l2 : list A) :
  (forall j, option_map f (nth_error l1 j) = option_map f (nth_error l2 j)) ->
  map f l1 = map f l2.
Proof.
  revert l2. induction l1 as [|x l1 IH]; intros l2 H.
  - specialize (H 0%nat). destruct l2; [reflexivity | discriminate].
  - destruct l2 as [|y l2]; [specialize (H 0%nat); discriminate|].
    cbn. f_equal.
    + specialize (H 0%nat). now injection H.
    + apply IH. intros j. exact (H (S j)).
Qed.

Lemma strictEq_same (v : JValue) : strictEq true v v = true.
Proof.
  destruct v; cbn; auto using Z.eqb_refl, String.eqb_refl.
  destruct b; reflexivity.
Qed.

Section PanelStore.

Variable E : Env.
Variable options : StoryInputOptions.
Variable key : string.
Variable scenePrompts : list ComicPanelData.

Hypothesis distinct : distinctSceneNumbers scenePrompts.

Lemma markPanels_nth (i : nat) (panel : ComicPanelData) (url : string) :
  nth_error scenePrompts i = Some panel ->
  forall (store : list ComicPanelData) (j0 : nat),
    (forall j p, nth_error store j = Some p ->
       exists q, nth_error scenePrompts (j0 + j) = Some q /\
                 scene_number p = scene_number q) ->
    forall j,
      nth_error (markPanels j0 i panel url store) j =
        option_map (fun p => if Nat.eqb (j0 + j) i then withImageUrl p (Some url) else p)
                   (nth_error store j).
Proof.
  intros Hi. induction store as [|p store IH]; intros j0 Hsn j.
  - destruct j; reflexivity.
  - cbn [markPanels]. destruct j as [|j].
    + cbn. rewrite Nat.add_0_r. f_equal.
      destruct (Hsn 0%nat p eq_refl) as (q & Hq & Hpq). rewrite Nat.add_0_r in Hq.
      rewrite Hpq. destruct (Nat.eqb j0 i) eqn:Hji.
      * apply Nat.eqb_eq in Hji. subst j0. rewrite Hi in Hq. injection Hq as <-.
        now rewrite strictEq_same.
      * apply Nat.eqb_neq in Hji. now rewrite (distinct j0 i q panel Hji Hq Hi).
    + cbn [nth_error]. rewrite (IH (S j0)).
      * now rewrite Nat.add_succ_r.
      * intros j' p' Hp'. specialize (Hsn (S j') p' Hp').
        now rewrite Nat.add_succ_r in Hsn.
Qed.

Lemma storeAt_positions (i : nat) (store : list ComicPanelData) :
  storeAt scenePrompts i store ->
  forall j p, nth_error store j = Some p ->
    exists q, nth_error scenePrompts (0 + j) = Some q /\ scene_number p = scene_number q.
Proof.
  intros [Hsn _] j p Hp. cbn.
  assert (H : nth_error (map scene_number scenePrompts) j = Some (scene_number p)).
  { rewrite <- Hsn. now rewrite nth_error_map, Hp. }
  rewrite nth_error_map in H.
  destruct (nth_error scenePrompts j) as [q|]; [|discriminate].
  injection H as H. eauto.
Qed.

Lemma storeAt_has (i j : nat) (store : list ComicPanelData) (q : ComicPanelData) :
  storeAt scenePrompts i store -> nth_error scenePrompts j = Some q ->
  exists p, nth_error store j = Some p.
Proof.
  intros [Hsn _] Hq.
  assert (H : nth_error (map scene_number store) j = Some (scene_number q)).
  { rewrite Hsn. now rewrite nth_error_map, Hq. }
  rewrite nth_error_map in H.
  destruct (nth_error store j) as [p|]; [eauto | discriminate].
Qed.

(** One pass: the store it leaves, and the world. *)
Lemma panelPass_store (i : nat) (panel : ComicPanelData) (st : AppState) (w : World) :
  comicPanels (fst (panelPass E options key i panel (st, w))) =
    markPanels 0 i panel (passValue E options key panel w) (comicPanels st) /\
  snd (panelPass E options key i panel (st, w)) =
    snd (Image.generateImageForPrompt E key (toStr (image_prompt panel))
           (aspectRatio options) (imageModelValue (imageModel options))
           (styleValue (style options)) (eraValue (era options)) w).
Proof.
  unfold panelPass, passValue.
  destruct (Image.generateImageForPrompt E key _ _ _ _ _ w) as [[url|e] w']; cbn; auto.
Qed.

Lemma panelPass_step (i : nat) (panel : ComicPanelData) (sw : AppState * World) :
  nth_error scenePrompts i = Some panel ->
  storeAt scenePrompts i (comicPanels (fst sw)) ->
  passStep E options key i panel sw (panelPass E options key i panel sw) /\
  storeAt scenePrompts (S i) (comicPanels (fst (panelPass E options key i panel sw))).
Proof.
  intros Hi Hst. destruct sw as [st w].
  destruct (panelPass_store i panel st w) as [Hstore Hworld].
  cbn [fst snd] in *.
  pose proof (markPanels_nth i panel (passValue E options key panel w) Hi
                (comicPanels st) 0 (storeAt_positions i _ Hst)) as Hnth.
  rewrite <- Hstore in Hnth. cbn [Nat.add] in Hnth.
  destruct (storeAt_has i i _ panel Hst Hi) as [p Hp].
  destruct Hst as [Hsn Hnone].
  split; [split; [exact Hworld | split; [|split]]|split].
  - unfold slot. cbn [fst]. rewrite Hp. cbn. f_equal. apply (Hnone i p (le_n i) Hp).
  - unfold slot. cbn [fst]. rewrite Hnth, Hp, Nat.eqb_refl. reflexivity.
  - intros j Hj. unfold slot. cbn [fst]. rewrite Hnth.
    apply Nat.eqb_neq in Hj. rewrite Hj.
    destruct (nth_error (comicPanels st) j); reflexivity.
  - rewrite <- Hsn. apply map_eq_of_nth.
    intros j. rewrite Hnth.
    destruct (nth_error (comicPanels st) j) as [x|]; cbn; [|reflexivity].
    destruct (Nat.eqb j i); reflexivity.
  - intros j x Hle Hx. rewrite Hnth in Hx.
    destruct (nth_error (comicPanels st) j) as [y|] eqn:Hy; [|discriminate].
    cbn in Hx. replace (Nat.eqb j i) with false in Hx
      by (symmetry; apply Nat.eqb_neq; lia).
    injection Hx as <-. apply (Hnone j y); [lia | exact Hy].
Qed.

End PanelStore.

Section GenerationRun.

Variable E : Env.
Variable options : StoryInputOptions.
Variable key : string.
Variable scenePrompts : list ComicPanelData.

Hypothesis distinct : distinctSceneNumbers scenePrompts.

Lemma imageLoop_steps (todo : list ComicPanelData) :
  forall (i : nat) (sw : AppState * World),
    (forall k panel, nth_error todo k = Some panel ->
                     nth_error scenePrompts (i + k) = Some panel) ->
    storeAt scenePrompts i (comicPanels (fst sw)) ->
    passSteps E options key i sw (imageLoop E options key i todo sw) todo.
Proof.
  induction todo as [|panel todo IH]; intros i sw Hpos Hst; cbn.
  - exact I.
  - assert (Hi : nth_error scenePrompts i = Some panel).
    { specialize (Hpos 0%nat panel eq_refl). now rewrite Nat.add_0_r in Hpos. }
    destruct (panelPass_step E options key scenePrompts distinct i panel sw Hi Hst)
      as [Hstep Hnext].
    split; [exact Hstep|].
    apply IH; [|exact Hnext].
    intros k q Hq. specialize (Hpos (S k) q Hq). now rewrite Nat.add_succ_r in Hpos.
Qed.

Lemma passSteps_nth (todo : list ComicPanelData) :
  forall (i : nat) (prev : AppState * World) (ps : list (AppState * World)),
    passSteps E options key i prev ps todo ->
    List.length ps = List.length todo /\
    (forall k panel s s',
       nth_error todo k = Some panel ->
       nth_error (prev :: ps) k = Some s ->
       nth_error ps k = Some s' ->
       passStep E options key (i + k) panel s s').
Proof.
  induction todo as [|panel todo IH]; intros i prev ps H.
  - destruct ps; [|contradiction]. split; [reflexivity|].
    intros k q s s' Hq. destruct k; discriminate.
  - destruct ps as [|next ps]; [contradiction|]. destruct H as [Hstep Hrest].
    destruct (IH (S i) next ps Hrest) as [Hlen Hnth].
    split; [cbn; now rewrite Hlen|].
    intros k q s s' Hq Hs Hs'. destruct k as [|k].
    + cbn in Hq, Hs, Hs'. injection Hq as <-. injection Hs as <-. injection Hs' as <-.
      now rewrite Nat.add_0_r.
    + cbn in Hq, Hs, Hs'. rewrite Nat.add_succ_r. now apply Hnth.
Qed.

End GenerationRun.

(** C6, as the spec has it, fails when the model numbers two scenes alike: the
    store is updated by scene number, so the first pass fills both slots with
    its image and the second pass, failing, puts the error marker over both. *)
Lemma twin_numbers_overwrite_a_set_slot :
  map (fun s => map imageUrl (comicPanels (fst s))) (passes twinRun) =
    [[Some "data:image/jpeg;base64,AAAA"; Some "data:image/jpeg;base64,AAAA"];
     [Some "error"; Some "error"]] /\
  ~ slotsKeepValue (map fst (passes twinRun)).
Proof.
  split; [vm_compute; reflexivity|].
  intros H.
  assert (K := H 0%nat 0%nat _ _ "data:image/jpeg;base64,AAAA" eq_refl eq_refl eq_refl).
  vm_compute in K. discriminate K.
Qed.

(** C6, amended.  In a run whose scene prompts carry pairwise different scene
    numbers, the image loop makes one pass per panel, whatever the passes
    yield.  Every slot is absent when the loop starts; pass k finds slot k
    absent, leaves in it the image reference, or the error marker when the
    image generation threw, and touches no other slot.  So a slot that is set
    keeps its value, and the run ends with the store of the last pass. *)
Theorem each_slot_is_set_once_when_numbers_differ
    (E : Env) (options : StoryInputOptions) (st : AppState) (w w1 : World)
    (scenePrompts : list ComicPanelData) :
  nonEmpty (trim (apiKey st)) = true ->
  generateScenePrompts E (apiKey st) options w = (Ok scenePrompts, w1) ->
  scenePrompts <> [] ->
  distinctSceneNumbers scenePrompts ->
  let run := handleComicGeneration E options st w in
  exists start,
    loopStart run = Some start /\
    snd start = w1 /\
    (forall j, (j < List.length scenePrompts)%nat -> slot j (fst start) = Some None) /\
    List.length (passes run) = List.length scenePrompts /\
    (forall k panel prev next,
       nth_error scenePrompts k = Some panel ->
       nth_error (start :: passes run) k = Some prev ->
       nth_error (passes run) k = Some next ->
       passStep E options (apiKey st) k panel prev next) /\
    slotsKeepValue (map fst (start :: passes run)) /\
    comicPanels (fst (final run)) = comicPanels (fst (last (passes run) start)).
Proof.
  intros Hkey Hgen Hne Hdistinct run.
  unfold run, handleComicGeneration. rewrite Hkey, Hgen. cbn [negb].
  destruct scenePrompts as [|p0 rest] eqn:Hsp; [congruence|]. rewrite <- Hsp in *.
  set (st1 := setCurrentAspectRatio _ _).
  set (start := (setComicPanels (fun _ => map (fun p => withImageUrl p None) scenePrompts)
                   st1, w1)).
  assert (Hstore : storeAt scenePrompts 0 (comicPanels (fst start))).
  { cbn. split.
    - rewrite map_map. apply map_ext. reflexivity.
    - intros j p _ Hp. rewrite nth_error_map in Hp.
      destruct (nth_error scenePrompts j); [|discriminate]. now injection Hp as <-. }
  pose proof (imageLoop_steps E options (apiKey st) scenePrompts Hdistinct scenePrompts
                0 start (fun k panel H => H) Hstore) as Hsteps.
  destruct (passSteps_nth E options (apiKey st) scenePrompts 0 start _ Hsteps)
    as [Hlen Hnth].
  set (ps := imageLoop E options (apiKey st) 0 scenePrompts start) in *.
  exists start.
  destruct (last ps start) as [stN wN] eqn:Hlast. cbn [loopStart passes final fst snd].
  split; [reflexivity|]. split; [reflexivity|].
  split.
  { intros j Hj. unfold slot. cbn. rewrite nth_error_map.
    destruct (nth_error scenePrompts j) eqn:Hn; [reflexivity|].
    apply nth_error_None in Hn. lia. }
  split; [exact Hlen|].
  split; [intros k panel prev next Hp Hprev Hnext; exact (Hnth k panel prev next Hp Hprev Hnext)|].
  split; [|rewrite Hlast; reflexivity].
  intros k j s s' u Hs Hs' Hu.
  rewrite nth_error_map in Hs. cbn [map nth_error] in Hs'. rewrite nth_error_map in Hs'.
  destruct (nth_error (start :: ps) k) as [prev|] eqn:Hprev; [|discriminate].
  destruct (nth_error ps k) as [next|] eqn:Hnext; [|discriminate].
  injection Hs as <-. injection Hs' as <-.
  assert (Hk : (k < List.length scenePrompts)%nat).
  { rewrite <- Hlen. apply nth_error_Some. congruence. }
  destruct (nth_error scenePrompts k) as [panel|] eqn:Hpanel;
    [|apply nth_error_None in Hpanel; lia].
  pose proof (Hnth k panel prev next Hpanel Hprev Hnext) as Hstep.
  cbn [Nat.add] in Hstep. destruct Hstep as (_ & Habs & _ & Hother).
  destruct (Nat.eq_dec j k) as [->|Hjk].
  - rewrite Habs in Hu. discriminate.
  - rewrite (Hother j Hjk). exact Hu.
Qed.

Lemma each_slot_is_set_once_witness :
  exists start,
    loopStart plainRun = Some start /\
    List.length (passes plainRun) = 2%nat /\
    slotsKeepValue (map fst (start :: passes plainRun)).
Proof.
  destruct (each_slot_is_set_once_when_numbers_differ plainScenesEnv
              (options3 IMAGEN_3 true IN_UI) (app0 "key") world0
              (afterSceneCall plainScenesEnv "key" (options3 IMAGEN_3 true IN_UI) world0)
              [mkPanel (JNum 1) (JStr "A cat") (JStr EmptyString) [] None (Some "{}");
               mkPanel (JNum 2) (JStr "A hat") (JStr EmptyString) [] None (Some "{}")]
              eq_refl eq_refl)
    as (start & Hstart & _ & _ & Hlen & _ & Hkeep & _).
  - discriminate.
  - intros i j p q Hij Hi Hj.
    destruct i as [|[|i]], j as [|[|j]]; cbn in Hi, Hj;
      try congruence; try (destruct i; discriminate); try (destruct j; discriminate);
      injection Hi as <-; injection Hj as <-; reflexivity.
  - exists start. split; [exact Hstart|]. split; [exact Hlen | exact Hkeep].
Defined.

(* ================================================================== *)
(** ** handleDownloadPdf *)

Section PdfFacts.

Local Open Scope Q_scope.

Variable isLandscape : bool.
Variable E : Env.

Lemma div_mult_back (x y : Q) : 0 < y -> (x / y) * y == x.
Proof. intros H. field. intros Hy. rewrite Hy in H. discriminate. Qed.

Lemma max_sizes_positive :
  0 < MAX_IMG_WIDTH isLandscape /\ 0 < MAX_IMG_HEIGHT_AREA isLandscape.
Proof. destruct isLandscape; split; reflexivity. Qed.

(** Lines 157-167: the picture fits its box and keeps the ratio of the image. *)
Lemma fitImage_fits (imgWidth imgHeight : Z) :
  (0 < imgWidth)%Z -> (0 < imgHeight)%Z ->
  fst (fitImage isLandscape imgWidth imgHeight) <= MAX_IMG_WIDTH isLandscape /\
  snd (fitImage isLandscape imgWidth imgHeight) <= MAX_IMG_HEIGHT_AREA isLandscape /\
  fst (fitImage isLandscape imgWidth imgHeight) * inject_Z imgHeight
    == snd (fitImage isLandscape imgWidth imgHeight) * inject_Z imgWidth /\
  0 < fst (fitImage isLandscape imgWidth imgHeight) /\
  0 < snd (fitImage isLandscape imgWidth imgHeight).
Proof.
  intros Hw Hh.
  destruct max_sizes_positive as [HMW HMH].
  assert (HW : 0 < inject_Z imgWidth) by (change 0 with (inject_Z 0); now rewrite <- Zlt_Qlt).
  assert (HH : 0 < inject_Z imgHeight) by (change 0 with (inject_Z 0); now rewrite <- Zlt_Qlt).
  unfold fitImage.
  set (a := inject_Z imgWidth / inject_Z imgHeight).
  set (b := MAX_IMG_WIDTH isLandscape / a).
  assert (Ha : a * inject_Z imgHeight == inject_Z imgWidth) by now apply div_mult_back.
  assert (Hapos : 0 < a).
  { unfold a. apply Qlt_shift_div_l; [exact HH|]. lra. }
  assert (Hb : b * a == MAX_IMG_WIDTH isLandscape) by now apply div_mult_back.
  assert (Hbpos : 0 < b).
  { unfold b. apply Qlt_shift_div_l; [exact Hapos|]. lra. }
  clearbody a b.
  unfold Qgtb. destruct (Qle_bool b (MAX_IMG_HEIGHT_AREA isLandscape)) eqn:Hcmp;
    cbn [negb fst snd].
  - apply Qle_bool_iff in Hcmp. repeat split.
    + apply Qle_refl.
    + exact Hcmp.
    + rewrite <- Hb, <- Ha. ring.
    + exact HMW.
    + exact Hbpos.
  - assert (Hgt : MAX_IMG_HEIGHT_AREA isLandscape < b).
    { apply Qnot_le_lt. intros Hle. apply Qle_bool_iff in Hle. congruence. }
    repeat split.
    + rewrite <- Hb. apply Qlt_le_weak. now apply Qmult_lt_r.
    + apply Qle_refl.
    + rewrite <- Ha. ring.
    + now apply Qmult_lt_0_compat.
    + exact HMH.
Qed.

Lemma savedPages_prepend (pre : list Page) (pdf : Pdf) :
  savedPages (prepend pre pdf) = (pre ++ savedPages pdf)%list.
Proof. unfold savedPages, prepend. cbn. now rewrite app_assoc. Qed.

Lemma addPage_prepend (pre : list Page) (pdf : Pdf) :
  addPage (prepend pre pdf) = prepend pre (addPage pdf).
Proof. unfold addPage, prepend. cbn. now rewrite app_assoc. Qed.

Lemma drawDialogues_prepend (panel : ComicPanelData) (pre : list Page) (ds : list string) :
  forall (y : Q) (pdf : Pdf),
    drawDialogues isLandscape E panel ds y (prepend pre pdf) =
    prepend pre (drawDialogues isLandscape E panel ds y pdf).
Proof.
  induction ds as [|d ds IH]; intros y pdf; cbn [drawDialogues].
  - reflexivity.
  - destruct (Qgtb y (A4_HEIGHT_MM isLandscape - MARGIN_MM - 10)).
    + rewrite addPage_prepend. apply (IH _ (text _ _ _ _ (text _ _ _ _ (addPage pdf)))).
    + apply (IH _ (text _ _ _ _ pdf)).
Qed.

Lemma drawPanel_prepend (panel : ComicPanelData) (pre : list Page) (pdf : Pdf) :
  drawPanel isLandscape E 0 panel (prepend pre pdf) =
  prepend pre (drawPanel isLandscape E 0 panel pdf).
Proof.
  unfold drawPanel. cbn [Nat.ltb Nat.leb].
  destruct (optTruthy (imageUrl panel)
            && negb (String.eqb (optText (imageUrl panel)) "error"))%bool;
    [|reflexivity].
  destruct (loadImage E (optText (imageUrl panel))) as [[imgWidth imgHeight]|];
    [|reflexivity].
  destruct (fitImage isLandscape imgWidth imgHeight) as [pdfImgWidth pdfImgHeight].
  destruct (truthy (caption panel)); destruct (dialogues panel) as [|d ds];
    try reflexivity.
  - apply (drawDialogues_prepend panel pre (d :: ds) _
             (setTextColor _ (setFontSize _ (text _ _ _ _ (setTextColor _ (setFontSize _
                (addImage _ _ _ _ _ _ (text _ _ _ _ (setTextColor _ (setFontSize _ pdf)))))))))).
  - apply (drawDialogues_prepend panel pre (d :: ds) _
             (setTextColor _ (setFontSize _
                (addImage _ _ _ _ _ _ (text _ _ _ _ (setTextColor _ (setFontSize _ pdf))))))).
Qed.

(** The pages of a panel that is not the first are put after the pages so far. *)
Lemma drawPanel_pages (i : nat) (panel : ComicPanelData) (pdf : Pdf) :
  savedPages (drawPanel isLandscape E (S i) panel pdf) =
    (savedPages pdf ++ panelPages isLandscape E panel)%list.
Proof.
  change (drawPanel isLandscape E (S i) panel pdf)
    with (drawPanel isLandscape E 0 panel (addPage pdf)).
  replace (addPage pdf)
    with (prepend (savedPages pdf) (mkPdf [] [] (fontSize pdf) (textColor pdf))).
  - rewrite drawPanel_prepend, savedPages_prepend. reflexivity.
  - unfold prepend, addPage, savedPages. cbn. now rewrite app_nil_r.
Qed.

Lemma drawPanels_pages (panels : list ComicPanelData) :
  forall (i : nat) (pdf : Pdf),
    savedPages (drawPanels isLandscape E (S i) panels pdf) =
      (savedPages pdf ++ flat_map (panelPages isLandscape E) panels)%list.
Proof.
  induction panels as [|panel panels IH]; intros i pdf; cbn [drawPanels flat_map].
  - now rewrite app_nil_r.
  - rewrite IH, drawPanel_pages. now rewrite app_assoc.
Qed.

(** One page group per panel, in order. *)
Lemma export_pages (panels : list ComicPanelData) :
  panels <> [] ->
  savedPages (drawPanels isLandscape E 0 panels newPdf) =
    flat_map (panelPages isLandscape E) panels.
Proof.
  destruct panels as [|panel panels]; [congruence|]. intros _.
  cbn [drawPanels flat_map]. now rewrite drawPanels_pages.
Qed.

Lemma pageImages_text (pg : Page) (lines : list string) (x y : Q) (fs : Z) (c : Color)
    (mw : option Q) :
  pageImages (pg ++ [DrawText lines x y fs c mw])%list = pageImages pg.
Proof. unfold pageImages. rewrite filter_app. cbn. now rewrite app_nil_r. Qed.

Lemma images_text (lines : list string) (x y : Q) (mw : option Q) (pdf : Pdf) :
  map pageImages (savedPages (text lines x y mw pdf)) = map pageImages (savedPages pdf).
Proof.
  unfold savedPages, text. cbn. rewrite !map_app. cbn. now rewrite pageImages_text.
Qed.

Lemma images_addPage (pdf : Pdf) :
  map pageImages (savedPages (addPage pdf)) =
    (map pageImages (savedPages pdf) ++ [[]])%list.
Proof. unfold savedPages, addPage. cbn. rewrite !map_app. reflexivity. Qed.

(** Dialogue lines add text, and continuation pages that hold text only. *)
Lemma drawDialogues_images (panel : ComicPanelData) (ds : list string) :
  forall (y : Q) (pdf : Pdf),
    map pageImages (savedPages (drawDialogues isLandscape E panel ds y pdf)) =
      (map pageImages (savedPages pdf) ++
       repeat [] (continuationCount isLandscape E (fontSize pdf) ds y))%list.
Proof.
  induction ds as [|d ds IH]; intros y pdf; cbn [drawDialogues continuationCount].
  - cbn. now rewrite app_nil_r.
  - destruct (Qgtb y (A4_HEIGHT_MM isLandscape - MARGIN_MM - 10)).
    + rewrite IH, !images_text, images_addPage, <- app_assoc. reflexivity.
    + rewrite IH, images_text. reflexivity.
Qed.

(** The page of a panel that carries the error marker: label and placeholder. *)
Lemma error_marker_pages (p : ComicPanelData) :
  hasErrorMarker p -> panelPages isLandscape E p = [errorMarkerPage isLandscape p].
Proof.
  unfold hasErrorMarker, panelPages, drawPanel. intros ->. reflexivity.
Qed.

(** The pages of a panel whose image decodes: the picture, fitted, on the
    first, and no picture on a continuation page. *)
Lemma valid_image_pages (p : ComicPanelData) (w h : Z) :
  hasValidImage E p w h ->
  map pageImages (panelPages isLandscape E p) =
    [DrawImage (optText (imageUrl p)) "JPEG"
       ((A4_WIDTH_MM isLandscape - fst (fitImage isLandscape w h)) / 2)
       (MARGIN_MM + 10)
       (fst (fitImage isLandscape w h)) (snd (fitImage isLandscape w h))]
    :: repeat [] (continuationCount isLandscape E 10 (dialogues p)
                    (dialogueStartY isLandscape E p w h)).
Proof.
  intros (u & Hu & Hne & Herr & Hload & _ & _).
  unfold panelPages, drawPanel, dialogueStartY.
  rewrite Hu. cbn [optTruthy optText Nat.ltb Nat.leb].
  rewrite Hne. apply String.eqb_neq in Herr. rewrite Herr. cbn [negb andb].
  rewrite Hload.
  destruct (fitImage isLandscape w h) as [pdfImgWidth pdfImgHeight]. cbn [fst snd].
  destruct (truthy (caption p)); destruct (dialogues p) as [|d ds].
  - rewrite images_text. reflexivity.
  - rewrite drawDialogues_images.
    change (savedPages (setTextColor ?c (setFontSize ?n ?x))) with (savedPages x).
    rewrite images_text. reflexivity.
  - reflexivity.
  - rewrite drawDialogues_images. reflexivity.
Qed.

End PdfFacts.

Section SameRendering.

Variable isLandscape : bool.
Variables E E' : Env.
Hypothesis Hsame : sameRendering E E'.

Lemma drawDialogues_same (panel : ComicPanelData) (ds : list string) :
  forall (y : Q) (pdf : Pdf),
    drawDialogues isLandscape E' panel ds y pdf = drawDialogues isLandscape E panel ds y pdf.
Proof.
  destruct Hsame as [_ Hsplit].
  induction ds as [|d ds IH]; intros y pdf; cbn [drawDialogues]; [reflexivity|].
  destruct (Qgtb y (A4_HEIGHT_MM isLandscape - MARGIN_MM - 10)); rewrite Hsplit; apply IH.
Qed.

Lemma drawPanel_same (i : nat) (panel : ComicPanelData) (pdf : Pdf) :
  drawPanel isLandscape E' i panel pdf = drawPanel isLandscape E i panel pdf.
Proof.
  destruct Hsame as [Hload Hsplit].
  unfold drawPanel. rewrite Hload.
  destruct (optTruthy (imageUrl panel) && _)%bool; [|reflexivity].
  destruct (loadImage E (optText (imageUrl panel))) as [[imgWidth imgHeight]|];
    [|reflexivity].
  destruct (fitImage isLandscape imgWidth imgHeight) as [pdfImgWidth pdfImgHeight].
  rewrite Hsplit.
  destruct (truthy (caption panel)); destruct (dialogues panel); try reflexivity;
    apply drawDialogues_same.
Qed.

Lemma drawPanels_same (panels : list ComicPanelData) :
  forall (i : nat) (pdf : Pdf),
    drawPanels isLandscape E' i panels pdf = drawPanels isLandscape E i panels pdf.
Proof.
  induction panels as [|panel rest IH]; intros i pdf; cbn [drawPanels]; [reflexivity|].
  now rewrite drawPanel_same, IH.
Qed.

(** Every panel takes at least one page. *)
Lemma panelPages_length (panels : list ComicPanelData) :
  (List.length panels <= List.length (flat_map (panelPages isLandscape E) panels))%nat.
Proof.
  induction panels as [|p rest IH]; cbn [flat_map List.length]; [lia|].
  rewrite length_app. unfold panelPages at 1, savedPages.
  rewrite length_app. cbn [List.length]. lia.
Qed.

End SameRendering.

(** C8.  With panels in the store and no generation running, an export saves
    a document, of at least one page per panel, and leaves the panel list, the
    aspect-ratio setting and the loading flag as they were.  A second export
    right after it, with image decoding and text splitting answering as they
    did the first time, saves an equal document: the same number of pages and
    the same text on every page.  The document does not depend on the API
    key, the error shown or the download flag, nor on what the endpoints or
    [Math.random] would answer. *)
Theorem export_twice_gives_the_same_document
    (E E' : Env) (st : AppState) :
  comicPanels st <> [] ->
  isLoading st = false ->
  sameRendering E E' ->
  exists pages pages',
    handleDownloadPdf E st =
      (Some pages, mkApp (apiKey st) (comicPanels st) false false (error st)
                         (currentAspectRatio st)) /\
    (List.length (comicPanels st) <= List.length pages)%nat /\
    fst (handleDownloadPdf E' (snd (handleDownloadPdf E st))) = Some pages' /\
    pages' = pages /\
    List.length pages' = List.length pages /\
    map pageText pages' = map pageText pages /\
    (forall key' downloading' error',
       fst (handleDownloadPdf E'
              (mkApp key' (comicPanels st) false downloading' error' (currentAspectRatio st)))
       = Some pages).
Proof.
  intros Hne Hload Hsame.
  set (b := aspectRatioEqb (currentAspectRatio st) LANDSCAPE).
  assert (Hguard : forall key' downloading' error',
            handleDownloadPdf E'
              (mkApp key' (comicPanels st) false downloading' error' (currentAspectRatio st))
            = (Some (savedPages (drawPanels b E 0 (comicPanels st) newPdf)),
               mkApp key' (comicPanels st) false false error' (currentAspectRatio st))).
  { intros key' downloading' error'. unfold handleDownloadPdf.
    cbn [comicPanels isLoading currentAspectRatio setIsDownloadingPdf apiKey error
         isDownloadingPdf].
    destruct (comicPanels st) as [|p ps] eqn:Hps; [congruence|].
    cbn [List.length Nat.eqb orb]. rewrite <- Hps. fold b.
    now rewrite (drawPanels_same b E E' Hsame). }
  assert (Hfirst : handleDownloadPdf E st =
                     (Some (savedPages (drawPanels b E 0 (comicPanels st) newPdf)),
                      mkApp (apiKey st) (comicPanels st) false false (error st)
                            (currentAspectRatio st))).
  { unfold handleDownloadPdf. rewrite Hload.
    destruct (comicPanels st) as [|p ps] eqn:Hps; [congruence|].
    cbn [List.length Nat.eqb orb]. rewrite <- Hps. unfold setIsDownloadingPdf.
    cbn [comicPanels isLoading currentAspectRatio apiKey error isDownloadingPdf].
    rewrite Hload. reflexivity. }
  exists (savedPages (drawPanels b E 0 (comicPanels st) newPdf)),
         (savedPages (drawPanels b E 0 (comicPanels st) newPdf)).
  split; [exact Hfirst|].
  split; [rewrite (export_pages b E _ Hne); apply panelPages_length|].
  split; [rewrite Hfirst; cbn [snd]; now rewrite Hguard|].
  split; [reflexivity|]. split; [reflexivity|]. split; [reflexivity|].
  intros key' downloading' error'. now rewrite Hguard.
Qed.

Lemma export_twice_gives_the_same_document_witness :
  exists pages pages',
    handleDownloadPdf exportEnv (exportState twelveLines) =
      (Some pages, exportState twelveLines) /\
    (3 <= List.length pages)%nat /\
    fst (handleDownloadPdf refusingEnv
           (snd (handleDownloadPdf exportEnv (exportState twelveLines)))) = Some pages' /\
    pages' = pages /\
    List.length pages' = List.length pages /\
    map pageText pages' = map pageText pages /\
    (forall key' downloading' error',
       fst (handleDownloadPdf refusingEnv
              (mkApp key' (comicPanels (exportState twelveLines)) false downloading' error'
                     SQUARE))
       = Some pages).
Proof.
  refine (export_twice_gives_the_same_document exportEnv refusingEnv
            (exportState twelveLines) _ eq_refl _).
  - discriminate.
  - split; reflexivity.
Defined.

(** C7, as the spec has it, fails on the page count: of three panels, two with
    an image that decodes and one with the error marker, the last has twelve
    one-line dialogue lines; the twelfth starts below the bottom threshold, so
    the export opens a continuation page and the document has four pages. *)
Lemma twelve_dialogue_lines_need_a_fourth_page :
  hasValidImage exportEnv (imagePanel 1 []) 1024 1024 /\
  hasErrorMarker (errorPanel 2) /\
  hasValidImage exportEnv (imagePanel 3 twelveLines) 1024 1024 /\
  option_map (@List.length Page) (fst (handleDownloadPdf exportEnv (exportState twelveLines)))
    = Some 4%nat.
Proof.
  split; [|split; [|split]].
  - exists "data:image/jpeg;base64,AAAA". repeat split; try reflexivity. discriminate.
  - reflexivity.
  - exists "data:image/jpeg;base64,AAAA". repeat split; try reflexivity. discriminate.
  - vm_compute. reflexivity.
Qed.

Lemma one_page_panels (isLandscape : bool) (E : Env) (panels : list ComicPanelData) :
  (forall p, In p panels ->
     hasErrorMarker p \/ exists w h, hasValidImage E p w h /\ dialogues p = []) ->
  List.length (flat_map (panelPages isLandscape E) panels) = List.length panels.
Proof.
  induction panels as [|p panels IH]; intros H; cbn [flat_map List.length].
  - reflexivity.
  - assert (Hone : List.length (panelPages isLandscape E p) = 1%nat).
    { destruct (H p (or_introl eq_refl)) as [Herr | (w & h & Hvalid & Hno)].
      - now rewrite (error_marker_pages isLandscape E p Herr).
      - pose proof (valid_image_pages isLandscape E p w h Hvalid) as Himg.
        rewrite Hno in Himg.
        apply (f_equal (@List.length _)) in Himg. now rewrite length_map in Himg. }
    rewrite length_app, Hone. rewrite IH; [reflexivity|].
    intros q Hq. apply H. right. exact Hq.
Qed.

(** C7, amended.  The exported document is the page groups of the panels, in
    order: a panel gives one page, and a panel with an image gives one more
    page each time a dialogue line starts below the bottom threshold.  The
    page of a panel with the error marker holds the panel label and the text
    placeholder, and no picture.  The first page of a panel whose image decodes
    holds one picture, scaled so that its width and its height stay within the
    content box and its width-to-height ratio is that of the image; its
    continuation pages hold none.  So three panels, each with the error marker
    or with a decoded image and no dialogue line, give exactly three pages. *)
Theorem export_pages_follow_the_panels (E : Env) (st : AppState) :
  comicPanels st <> [] ->
  isLoading st = false ->
  fst (handleDownloadPdf E st) =
    Some (flat_map (panelPages (aspectRatioEqb (currentAspectRatio st) LANDSCAPE) E)
            (comicPanels st)) /\
  (forall p,
     hasErrorMarker p ->
     panelPages (aspectRatioEqb (currentAspectRatio st) LANDSCAPE) E p =
       [errorMarkerPage (aspectRatioEqb (currentAspectRatio st) LANDSCAPE) p]) /\
  (forall p w h,
     hasValidImage E p w h ->
     exists (x y w' h' : Q),
       map pageImages (panelPages (aspectRatioEqb (currentAspectRatio st) LANDSCAPE) E p) =
         [DrawImage (optText (imageUrl p)) "JPEG" x y w' h']
         :: repeat []
              (continuationCount (aspectRatioEqb (currentAspectRatio st) LANDSCAPE) E 10
                 (dialogues p)
                 (dialogueStartY (aspectRatioEqb (currentAspectRatio st) LANDSCAPE)
                    E p w h)) /\
       (w' <= MAX_IMG_WIDTH (aspectRatioEqb (currentAspectRatio st) LANDSCAPE) /\
        h' <= MAX_IMG_HEIGHT_AREA (aspectRatioEqb (currentAspectRatio st) LANDSCAPE) /\
        w' * inject_Z h == h' * inject_Z w /\ 0 < w' /\ 0 < h')%Q) /\
  ((forall p, In p (comicPanels st) ->
      hasErrorMarker p \/ exists w h, hasValidImage E p w h /\ dialogues p = []) ->
   option_map (@List.length Page) (fst (handleDownloadPdf E st)) =
     Some (List.length (comicPanels st))).
Proof.
  intros Hne Hload.
  assert (Hdoc : fst (handleDownloadPdf E st) =
            Some (flat_map (panelPages (aspectRatioEqb (currentAspectRatio st) LANDSCAPE) E)
                    (comicPanels st))).
  { unfold handleDownloadPdf. rewrite Hload.
    destruct (comicPanels st) as [|p ps] eqn:Hps; [congruence|].
    cbn [List.length Nat.eqb orb fst]. rewrite <- Hps.
    f_equal. apply export_pages. congruence. }
  split; [exact Hdoc|]. split; [|split].
  - intros p. apply error_marker_pages.
  - intros p w h Hvalid.
    pose proof (valid_image_pages (aspectRatioEqb (currentAspectRatio st) LANDSCAPE)
                  E p w h Hvalid) as Himg.
    destruct Hvalid as (u & _ & _ & _ & _ & Hw & Hh).
    eexists _, _, _, _. split; [exact Himg|].
    apply fitImage_fits; assumption.
  - intros Hall. rewrite Hdoc. cbn [option_map]. f_equal. now apply one_page_panels.
Qed.

Lemma export_pages_follow_the_panels_witness :
  option_map (@List.length Page) (fst (handleDownloadPdf exportEnv (exportState []))) =
    Some 3%nat.
Proof.
  refine (proj2 (proj2 (proj2
    (export_pages_follow_the_panels exportEnv (exportState []) _ eq_refl))) _).
  - discriminate.
  - intros p [<- | [<- | [<- | []]]].
    + right. exists 1024, 1024. split; [|reflexivity].
      exists "data:image/jpeg;base64,AAAA". repeat split; try reflexivity. discriminate.
    + left. reflexivity.
    + right. exists 1024, 1024. split; [|reflexivity].
      exists "data:image/jpeg;base64,AAAA". repeat split; try reflexivity. discriminate.
Defined.

(* ================================================================== *)
(** * Further properties of the services and the components *)

Import Components.

(* ================================================================== *)
(** ** generateScenePrompts: effects and failures *)

Lemma delaysOf_app (a b : list Event) :
  delaysOf (a ++ b) = (delaysOf a ++ delaysOf b)%list.
Proof.
  induction a as [|x a IH]; cbn; [reflexivity|].
  destruct x; cbn; now rewrite ?IH.
Qed.

Lemma requestsOf_app (a b : list Event) :
  requestsOf (a ++ b) = (requestsOf a ++ requestsOf b)%list.
Proof. apply filter_app. Qed.

Section SceneFailures.

Variable E : Env.
Variable options : StoryInputOptions.

(** With a key, the call builds the client, sends its one request and ends:
    its result is that of the [try] block, a failure passing through the
    [catch] block. *)
Lemma generateScenePrompts_any (apiKey : string) (w : World) :
  nonEmpty apiKey = true ->
  generateScenePrompts E apiKey options w =
    (match fst (sceneTry E options
                  (mkWorld (trace w ++ [EvNewClient apiKey]) (calls w) (randoms w))) with
     | Ok panels => Ok panels
     | Throw e => Throw (sceneCatch options e)
     end, afterSceneCall E apiKey options w).
Proof.
  intros Hkey. unfold generateScenePrompts. rewrite Hkey.
  cbv beta iota zeta delta [negb newClient emit bind tryCatch sceneTry
    callGenerateContent liftResult throw].
  cbn [trace calls randoms].
  unfold afterSceneCall, sceneRequest. rewrite app_trace_assoc.
  destruct (generateContent E (calls w) _) as [resp|e0]; [|reflexivity].
  destruct (optTruthy (blockReason resp)); [reflexivity|].
  destruct (optTruthy (responseText resp)); cbn [negb]; [|reflexivity].
  destruct (parseScenes E options _); reflexivity.
Qed.

(** Every branch of the [catch] block throws a new Error that opens with
    the words Failed to and names the text model. *)
Lemma sceneCatch_shape (e0 : Thrown) :
  kind (sceneCatch options e0) = KError /\
  String.prefix "Failed to " (message (sceneCatch options e0)) = true /\
  includes (message (sceneCatch options e0))
    ("(model: " ++ textModelValue (textModel options) ++ ")") = true.
Proof.
  unfold sceneCatch.
  set (msg := if instanceofError e0 then message e0 else "An unknown error occurred.").
  clearbody msg.
  destruct (includes (toLowerCase msg) "api key not valid"
            || includes (toLowerCase msg) "permission denied")%bool;
    [|destruct (instanceofSyntaxError e0 || includes (toLowerCase msg) "json"
                || includes (toLowerCase msg) "unexpected token"
                || includes (toLowerCase msg) "malformed")%bool];
    (split; [reflexivity|]; split; [reflexivity|]);
    destruct (textModel options); vm_compute; reflexivity.
Qed.

(** The [catch] block keeps the message of an Error it rewraps. *)
Lemma sceneCatch_keeps_message (e0 : Thrown) :
  instanceofError e0 = true ->
  includes (message (sceneCatch options e0)) (message e0) = true.
Proof.
  intros He. unfold sceneCatch. rewrite He.
  set (tm := textModelValue (textModel options)).
  set (msg := message e0).
  destruct (includes (toLowerCase msg) "api key not valid"
            || includes (toLowerCase msg) "permission denied")%bool;
    [|destruct (instanceofSyntaxError e0 || includes (toLowerCase msg) "json"
                || includes (toLowerCase msg) "unexpected token"
                || includes (toLowerCase msg) "malformed")%bool];
    cbn [message newError];
    match goal with
    | |- includes (?x ++ tm ++ ?y ++ msg ++ ?z) msg = true =>
        replace (x ++ tm ++ y ++ msg ++ z) with ((x ++ tm ++ y) ++ msg ++ z)
          by (now rewrite !append_assoc)
    end;
    apply includes_append.
Qed.

End SceneFailures.

(** X1.  With a key, [generateScenePrompts] builds one client, sends exactly
    one request to the text endpoint and sleeps never, whatever the endpoint
    answers: an error of the endpoint, a rate-limit error included, is not
    retried but goes through the [catch] block at once. *)
Theorem scene_call_makes_one_request
    (E : Env) (apiKey : string) (options : StoryInputOptions) (w : World) :
  nonEmpty apiKey = true ->
  let run := generateScenePrompts E apiKey options w in
  snd run = afterSceneCall E apiKey options w /\
  requestsOf (trace (snd run)) =
    (requestsOf (trace w) ++ [EvGenerateContent (sceneRequest E options)])%list /\
  delaysOf (trace (snd run)) = delaysOf (trace w) /\
  randoms (snd run) = randoms w /\
  (forall e0,
     generateContent E (calls w) (sceneRequest E options) = Throw e0 ->
     fst run = Throw (sceneCatch options e0)).
Proof.
  intros Hkey run. unfold run.
  rewrite (generateScenePrompts_any E options apiKey w Hkey). cbn [fst snd].
  split; [reflexivity|]. unfold afterSceneCall. cbn [trace randoms].
  split; [now rewrite requestsOf_app|].
  split; [rewrite delaysOf_app; cbn; now rewrite app_nil_r|].
  split; [reflexivity|].
  intros e0 H0. unfold sceneTry.
  cbv beta iota zeta delta [bind callGenerateContent]. cbn [calls].
  unfold sceneRequest in H0. now rewrite H0.
Qed.

Lemma scene_call_makes_one_request_witness :
  List.length
    (requestsOf (trace (snd (generateScenePrompts alwaysBusyEnv "key"
                               (options3 IMAGEN_3 true IN_UI) world0)))) = 1%nat /\
  delaysOf (trace (snd (generateScenePrompts alwaysBusyEnv "key"
                          (options3 IMAGEN_3 true IN_UI) world0))) = [].
Proof.
  destruct (scene_call_makes_one_request alwaysBusyEnv "key"
              (options3 IMAGEN_3 true IN_UI) world0 eq_refl) as (_ & Hreq & Hdel & _).
  split; [now rewrite Hreq | exact Hdel].
Defined.

(** X2.  With a key, every failure of [generateScenePrompts] is a plain Error
    made by the [catch] block: its message opens with the words Failed to and
    names the text model in use. *)
Theorem scene_failures_name_the_model
    (E : Env) (apiKey : string) (options : StoryInputOptions) (w : World) (e : Thrown) :
  nonEmpty apiKey = true ->
  fst (generateScenePrompts E apiKey options w) = Throw e ->
  kind e = KError /\
  String.prefix "Failed to " (message e) = true /\
  includes (message e) ("(model: " ++ textModelValue (textModel options) ++ ")") = true.
Proof.
  intros Hkey. rewrite (generateScenePrompts_any E options apiKey w Hkey). cbn [fst].
  destruct (fst (sceneTry E options _)) as [panels|e0]; [discriminate|].
  intros H; injection H as <-. apply sceneCatch_shape.
Qed.

Lemma scene_failures_name_the_model_witness :
  includes
    (message (sceneCatch (options3 IMAGEN_3 true IN_UI)
                (mkThrown KError "got status: 500 INTERNAL")))
    "(model: gemini-2.5-flash)" = true.
Proof.
  exact (proj2 (proj2
    (scene_failures_name_the_model alwaysBusyEnv "key" (options3 IMAGEN_3 true IN_UI)
       world0 _ eq_refl eq_refl))).
Defined.

(** X3.  When the answer of the text endpoint carries a block reason, the
    call throws, whether or not the answer also carries a text: no panel is
    returned, nothing is parsed, and the message of the error contains the
    sentence that names the model and the block reason. *)
Theorem blocked_story_is_refused
    (E : Env) (apiKey : string) (options : StoryInputOptions) (w : World)
    (resp : GenerateContentResponse) (reason : string) :
  nonEmpty apiKey = true ->
  generateContent E (calls w) (sceneRequest E options) = Ok resp ->
  blockReason resp = Some reason ->
  nonEmpty reason = true ->
  generateScenePrompts E apiKey options w =
    (Throw (sceneCatch options
              (newError (blockedStoryMessage (textModelValue (textModel options)) reason))),
     afterSceneCall E apiKey options w) /\
  includes
    (message (sceneCatch options
                (newError (blockedStoryMessage (textModelValue (textModel options)) reason))))
    (blockedStoryMessage (textModelValue (textModel options)) reason) = true.
Proof.
  intros Hkey Hcall Hblock Hne.
  rewrite (generateScenePrompts_any E options apiKey w Hkey).
  split.
  - unfold sceneTry. cbv beta iota zeta delta [bind callGenerateContent throw].
    cbn [calls]. unfold sceneRequest in Hcall. rewrite Hcall, Hblock.
    cbn [optTruthy optText fst]. rewrite Hne. reflexivity.
  - apply (sceneCatch_keeps_message options (newError _)). reflexivity.
Qed.

Lemma blocked_story_is_refused_witness :
  fst (generateScenePrompts blockedStoryEnv "key" (options3 IMAGEN_3 true IN_UI) world0) =
    Throw (newError
      ("Failed to generate scene prompts (model: gemini-2.5-flash). Error: " ++
       "Your story was blocked by content policies using model gemini-2.5-flash " ++
       "(PROHIBITED_CONTENT). Please revise your story." ++
       ". Ensure API key is valid and model is accessible.")).
Proof.
  exact (f_equal fst (proj1
    (blocked_story_is_refused blockedStoryEnv "key" (options3 IMAGEN_3 true IN_UI) world0
       (mkContentResp (Some "PROHIBITED_CONTENT") (Some oneSceneText) None)
       "PROHIBITED_CONTENT" eq_refl eq_refl eq_refl eq_refl))).
Defined.

(** X4.  An answer of the text endpoint without text, and an answer whose
    text [JSON.parse] rejects, both end the call with the parse-failure
    message of the [catch] block around the original message; for a rejected
    text this holds unless the parser's message reads as an API key error,
    which the [catch] block tests first. *)
Theorem unusable_text_is_a_parse_failure
    (E : Env) (apiKey : string) (options : StoryInputOptions) (w : World) :
  nonEmpty apiKey = true ->
  (forall resp,
     generateContent E (calls w) (sceneRequest E options) = Ok resp ->
     optTruthy (blockReason resp) = false ->
     optTruthy (responseText resp) = false ->
     fst (generateScenePrompts E apiKey options w) =
       Throw (newError
                (parseFailureMessage (textModelValue (textModel options))
                   ("API response (model: " ++ textModelValue (textModel options) ++
                    ") was malformed or did not contain expected text content.")))) /\
  (forall t msg,
     answersText E options w t ->
     JSON_parse E (stripFence t) = ParseError msg ->
     isApiKeyError msg = false ->
     fst (generateScenePrompts E apiKey options w) =
       Throw (newError (parseFailureMessage (textModelValue (textModel options)) msg))).
Proof.
  intros Hkey. split.
  - intros resp Hcall Hblock Htext.
    rewrite (generateScenePrompts_any E options apiKey w Hkey). cbn [fst].
    unfold sceneTry. cbv beta iota zeta delta [bind callGenerateContent throw].
    cbn [calls]. unfold sceneRequest in Hcall. rewrite Hcall, Hblock, Htext.
    cbn [negb fst]. unfold sceneCatch.
    destruct (textModel options); vm_compute; reflexivity.
  - intros t msg Hans Hparse Hnokey.
    rewrite (generateScenePrompts_run E options apiKey w t Hkey Hans). cbn [fst].
    unfold parseScenes. rewrite Hparse.
    unfold sceneCatch, isApiKeyError in *. cbn [instanceofError kind message].
    rewrite Hnokey. cbn [instanceofSyntaxError kind orb]. reflexivity.
Qed.

Lemma unusable_text_is_a_parse_failure_witness :
  fst (generateScenePrompts silentEnv "key" (options3 IMAGEN_3 true IN_UI) world0) =
    Throw (newError
             (parseFailureMessage "gemini-2.5-flash"
                ("API response (model: gemini-2.5-flash" ++
                 ") was malformed or did not contain expected text content."))) /\
  fst (generateScenePrompts cutShortEnv "key" (options3 IMAGEN_3 true IN_UI) world0) =
    Throw (newError (parseFailureMessage "gemini-2.5-flash" "Unexpected token")).
Proof.
  destruct (unusable_text_is_a_parse_failure silentEnv "key"
              (options3 IMAGEN_3 true IN_UI) world0 eq_refl) as [Hsilent _].
  destruct (unusable_text_is_a_parse_failure cutShortEnv "key"
              (options3 IMAGEN_3 true IN_UI) world0 eq_refl) as [_ Hcut].
  split.
  - exact (Hsilent (mkContentResp None None None) eq_refl eq_refl eq_refl).
  - refine (Hcut "{" "Unexpected token" _ eq_refl eq_refl).
    exists (mkContentResp None (Some "{") None). repeat split.
Defined.

Section PanelRecords.

Variable E : Env.
Variable options : StoryInputOptions.

Lemma buildPanel_complete (canon panel : JValue) (index : Z) (p : ComicPanelData) :
  0 <= index ->
  buildPanel E options canon panel index = Ok p ->
  completePanel p.
Proof.
  intros Hindex. unfold buildPanel.
  destruct (getProp panel "scene_number") as [sn|]; [|discriminate].
  match goal with
  | |- match ?m with Ok _ => _ | Throw _ => _ end = _ -> _ =>
      destruct m as [lines|] eqn:Hlines; [|discriminate]
  end.
  intros H; injection H as <-.
  unfold completePanel. cbn [imageUrl scene_number image_prompt dialogues caption
                              scene_description_for_prompt].
  split; [reflexivity|].
  split.
  { unfold orElse. destruct (truthy sn) eqn:Hsn; [exact Hsn|].
    cbn. apply negb_true_iff, Z.eqb_neq. lia. }
  split.
  { unfold orElse. destruct (truthy (prop panel "image_prompt")) eqn:Hp; [exact Hp|].
    reflexivity. }
  split.
  { destruct (includeCaptions options && captionPlacementIsUI (captionPlacement options))%bool;
      [|injection Hlines as <-; constructor].
    destruct (prop panel "dialogues"); try (injection Hlines as <-; constructor).
    destruct (mapDialogues E items) as [ls|]; [|discriminate].
    injection Hlines as <-.
    apply Forall_forall. intros d Hd. apply filter_In in Hd. apply Hd. }
  split; [|discriminate].
  destruct (includeCaptions options && captionPlacementIsUI (captionPlacement options))%bool;
    [|now left].
  unfold orElse. destruct (truthy (prop panel "caption")) eqn:Hc; auto.
Qed.

Lemma mapPanels_complete (canon : JValue) (scenes : list JValue) :
  forall (index : Z) (panels : list ComicPanelData),
    0 <= index ->
    mapPanels (buildPanel E options canon) scenes index = Ok panels ->
    Forall completePanel panels.
Proof.
  induction scenes as [|scene rest IH]; intros index panels Hindex H; simpl in H.
  - injection H as <-. constructor.
  - destruct (buildPanel E options canon scene index) as [p|] eqn:Hp; [|discriminate].
    destruct (mapPanels _ rest (index + 1)) as [ps|] eqn:Hps; [|discriminate].
    injection H as <-. constructor.
    + exact (buildPanel_complete canon scene index p Hindex Hp).
    + apply (IH (index + 1)); [lia | exact Hps].
Qed.

End PanelRecords.

(** X5.  Every panel record a successful call of [generateScenePrompts]
    returns is complete, whatever the model sent: it has no image yet, a
    truthy scene number and a truthy image prompt (the model's, or the
    default), no empty dialogue line, a caption that is null, the empty
    string or truthy, and a scene description. *)
Theorem returned_panels_are_complete
    (E : Env) (apiKey : string) (options : StoryInputOptions) (w w' : World)
    (panels : list ComicPanelData) :
  generateScenePrompts E apiKey options w = (Ok panels, w') ->
  Forall completePanel panels.
Proof.
  intros Hrun.
  destruct (generateScenePrompts_ok_inv E options apiKey w w' panels Hrun)
    as (t & parsedData & scenes & _ & _ & _ & _ & Hmap).
  apply (mapPanels_complete E options (prop parsedData "characterCanon") scenes 0 panels);
    [lia | exact Hmap].
Qed.

Lemma returned_panels_are_complete_witness :
  Forall completePanel
    [mkPanel (JNum 7) (JStr "A cat") (JStr "Morning") ["Cat: Meow"] None (Some "{}")].
Proof.
  exact (returned_panels_are_complete oneSceneEnv "key" (options3 IMAGEN_3 true IN_UI)
           world0
           (afterSceneCall oneSceneEnv "key" (options3 IMAGEN_3 true IN_UI) world0)
           _ eq_refl).
Defined.

(* ================================================================== *)
(** ** The code fence, in general *)

Lemma allChars_append (p : ascii -> bool) (a b : string) :
  allChars p (a ++ b) = (allChars p a && allChars p b)%bool.
Proof.
  induction a as [|x a IH]; simpl; [reflexivity|].
  now rewrite IH, andb_assoc.
Qed.

Lemma trimEnd_spaces (ws : string) : allChars isSpaceChar ws = true -> trimEnd ws = EmptyString.
Proof. intros H. destruct ws; [reflexivity|]. unfold trimEnd; fold trimEnd. now rewrite H. Qed.

(** White space at the end does not count. *)
Lemma trimEnd_append_spaces (s ws : string) :
  allChars isSpaceChar ws = true -> trimEnd (s ++ ws) = trimEnd s.
Proof.
  intros Hws. induction s as [|c s IH].
  - simpl. now apply trimEnd_spaces.
  - change (String c s ++ ws) with (String c (s ++ ws)).
    unfold trimEnd; fold trimEnd. rewrite IH.
    replace (allChars isSpaceChar (String c (s ++ ws)))
      with (allChars isSpaceChar (String c s)); [reflexivity|].
    simpl. now rewrite allChars_append, Hws, andb_true_r.
Qed.

Lemma dropWhile_length (p : ascii -> bool) (s : string) :
  (String.length (dropWhile p s) <= String.length s)%nat.
Proof. induction s as [|y s IHs]; simpl; [lia|]. destruct (p y); simpl; lia. Qed.

(** A string that [dropWhile] leaves alone does not start with such a
    character. *)
Lemma dropWhile_fixed_head (p : ascii -> bool) (c : ascii) (r : string) :
  dropWhile p (String c r) = String c r -> p c = false.
Proof.
  simpl. destruct (p c); [|reflexivity]. intros H.
  apply (f_equal String.length) in H. simpl in H.
  pose proof (dropWhile_length p r). lia.
Qed.

Lemma dropWhile_fixed_append (p : ascii -> bool) (s t : string) :
  nonEmpty s = true -> dropWhile p s = s -> dropWhile p (s ++ t) = s ++ t.
Proof.
  destruct s as [|c r]; [discriminate|]. intros _ H.
  apply dropWhile_fixed_head in H. simpl. now rewrite H.
Qed.

Lemma space_is_no_word_char (c : ascii) : isSpaceChar c = true -> isWordChar c = false.
Proof.
  destruct c as [[] [] [] [] [] [] [] []]; vm_compute; intros H;
    first [reflexivity | discriminate H].
Qed.

Lemma dropWhile_all_append (p : ascii -> bool) (a b : string) :
  allChars p a = true -> dropWhile p (a ++ b) = dropWhile p b.
Proof.
  intros Ha. induction a as [|x a IH]; simpl; [reflexivity|].
  simpl in Ha. apply andb_prop in Ha as [Hx Ha]. rewrite Hx. auto.
Qed.

(** White space and the closing fence are left alone by the word class. *)
Lemma dropWhile_word_closing (ws : string) :
  allChars isSpaceChar ws = true ->
  dropWhile isWordChar (ws ++ fence) = ws ++ fence.
Proof.
  destruct ws as [|c r]; [reflexivity|]. simpl. intros H.
  apply andb_prop in H as [Hc _]. now rewrite (space_is_no_word_char c Hc).
Qed.

Lemma dropWhile_space_closing (ws : string) :
  allChars isSpaceChar ws = true ->
  dropWhile isSpaceChar (ws ++ fence) = fence.
Proof. intros H. now rewrite dropWhile_all_append. Qed.

(** The lazy group stops right before the closing white space and fence. *)
Lemma lazyBody_before_closing (body ws : string) :
  allChars isSpaceChar ws = true ->
  trimEnd body = body ->
  lazyBody (body ++ ws ++ fence) = Some body.
Proof.
  intros Hws. induction body as [|c r IH]; intros Hfix.
  - change (EmptyString ++ ws ++ fence) with (ws ++ fence).
    destruct (ws ++ fence) as [|x y] eqn:Hx.
    + destruct ws; discriminate.
    + unfold lazyBody; fold lazyBody. rewrite <- Hx.
      rewrite (dropWhile_space_closing ws Hws). reflexivity.
  - destruct (trimEnd_fixed_inv c r Hfix) as [Hall Hr].
    change (String c r ++ ws ++ fence) with (String c (r ++ ws ++ fence)).
    unfold lazyBody; fold lazyBody.
    destruct (allChars_false_dropWhile isSpaceChar (String c r) (ws ++ fence) Hall)
      as (c' & r' & Hdrop).
    change (String c r ++ ws ++ fence) with (String c (r ++ ws ++ fence)) in Hdrop.
    rewrite Hdrop.
    replace (String.eqb (String c' (r' ++ ws ++ fence)) fence) with false.
    + rewrite (IH Hr). reflexivity.
    + symmetry. apply String.eqb_neq. intros Heq.
      apply (f_equal String.length) in Heq. simpl in Heq.
      rewrite !length_append in Heq. simpl in Heq. lia.
Qed.

(** A text that opens and closes with a fence is its own trimmed form, also
    inside white space. *)
Lemma trim_fenced (o1 inner o2 : string) :
  allChars isSpaceChar o1 = true -> allChars isSpaceChar o2 = true ->
  trim (o1 ++ (fence ++ inner ++ fence) ++ o2) = fence ++ inner ++ fence.
Proof.
  intros H1 H2. unfold trim.
  rewrite (dropWhile_all_append isSpaceChar o1 _ H1).
  change (dropWhile isSpaceChar ((fence ++ ?x) ++ o2)) with ((fence ++ x) ++ o2).
  rewrite (trimEnd_append_spaces _ o2 H2).
  replace (fence ++ inner ++ fence) with ((fence ++ inner ++ "``") ++ "`")
    by (rewrite !append_assoc; reflexivity).
  apply trimEnd_ends_nonspace. reflexivity.
Qed.

(** X6.  A fenced block is unwrapped whatever white space surrounds it, white
    space being TAB, LF, VT, FF, CR, SP and the no-break space: with white
    space before the opening fence and after the closing one, a word
    (possibly empty) as language tag, and any white space between tag and
    body and between body and closing fence, [stripFence] gives the body,
    provided the body starts and ends with no white space and the tag cannot
    run on into what follows it.  If the body is empty nothing is unwrapped:
    the fences themselves are what goes to the parser. *)
Theorem fence_is_unwrapped_in_any_white_space
    (o1 tag ws1 body ws2 o2 : string) :
  allChars isSpaceChar o1 = true ->
  allChars isWordChar tag = true ->
  allChars isSpaceChar ws1 = true ->
  allChars isSpaceChar ws2 = true ->
  allChars isSpaceChar o2 = true ->
  dropWhile isSpaceChar body = body ->
  trimEnd body = body ->
  dropWhile isWordChar (ws1 ++ body) = ws1 ++ body ->
  stripFence (o1 ++ fence ++ tag ++ ws1 ++ body ++ ws2 ++ fence ++ o2) =
    if nonEmpty body then body else fence ++ tag ++ ws1 ++ ws2 ++ fence.
Proof.
  intros Ho1 Htag Hws1 Hws2 Ho2 Hstart Hend Hword.
  replace (o1 ++ fence ++ tag ++ ws1 ++ body ++ ws2 ++ fence ++ o2)
    with (o1 ++ (fence ++ (tag ++ ws1 ++ body ++ ws2) ++ fence) ++ o2)
    by (rewrite !append_assoc; reflexivity).
  unfold stripFence. rewrite (trim_fenced o1 _ o2 Ho1 Ho2).
  unfold fenceMatch. rewrite prefix_append.
  change (dropN 3 (fence ++ ?x)) with x.
  replace ((tag ++ ws1 ++ body ++ ws2) ++ fence)
    with (tag ++ ws1 ++ body ++ ws2 ++ fence)
    by (rewrite !append_assoc; reflexivity).
  rewrite (dropWhile_all_append isWordChar tag _ Htag).
  assert (Hrest : dropWhile isWordChar (ws1 ++ body ++ ws2 ++ fence)
                  = ws1 ++ body ++ ws2 ++ fence).
  { destruct (nonEmpty (ws1 ++ body)) eqn:Hne.
    - rewrite <- (append_assoc ws1 body). now apply dropWhile_fixed_append.
    - destruct ws1; [|discriminate]. destruct body; [|discriminate].
      now apply dropWhile_word_closing. }
  rewrite Hrest. rewrite (dropWhile_all_append isSpaceChar ws1 _ Hws1).
  destruct (nonEmpty body) eqn:Hne.
  - rewrite (dropWhile_fixed_append isSpaceChar body _ Hne Hstart).
    rewrite (lazyBody_before_closing body ws2 Hws2 Hend). rewrite Hne.
    unfold trim. now rewrite Hstart.
  - destruct body; [|discriminate].
    change (EmptyString ++ ws2 ++ fence) with (ws2 ++ fence).
    rewrite (dropWhile_space_closing ws2 Hws2).
    change (lazyBody fence) with (Some EmptyString). cbn [nonEmpty].
    reflexivity.
Qed.

Lemma fence_is_unwrapped_in_any_white_space_witness :
  stripFence (nbsp ++ fence ++ "json" ++ (newline ++ nbsp) ++ oneSceneText ++
              (nbsp ++ newline) ++ fence ++ (newline ++ nbsp)) = oneSceneText /\
  stripFence (fence ++ "json" ++ newline ++ EmptyString ++ EmptyString ++ fence ++ EmptyString)
    = fence ++ "json" ++ newline ++ EmptyString ++ fence.
Proof.
  split.
  - exact (fence_is_unwrapped_in_any_white_space nbsp "json" (newline ++ nbsp)
             oneSceneText (nbsp ++ newline) (newline ++ nbsp)
             eq_refl eq_refl eq_refl eq_refl eq_refl eq_refl eq_refl eq_refl).
  - exact (fence_is_unwrapped_in_any_white_space EmptyString "json" newline
             EmptyString EmptyString EmptyString
             eq_refl eq_refl eq_refl eq_refl eq_refl eq_refl eq_refl eq_refl).
Defined.

(* ================================================================== *)
(** ** generateImageForPrompt: every call, whatever the endpoint answers *)

Section ImageCall.

Variable E : Env.
Variables imageModelName augmentedPrompt : string.
Variable inputAspectRatio : AspectRatio.

(** A pass whose error is not retried, by its kind or because the budget is
    spent, ends the call with the error of the [catch] block. *)
Lemma pass_ends (remaining : nat) (retries : Z) (w : World) (e : Thrown) :
  outcomeAt E imageModelName augmentedPrompt inputAspectRatio (calls w) = Throw e ->
  isTransient (message e) = false \/ maxRetries <= retries ->
  attemptLoop E imageModelName augmentedPrompt inputAspectRatio (S remaining) retries w =
    (Throw (finalError imageModelName retries e),
     requested (requestEvent imageModelName augmentedPrompt inputAspectRatio) w).
Proof.
  intros Hout Hend. cbn [attemptLoop].
  cbv beta iota zeta delta [bind tryCatch ret]. rewrite attempt_run, Hout.
  unfold catchAttempt, finalError, lastError.
  destruct (isApiKeyError (message e)) eqn:Hkey; [reflexivity|].
  replace ((isRateLimitError (message e) || isInternalServerError (message e))
           && (retries <? maxRetries))%bool with false.
  - destruct (isSafetyError (message e)); reflexivity.
  - symmetry. destruct Hend as [Hno | Hspent].
    + unfold isTransient in Hno. rewrite Hkey in Hno. cbn [negb andb] in Hno.
      now rewrite Hno.
    + apply Z.ltb_ge in Hspent. rewrite Hspent. apply andb_false_r.
Qed.

Lemma outcome_ok_data_url (n : nat) (url : string) :
  outcomeAt E imageModelName augmentedPrompt inputAspectRatio n = Ok url ->
  String.prefix "data:" url = true.
Proof.
  unfold outcomeAt.
  destruct (String.eqb imageModelName (imageModelValue GEMINI_2_FLASH_IMG)).
  - destruct (generateContent E n _) as [result|]; [|discriminate].
    unfold readFlashResponse.
    destruct (candidates result) as [[|c cs]|]; try discriminate.
    destruct (isSafetyFinish c); [discriminate|].
    destruct (inlineImage c) as [u|] eqn:Hu; [|discriminate].
    intros H; injection H as <-.
    unfold inlineImage in Hu.
    destruct (contentParts c) as [parts|]; [|discriminate].
    destruct (find hasInlineData parts) as [imagePart|]; [|discriminate].
    destruct (inlineData imagePart) as [d|]; [|discriminate].
    destruct (optTruthy (data d) && optTruthy (mimeType d))%bool; [|discriminate].
    injection Hu as <-.
    apply (prefix_append "data:" (optText (mimeType d) ++ ";base64," ++ optText (data d))).
  - destruct (generateImages E n _) as [response|]; [|discriminate].
    unfold readImagenResponse.
    destruct (truthy (respError response) || truthy (respCode response))%bool;
      [discriminate|].
    destruct (match generatedImages response with
              | Some (g :: _) => match image g with Some i => imageBytes i | None => None end
              | _ => None
              end) as [bytes|]; [|discriminate].
    destruct (nonEmpty bytes); [|discriminate].
    intros H; injection H as <-.
    apply (prefix_append "data:" ("image/jpeg;base64," ++ bytes)).
Qed.

End ImageCall.

Lemma callEvents_requests (apiKey : string) (ev : Event) (delays : list Q) :
  isRequest ev = true ->
  List.length (requestsOf (callEvents apiKey ev delays)) = S (List.length delays) /\
  delaysOf (callEvents apiKey ev delays) = delays.
Proof.
  intros Hev. unfold callEvents, requestsOf. cbn [filter isRequest delaysOf].
  induction delays as [|d ds [IHr IHd]]; cbn [flat_map List.app filter delaysOf].
  - rewrite Hev. split; [reflexivity|]. destruct ev; try discriminate; reflexivity.
  - rewrite Hev. cbn [isRequest List.length]. rewrite IHr.
    split; [reflexivity|]. destruct ev; try discriminate; cbn [delaysOf]; now rewrite IHd.
Qed.

Section ImageCallShape.

Variable E : Env.
Variables apiKey initialImagePrompt : string.
Variable inputAspectRatio : AspectRatio.
Variables imageModelName style era : string.
Variable w : World.
Variable p : string.

Hypothesis key_given : nonEmpty apiKey = true.
Hypothesis prompt_built : buildAugmentedPrompt E initialImagePrompt style era = Ok p.

(** The whole call: it retries [k] transient failures, [k] at most 2, and
    its result is decided by the outcome of request number [k + 1]. *)
Lemma image_call_shape :
  exists k : nat,
    (k <= 2)%nat /\
    (forall i, (i < k)%nat ->
       exists e, outcomeAt E imageModelName p inputAspectRatio (i + calls w) = Throw e /\
                 isTransient (message e) = true) /\
    ((k < 2)%nat ->
     forall e, outcomeAt E imageModelName p inputAspectRatio (k + calls w) = Throw e ->
               isTransient (message e) = false) /\
    generateImageForPrompt E apiKey initialImagePrompt inputAspectRatio
      imageModelName style era w =
      (match outcomeAt E imageModelName p inputAspectRatio (k + calls w) with
       | Ok url => Ok url
       | Throw e => Throw (finalError imageModelName (Z.of_nat k) e)
       end,
       mkWorld (trace w ++ callEvents apiKey
                             (requestEvent imageModelName p inputAspectRatio)
                             (retryDelays E (randoms w) k))
               (S k + calls w) (k + randoms w)).
Proof.
  rewrite (generateImageForPrompt_run E apiKey initialImagePrompt inputAspectRatio
             imageModelName style era w p key_given prompt_built).
  set (w1 := mkWorld (trace w ++ [EvNewClient apiKey]) (calls w) (randoms w)).
  set (ev := requestEvent imageModelName p inputAspectRatio).
  set (out := outcomeAt E imageModelName p inputAspectRatio).
  (* pass 1 *)
  destruct (out (calls w)) as [url0|e0] eqn:H0.
  { exists 0%nat. split; [lia|]. split; [intros i Hi; lia|].
    split; [intros _ e He; cbn [Nat.add] in He; fold out in He; congruence|].
    cbn [Nat.add]. fold out. rewrite H0.
    rewrite (pass_returns E imageModelName p inputAspectRatio 2 0 w1 url0 H0).
    unfold requested, callEvents, retryDelays, w1. cbn. rewrite <- app_assoc. reflexivity. }
  destruct (isTransient (message e0)) eqn:T0.
  2:{ exists 0%nat. split; [lia|]. split; [intros i Hi; lia|].
      split; [intros _ e He; cbn [Nat.add] in He; fold out in He; congruence|].
      cbn [Nat.add]. fold out. rewrite H0.
      rewrite (pass_ends E imageModelName p inputAspectRatio 2 0 w1 e0 H0 (or_introl T0)).
      unfold requested, callEvents, retryDelays, w1. cbn. rewrite <- app_assoc. reflexivity. }
  rewrite (pass_retries E imageModelName p inputAspectRatio 2 0 w1 e0 H0 T0)
    by (unfold maxRetries; lia).
  set (w2 := retried (requestEvent imageModelName p inputAspectRatio)
               (delayTime (0 + 1) (mathRandom E (randoms w1))) w1).
  (* pass 2 *)
  destruct (out (S (calls w))) as [url1|e1] eqn:H1.
  { exists 1%nat. split; [lia|].
    split; [intros i Hi; assert (i = 0%nat) as -> by lia; exists e0; auto|].
    split; [intros _ e He; cbn [Nat.add] in He; fold out in He; congruence|].
    cbn [Nat.add]. fold out. rewrite H1.
    rewrite (pass_returns E imageModelName p inputAspectRatio 1 (0 + 1) w2 url1 H1).
    unfold requested, retried, callEvents, retryDelays, w2, w1. cbn.
    rewrite <- !app_assoc. reflexivity. }
  destruct (isTransient (message e1)) eqn:T1.
  2:{ exists 1%nat. split; [lia|].
      split; [intros i Hi; assert (i = 0%nat) as -> by lia; exists e0; auto|].
      split; [intros _ e He; cbn [Nat.add] in He; fold out in He; congruence|].
      cbn [Nat.add]. fold out. rewrite H1.
      rewrite (pass_ends E imageModelName p inputAspectRatio 1 (0 + 1) w2 e1 H1
                 (or_introl T1)).
      unfold requested, retried, callEvents, retryDelays, w2, w1. cbn.
      rewrite <- !app_assoc. reflexivity. }
  rewrite (pass_retries E imageModelName p inputAspectRatio 1 (0 + 1) w2 e1 H1 T1)
    by (unfold maxRetries; lia).
  set (w3 := retried (requestEvent imageModelName p inputAspectRatio)
               (delayTime (0 + 1 + 1) (mathRandom E (randoms w2))) w2).
  (* pass 3 *)
  exists 2%nat. split; [lia|].
  split.
  { intros i Hi. destruct i as [|[|i]]; [exists e0 | exists e1 | lia]; auto. }
  split; [intros Hlt; lia|].
  cbn [Nat.add]. fold out.
  destruct (out (S (S (calls w)))) as [url2|e2] eqn:H2.
  - rewrite (pass_returns E imageModelName p inputAspectRatio 0 (0 + 1 + 1) w3 url2 H2).
    unfold requested, retried, callEvents, retryDelays, w3, w2, w1. cbn.
    rewrite <- !app_assoc. reflexivity.
  - rewrite (pass_ends E imageModelName p inputAspectRatio 0 (0 + 1 + 1) w3 e2 H2)
      by (right; unfold maxRetries; lia).
    unfold requested, retried, callEvents, retryDelays, w3, w2, w1. cbn.
    rewrite <- !app_assoc. reflexivity.
Qed.

End ImageCallShape.

(** X7.  Once the prompt is built, every call of [generateImageForPrompt]
    ends within three requests, whatever the endpoint answers.  It retries k
    failures, k at most 2, all of them transient, sleeping once after each;
    request k+1 is its last event and decides the result: the image if there
    is one, otherwise the error the [catch] block makes of the failure (the
    API key error, the error itself when it reads as a safety error, or the
    error wrapped with the attempt number k+1 of 3).  A failure before the
    third request ends the call only if it is not transient. *)
Theorem image_call_ends_within_three_requests
    (E : Env) (apiKey initialImagePrompt : string) (inputAspectRatio : AspectRatio)
    (imageModelName style era : string) (w : World) (p : string) :
  nonEmpty apiKey = true ->
  buildAugmentedPrompt E initialImagePrompt style era = Ok p ->
  let run := generateImageForPrompt E apiKey initialImagePrompt inputAspectRatio
               imageModelName style era w in
  let ev := requestEvent imageModelName p inputAspectRatio in
  exists k : nat,
    (k <= 2)%nat /\
    trace (snd run) = (trace w ++ callEvents apiKey ev (retryDelays E (randoms w) k))%list /\
    List.length (requestsOf (callEvents apiKey ev (retryDelays E (randoms w) k))) = S k /\
    delaysOf (callEvents apiKey ev (retryDelays E (randoms w) k))
      = retryDelays E (randoms w) k /\
    (forall i, (i < k)%nat ->
       exists e, outcomeAt E imageModelName p inputAspectRatio (i + calls w) = Throw e /\
                 isTransient (message e) = true) /\
    ((k < 2)%nat ->
     forall e, outcomeAt E imageModelName p inputAspectRatio (k + calls w) = Throw e ->
               isTransient (message e) = false) /\
    fst run = match outcomeAt E imageModelName p inputAspectRatio (k + calls w) with
              | Ok url => Ok url
              | Throw e => Throw (finalError imageModelName (Z.of_nat k) e)
              end.
Proof.
  intros Hkey Hp run ev.
  destruct (image_call_shape E apiKey initialImagePrompt inputAspectRatio imageModelName
              style era w p Hkey Hp) as (k & Hk & Hbefore & Hlast & Hrun).
  exists k. unfold run. rewrite Hrun. cbn [fst snd trace].
  destruct (callEvents_requests apiKey ev (retryDelays E (randoms w) k)
              (isRequest_requestEvent imageModelName p inputAspectRatio)) as [Hreq Hdel].
  split; [exact Hk|]. split; [reflexivity|].
  split; [rewrite Hreq; unfold retryDelays; now rewrite length_map, length_seq|].
  split; [exact Hdel|]. split; [exact Hbefore|]. split; [exact Hlast | reflexivity].
Qed.

Lemma image_call_ends_within_three_requests_witness :
  exists k : nat,
    (k <= 2)%nat /\
    List.length
      (requestsOf
         (callEvents "key"
            (requestEvent (imageModelValue GEMINI_2_FLASH_IMG) " Scene: A cat." SQUARE)
            (retryDelays busyTwiceEnv 0 k))) = S k /\
    fst (generateImageForPrompt busyTwiceEnv "key" "A cat" SQUARE
           (imageModelValue GEMINI_2_FLASH_IMG) "Anime/Manga" "Futuristic/Sci-Fi" world0) =
      match outcomeAt busyTwiceEnv (imageModelValue GEMINI_2_FLASH_IMG) " Scene: A cat."
              SQUARE (k + 0) with
      | Ok url => Ok url
      | Throw e => Throw (finalError (imageModelValue GEMINI_2_FLASH_IMG) (Z.of_nat k) e)
      end.
Proof.
  destruct (image_call_ends_within_three_requests busyTwiceEnv "key" "A cat" SQUARE
              (imageModelValue GEMINI_2_FLASH_IMG) "Anime/Manga" "Futuristic/Sci-Fi"
              world0 " Scene: A cat." eq_refl eq_refl)
    as (k & Hk & _ & Hreq & _ & _ & _ & Hrun).
  exists k. split; [exact Hk|]. split; [exact Hreq | exact Hrun].
Defined.

Lemma image_result_is_data_url
    (E : Env) (apiKey initialImagePrompt : string) (inputAspectRatio : AspectRatio)
    (imageModelName style era : string) (w : World) (url : string) :
  fst (generateImageForPrompt E apiKey initialImagePrompt inputAspectRatio
         imageModelName style era w) = Ok url ->
  String.prefix "data:" url = true.
Proof.
  intros Hrun.
  destruct (nonEmpty apiKey) eqn:Hkey.
  2:{ unfold generateImageForPrompt in Hrun. rewrite Hkey in Hrun. discriminate. }
  destruct (buildAugmentedPrompt E initialImagePrompt style era) as [p|e] eqn:Hp.
  2:{ unfold generateImageForPrompt in Hrun. rewrite Hkey in Hrun.
      cbv beta iota zeta delta [negb bind newClient emit liftResult] in Hrun.
      rewrite Hp in Hrun. discriminate. }
  destruct (image_call_shape E apiKey initialImagePrompt inputAspectRatio imageModelName
              style era w p Hkey Hp) as (k & _ & _ & _ & Hshape).
  rewrite Hshape in Hrun. cbn [fst] in Hrun.
  destruct (outcomeAt E imageModelName p inputAspectRatio (k + calls w)) as [u|e] eqn:Hout;
    [|discriminate].
  injection Hrun as ->.
  exact (outcome_ok_data_url E imageModelName p inputAspectRatio _ url Hout).
Qed.

(** X8.  What [generateImageForPrompt] returns is always a data URL: a
    string that opens with the five characters data: and so is never the
    empty string and never the error marker the panel store uses. *)
Theorem returned_image_is_a_data_url
    (E : Env) (apiKey initialImagePrompt : string) (inputAspectRatio : AspectRatio)
    (imageModelName style era : string) (w : World) (url : string) :
  fst (generateImageForPrompt E apiKey initialImagePrompt inputAspectRatio
         imageModelName style era w) = Ok url ->
  String.prefix "data:" url = true /\ nonEmpty url = true /\ url <> "error".
Proof.
  intros Hrun.
  pose proof (image_result_is_data_url E apiKey initialImagePrompt inputAspectRatio
                imageModelName style era w url Hrun) as Hdata.
  split; [exact Hdata|].
  destruct url as [|c r]; [discriminate|]. split; [reflexivity|].
  intros Heq. rewrite Heq in Hdata. discriminate.
Qed.

Lemma returned_image_is_a_data_url_witness :
  String.prefix "data:" "data:image/png;base64,BBBB" = true /\
  nonEmpty "data:image/png;base64,BBBB" = true /\
  "data:image/png;base64,BBBB" <> "error".
Proof.
  exact (returned_image_is_a_data_url busyTwiceEnv "key" "A cat" SQUARE
           (imageModelValue GEMINI_2_FLASH_IMG) "Anime/Manga" "Futuristic/Sci-Fi" world0
           "data:image/png;base64,BBBB" eq_refl).
Defined.

(** X9.  An error whose message reads as an API key error ends the call at
    the first request, without a retry and without a delay, also when the
    same message reads as a rate-limit or server error: the [catch] block
    tests for the key first.  The error thrown wraps the message and names the
    model. *)
Theorem api_key_error_is_never_retried
    (E : Env) (apiKey initialImagePrompt : string) (inputAspectRatio : AspectRatio)
    (imageModelName style era : string) (w : World) (p : string) (e : Thrown) :
  nonEmpty apiKey = true ->
  buildAugmentedPrompt E initialImagePrompt style era = Ok p ->
  outcomeAt E imageModelName p inputAspectRatio (calls w) = Throw e ->
  isApiKeyError (message e) = true ->
  generateImageForPrompt E apiKey initialImagePrompt inputAspectRatio
    imageModelName style era w =
    (Throw (newError ("Image generation failed for model '" ++ imageModelName ++
                      "' due to an API key issue: " ++ message e ++
                      ". Please check your API key and its permissions.")),
     mkWorld (trace w ++ [EvNewClient apiKey;
                          requestEvent imageModelName p inputAspectRatio])
             (S (calls w)) (randoms w)).
Proof.
  intros Hkey Hp Hout Hbad.
  rewrite (generateImageForPrompt_run E apiKey initialImagePrompt inputAspectRatio
             imageModelName style era w p Hkey Hp).
  rewrite (pass_ends E imageModelName p inputAspectRatio 2 0
             (mkWorld (trace w ++ [EvNewClient apiKey]) (calls w) (randoms w)) e Hout).
  - unfold finalError. rewrite Hbad. unfold requested. cbn [trace calls randoms].
    now rewrite <- app_assoc.
  - left. unfold isTransient. now rewrite Hbad.
Qed.

Lemma api_key_error_is_never_retried_witness :
  isRateLimitError "429 API key not valid. Please pass a valid API key." = true /\
  List.length
    (requestsOf
       (trace (snd (generateImageForPrompt badKeyEnv "key" "A cat" SQUARE
                      (imageModelValue IMAGEN_3) "Anime/Manga" "Futuristic/Sci-Fi"
                      world0)))) = 1%nat.
Proof.
  split; [reflexivity|].
  rewrite (api_key_error_is_never_retried badKeyEnv "key" "A cat" SQUARE
             (imageModelValue IMAGEN_3) "Anime/Manga" "Futuristic/Sci-Fi" world0
             " Scene: A cat."
             (mkThrown KError "429 API key not valid. Please pass a valid API key.")
             eq_refl eq_refl eq_refl eq_refl).
  reflexivity.
Defined.

Lemma generateImageForPrompt_trace
    (E : Env) (apiKey initialImagePrompt : string) (inputAspectRatio : AspectRatio)
    (imageModelName style era : string) (w : World) :
  exists evs,
    trace (snd (generateImageForPrompt E apiKey initialImagePrompt inputAspectRatio
                  imageModelName style era w)) = (trace w ++ evs)%list /\
    (List.length (requestsOf evs) <= 3)%nat /\
    exists k, (k <= 2)%nat /\ delaysOf evs = retryDelays E (randoms w) k.
Proof.
  destruct (nonEmpty apiKey) eqn:Hkey.
  2:{ exists []. unfold generateImageForPrompt. rewrite Hkey. cbn.
      rewrite app_nil_r. split; [reflexivity|]. split; [lia|].
      exists 0%nat. split; [lia | reflexivity]. }
  destruct (buildAugmentedPrompt E initialImagePrompt style era) as [p|e] eqn:Hp.
  2:{ exists [EvNewClient apiKey]. unfold generateImageForPrompt. rewrite Hkey.
      cbv beta iota zeta delta [negb bind newClient emit liftResult]. rewrite Hp. cbn.
      split; [reflexivity|]. split; [lia|].
      exists 0%nat. split; [lia | reflexivity]. }
  destruct (image_call_shape E apiKey initialImagePrompt inputAspectRatio imageModelName
              style era w p Hkey Hp) as (k & Hk & _ & _ & Hrun).
  destruct (callEvents_requests apiKey (requestEvent imageModelName p inputAspectRatio)
              (retryDelays E (randoms w) k)
              (isRequest_requestEvent imageModelName p inputAspectRatio)) as [Hreq Hdel].
  eexists. rewrite Hrun. cbn [snd trace]. split; [reflexivity|].
  split.
  - rewrite Hreq. unfold retryDelays. rewrite length_map, length_seq. lia.
  - exists k. split; [exact Hk | exact Hdel].
Qed.




(* ================================================================== *)
(** ** The augmented prompt *)

(** X11.  An image prompt that is no JSON text is used as the scene: the
    augmented prompt is built, without character lines, around the sentence
    that quotes the prompt (or around nothing, if the prompt is empty).  An
    image prompt that is JSON text for anything but an object with fields (a
    number, a string, a boolean, null, an array) leaves no trace: the
    augmented prompt is built around no character line and no scene.  In
    neither case does the construction throw. *)
Theorem prompt_that_is_no_json_object
    (E : Env) (initialImagePrompt style era : string) :
  (forall msg,
     JSON_parse E initialImagePrompt = ParseError msg ->
     buildAugmentedPrompt E initialImagePrompt style era =
       Ok (imagePromptText E EmptyString
             (if nonEmpty initialImagePrompt
              then "Scene: " ++ initialImagePrompt ++ "." else EmptyString)
             style era)) /\
  (forall v,
     JSON_parse E initialImagePrompt = Parsed v ->
     (forall fields, v <> JObj fields) ->
     buildAugmentedPrompt E initialImagePrompt style era =
       Ok (imagePromptText E EmptyString EmptyString style era)).
Proof.
  split.
  - intros msg Hparse. unfold buildAugmentedPrompt. rewrite Hparse.
    cbn [prop getProp lookupField String.eqb Ascii.eqb Bool.eqb truthy toStr].
    destruct (nonEmpty initialImagePrompt); reflexivity.
  - intros v Hparse Hno. unfold buildAugmentedPrompt. rewrite Hparse.
    destruct v; try (exfalso; exact (Hno fields eq_refl));
      cbn [typeofIsObject]; rewrite ?andb_false_r; reflexivity.
Qed.

Lemma prompt_that_is_no_json_object_witness :
  buildAugmentedPrompt numberPromptEnv "A cat" "Anime/Manga" "Futuristic/Sci-Fi" =
    Ok " Scene: A cat." /\
  buildAugmentedPrompt numberPromptEnv "42" "Anime/Manga" "Futuristic/Sci-Fi" = Ok " ".
Proof.
  destruct (prompt_that_is_no_json_object numberPromptEnv "A cat"
              "Anime/Manga" "Futuristic/Sci-Fi") as [Htext _].
  destruct (prompt_that_is_no_json_object numberPromptEnv "42"
              "Anime/Manga" "Futuristic/Sci-Fi") as [_ Hnumber].
  split.
  - exact (Htext "Unexpected token" eq_refl).
  - refine (Hnumber (JNum 42) eq_refl _). intros fields H. discriminate H.
Defined.

Section CharacterCanon.

Variable E : Env.



End CharacterCanon.



(* ================================================================== *)
(** ** handleComicGeneration: failures *)

Lemma mapChars_append (f : ascii -> ascii) (a b : string) :
  mapChars f (a ++ b) = mapChars f a ++ mapChars f b.
Proof. induction a as [|x a IH]; simpl; [reflexivity | now rewrite IH]. Qed.

Lemma nonEmpty_trim (s : string) : nonEmpty (trim s) = true -> nonEmpty s = true.
Proof. destruct s; [discriminate | reflexivity]. Qed.

Lemma nonEmpty_prefix (m s : string) :
  nonEmpty m = true -> String.prefix m s = true -> nonEmpty s = true.
Proof. destruct m; [discriminate|]. destruct s; [discriminate | reflexivity]. Qed.

Lemma nonEmpty_append (a b : string) : nonEmpty a = true -> nonEmpty (a ++ b) = true.
Proof. destruct a; [discriminate | reflexivity]. Qed.

(** The message of the generic branch of the [catch] block mentions the API
    key, so [handleComicGeneration] adds its hint to it. *)
Lemma generic_failure_mentions_key (tm msg : string) :
  includes
    (toLowerCase ("Failed to generate scene prompts (model: " ++ tm ++ "). Error: " ++ msg ++
                  ". Ensure API key is valid and model is accessible."))
    "api key" = true.
Proof.
  unfold toLowerCase. rewrite !mapChars_append.
  change (mapChars lowerChar ". Ensure API key is valid and model is accessible.")
    with (". ensure " ++ "api key" ++ " is valid and model is accessible.").
  rewrite <- !append_assoc. rewrite !append_assoc.
  match goal with
  | |- includes (?a ++ ?b ++ ?c ++ ?d ++ ?e ++ "api key" ++ ?f) _ = true =>
      replace (a ++ b ++ c ++ d ++ e ++ "api key" ++ f)
        with ((a ++ b ++ c ++ d ++ e) ++ "api key" ++ f)
        by (now rewrite !append_assoc)
  end.
  apply includes_append.
Qed.

Section FailedSceneStep.

Variable E : Env.
Variable options : StoryInputOptions.
Variable st : AppState.
Variable w : World.

Hypothesis key_given : nonEmpty (trim (apiKey st)) = true.

Let st1 := setCurrentAspectRatio (aspectRatio options)
             (setComicPanels (fun _ => [])
                (setError (fun _ => None) (setIsLoading true st))).

Lemma run_after_throw (e : Thrown) :
  fst (generateScenePrompts E (apiKey st) options w) = Throw e ->
  handleComicGeneration E options st w =
    mkRun None [] (setIsLoading false (generationFailed e st1),
                   afterSceneCall E (apiKey st) options w).
Proof.
  intros Hgen. unfold handleComicGeneration. rewrite key_given. cbn [negb].
  rewrite (generateScenePrompts_any E options (apiKey st) w (nonEmpty_trim _ key_given))
    in *.
  cbn [fst] in Hgen. rewrite Hgen. reflexivity.
Qed.

Lemma run_after_no_scene :
  fst (generateScenePrompts E (apiKey st) options w) = Ok [] ->
  handleComicGeneration E options st w =
    mkRun None []
      (setIsLoading false
         (generationFailed
            (newError "No scene prompts generated. Story might be too short or API issue. Check API key & story.")
            st1),
       afterSceneCall E (apiKey st) options w).
Proof.
  intros Hgen. unfold handleComicGeneration. rewrite key_given. cbn [negb].
  rewrite (generateScenePrompts_any E options (apiKey st) w (nonEmpty_trim _ key_given))
    in *.
  cbn [fst] in Hgen. rewrite Hgen. reflexivity.
Qed.

End FailedSceneStep.

(** X13.  When the scene step fails, or succeeds with an empty scene list,
    the run is aborted: the image loop is not entered, the world holds the one
    text request and no image request, the store is empty, the loading flag is
    off and an error is shown.  For an empty scene list the error shown is the
    sentence about missing scene prompts followed by the API key hint, since
    that sentence itself mentions the API key.  For an error of the text
    endpoint that reads neither as a key error nor as a parse error, it is the
    message of the service wrapped around the endpoint's own, again followed
    by the hint. *)
Theorem failed_scene_step_aborts_the_run
    (E : Env) (options : StoryInputOptions) (st : AppState) (w : World) :
  nonEmpty (trim (apiKey st)) = true ->
  (forall panels,
     fst (generateScenePrompts E (apiKey st) options w) = Ok panels -> panels = []) ->
  let run := handleComicGeneration E options st w in
  loopStart run = None /\
  passes run = [] /\
  comicPanels (fst (final run)) = [] /\
  isLoading (fst (final run)) = false /\
  snd (final run) = afterSceneCall E (apiKey st) options w /\
  optTruthy (error (fst (final run))) = true /\
  (fst (generateScenePrompts E (apiKey st) options w) = Ok [] ->
   error (fst (final run)) =
     Some ("No scene prompts generated. Story might be too short or API issue. Check API key & story."
           ++ keyHint)) /\
  (forall e0,
     generateContent E (calls w) (sceneRequest E options) = Throw e0 ->
     kind e0 = KError ->
     isApiKeyError (message e0) = false ->
     (includes (toLowerCase (message e0)) "json"
      || includes (toLowerCase (message e0)) "unexpected token"
      || includes (toLowerCase (message e0)) "malformed")%bool = false ->
     error (fst (final run)) =
       Some ("Failed to generate scene prompts (model: " ++
             textModelValue (textModel options) ++ "). Error: " ++ message e0 ++
             ". Ensure API key is valid and model is accessible." ++ keyHint)).
Proof.
  intros Hkey Hnone run.
  pose proof (generateScenePrompts_any E options (apiKey st) w (nonEmpty_trim _ Hkey))
    as Hany.
  destruct (fst (generateScenePrompts E (apiKey st) options w)) as [panels|e] eqn:Hgen.
  - rewrite (Hnone panels eq_refl) in Hgen.
    unfold run. rewrite (run_after_no_scene E options st w Hkey Hgen).
    cbn [loopStart passes final fst snd].
    do 5 (split; [reflexivity|]).
    split; [vm_compute; reflexivity|].
    split; [intros _; vm_compute; reflexivity|].
    intros e0 H0. exfalso.
    rewrite Hany in Hgen. cbn [fst] in Hgen. unfold sceneTry in Hgen.
    cbv beta iota zeta delta [bind callGenerateContent] in Hgen. cbn [calls] in Hgen.
    unfold sceneRequest in H0. rewrite H0 in Hgen. discriminate.
  - unfold run. rewrite (run_after_throw E options st w Hkey e Hgen).
    cbn [loopStart passes final fst snd].
    do 5 (split; [reflexivity|]).
    rewrite Hany in Hgen. cbn [fst] in Hgen.
    destruct (fst (sceneTry E options _)) as [ps|e1] eqn:Htry; [discriminate|].
    injection Hgen as <-.
    destruct (sceneCatch_shape options e1) as (Hkind & Hprefix & _).
    unfold generationFailed, instanceofError. rewrite Hkind.
    cbn [setIsLoading setComicPanels setError error].
    split; [|split; [discriminate|]].
    + cbn [optTruthy].
      assert (Hne : nonEmpty (message (sceneCatch options e1)) = true)
        by (now apply (nonEmpty_prefix "Failed to ")).
      destruct (_ || _)%bool; [now apply nonEmpty_append | exact Hne].
    + intros e0 H0 Hk0 Hnokey Hnoparse.
      unfold sceneTry in Htry.
      cbv beta iota zeta delta [bind callGenerateContent] in Htry. cbn [calls] in Htry.
      unfold sceneRequest in H0. rewrite H0 in Htry. cbn [fst] in Htry.
      injection Htry as <-.
      unfold sceneCatch, instanceofError, instanceofSyntaxError, isApiKeyError in *.
      rewrite Hk0, Hnokey. cbn [orb]. rewrite Hnoparse. cbn [message newError].
      rewrite generic_failure_mentions_key. cbn [orb].
      rewrite !append_assoc. reflexivity.
Qed.

Lemma failed_scene_step_aborts_the_run_witness :
  error (fst (final (handleComicGeneration alwaysBusyEnv (options3 IMAGEN_3 true IN_UI)
                       (app0 "key") world0))) =
    Some ("Failed to generate scene prompts (model: gemini-2.5-flash). Error: " ++
          "got status: 500 INTERNAL" ++
          ". Ensure API key is valid and model is accessible." ++ keyHint) /\
  requestsOf (trace (snd (final (handleComicGeneration alwaysBusyEnv
                                   (options3 IMAGEN_3 true IN_UI) (app0 "key") world0)))) =
    [EvGenerateContent (sceneRequest alwaysBusyEnv (options3 IMAGEN_3 true IN_UI))].
Proof.
  destruct (failed_scene_step_aborts_the_run alwaysBusyEnv (options3 IMAGEN_3 true IN_UI)
              (app0 "key") world0 eq_refl)
    as (_ & _ & _ & _ & Hworld & _ & _ & Hbanner).
  - intros panels H. discriminate H.
  - split.
    + exact (Hbanner (mkThrown KError "got status: 500 INTERNAL")
               eq_refl eq_refl eq_refl eq_refl).
    + rewrite Hworld. reflexivity.
Defined.

(* ================================================================== *)
(** ** handleComicGeneration: the error banner *)

Lemma last_cons {A} (a d : A) (l : list A) : last (a :: l) d = last l a.
Proof.
  revert a d. induction l as [|b l IH]; intros a d; [reflexivity|].
  change (last (a :: b :: l) d) with (last (b :: l) d).
  now rewrite (IH b d), (IH b a).
Qed.

Lemma join_snoc (sep x : string) (l : list string) :
  l <> [] -> join sep (l ++ [x]) = join sep l ++ sep ++ x.
Proof.
  induction l as [|a l IH]; [congruence|]. intros _.
  destruct l as [|b l].
  - reflexivity.
  - change (join sep ((a :: b :: l) ++ [x])) with (a ++ sep ++ join sep ((b :: l) ++ [x])).
    rewrite IH by discriminate.
    change (join sep (a :: b :: l)) with (a ++ sep ++ join sep (b :: l)).
    now rewrite !append_assoc.
Qed.

Lemma join_nonEmpty (sep : string) (l : list string) :
  l <> [] -> Forall (fun x => nonEmpty x = true) l -> nonEmpty (join sep l) = true.
Proof.
  destruct l as [|a l]; [congruence|]. intros _ H.
  inversion H as [|? ? Ha _]; subst. destruct l; [exact Ha|].
  change (join sep (a :: s :: l)) with (a ++ sep ++ join sep (s :: l)).
  now apply nonEmpty_append.
Qed.

Lemma errorLine_nonEmpty (panel : ComicPanelData) (e : Thrown) :
  nonEmpty (errorLine panel e) = true.
Proof. reflexivity. Qed.

Section ErrorBanner.

Variable E : Env.
Variable options : StoryInputOptions.
Variable key : string.

(** The banner after one pass: a failure adds its line, a success adds
    nothing. *)
Lemma panelPass_error (i : nat) (panel : ComicPanelData) (sw : AppState * World)
    (lines : list string) :
  Forall (fun x => nonEmpty x = true) lines ->
  error (fst sw) = banner lines ->
  let new := errorLines (passOutcomes E options key [panel] [sw]) in
  error (fst (panelPass E options key i panel sw)) = banner (lines ++ new) /\
  Forall (fun x => nonEmpty x = true) (lines ++ new).
Proof.
  intros Hlines Herr. destruct sw as [st w]. cbn [fst] in Herr.
  unfold passOutcomes, errorLines, panelPass.
  cbn [combine map flat_map fst snd].
  destruct (Image.generateImageForPrompt E key _ _ _ _ _ w) as [[url|e] w'];
    cbn [fst snd List.app].
  - rewrite app_nil_r. split; [exact Herr | exact Hlines].
  - split.
    + cbn [setError setComicPanels error]. rewrite Herr.
      destruct lines as [|l ls]; [reflexivity|].
      assert (Hb : banner ((l :: ls) ++ [errorLine panel e]) =
                   Some (join newline (l :: ls) ++ newline ++ errorLine panel e)).
      { rewrite <- join_snoc by discriminate. reflexivity. }
      rewrite Hb. unfold banner. cbn [optTruthy optText].
      rewrite (join_nonEmpty newline (l :: ls)); [reflexivity | discriminate | exact Hlines].
    + apply Forall_app. split; [exact Hlines|]. constructor; [reflexivity | constructor].
Qed.

Lemma imageLoop_error (todo : list ComicPanelData) :
  forall (i : nat) (sw : AppState * World) (lines : list string),
    Forall (fun x => nonEmpty x = true) lines ->
    error (fst sw) = banner lines ->
    error (fst (last (imageLoop E options key i todo sw) sw)) =
      banner (lines ++
              errorLines (passOutcomes E options key todo
                            (sw :: imageLoop E options key i todo sw))).
Proof.
  induction todo as [|panel rest IH]; intros i sw lines Hlines Herr.
  - cbn. now rewrite app_nil_r.
  - cbn [imageLoop]. rewrite last_cons.
    destruct (panelPass_error i panel sw lines Hlines Herr) as [Hnext Hall].
    rewrite (IH (S i) _ _ Hall Hnext).
    f_equal. rewrite <- app_assoc. f_equal.
    unfold passOutcomes, errorLines. cbn [combine map flat_map].
    now rewrite app_nil_r.
Qed.

End ErrorBanner.

(** X14.  After a run that got scenes, the error state lists the panels
    whose image generation threw, in order, one line per panel, each made of
    the panel's number and the message of its error, the lines joined by
    newlines; it is null exactly when every image generation returned. *)
Theorem error_banner_lists_the_failed_panels
    (E : Env) (options : StoryInputOptions) (st : AppState) (w w1 : World)
    (scenePrompts : list ComicPanelData) :
  nonEmpty (trim (apiKey st)) = true ->
  generateScenePrompts E (apiKey st) options w = (Ok scenePrompts, w1) ->
  scenePrompts <> [] ->
  let run := handleComicGeneration E options st w in
  exists start,
    loopStart run = Some start /\
    let outcomes := passOutcomes E options (apiKey st) scenePrompts (start :: passes run) in
    List.length outcomes = List.length scenePrompts /\
    error (fst (final run)) = banner (errorLines outcomes) /\
    (error (fst (final run)) = None <->
     Forall (fun o => exists url, snd o = Ok url) outcomes).
Proof.
  intros Hkey Hgen Hne run.
  unfold run, handleComicGeneration. rewrite Hkey, Hgen. cbn [negb].
  destruct scenePrompts as [|p0 rest] eqn:Hsp; [congruence|]. rewrite <- Hsp in *.
  set (st1 := setCurrentAspectRatio _ _).
  set (start := (setComicPanels (fun _ => map (fun p => withImageUrl p None) scenePrompts)
                   st1, w1)).
  pose proof (imageLoop_error E options (apiKey st) scenePrompts 0 start []
                (Forall_nil _) eq_refl) as Hbanner.
  cbn [List.app] in Hbanner.
  set (ps := imageLoop E options (apiKey st) 0 scenePrompts start) in *.
  exists start.
  destruct (last ps start) as [stN wN] eqn:Hlast.
  cbn [loopStart passes final fst snd setIsLoading error] in *.
  split; [reflexivity|].
  set (outcomes := passOutcomes E options (apiKey st) scenePrompts (start :: ps)) in *.
  split.
  { unfold outcomes, passOutcomes. rewrite length_map, length_combine.
    cbn [List.length]. unfold ps.
    assert (Hlen : forall todo i sw,
              List.length (imageLoop E options (apiKey st) i todo sw) = List.length todo).
    { induction todo as [|x todo IH]; intros i sw; cbn; [reflexivity | now rewrite IH]. }
    rewrite Hlen. lia. }
  split; [exact Hbanner|].
  rewrite Hbanner. clear. split.
  - induction outcomes as [|[panel [url|e]] os IH]; intros H; constructor.
    + now exists url.
    + apply IH. exact H.
    + cbn in H. destruct (errorLines os); discriminate.
    + cbn in H. destruct (errorLines os); discriminate.
  - induction 1 as [|[panel r] os [url Hr] _ IH]; [reflexivity|].
    cbn [snd] in Hr. subst r. exact IH.
Qed.

Lemma error_banner_lists_the_failed_panels_witness :
  error (fst (final plainRun)) =
    Some ("Error on panel 2: API call failed for model 'imagen-3.0-generate-002' " ++
          "(attempt 1/3). Original error: 400 Bad Request").
Proof.
  destruct (error_banner_lists_the_failed_panels plainScenesEnv
              (options3 IMAGEN_3 true IN_UI) (app0 "key") world0
              (afterSceneCall plainScenesEnv "key" (options3 IMAGEN_3 true IN_UI) world0)
              [mkPanel (JNum 1) (JStr "A cat") (JStr EmptyString) [] None (Some "{}");
               mkPanel (JNum 2) (JStr "A hat") (JStr EmptyString) [] None (Some "{}")]
              eq_refl eq_refl)
    as (start & Hstart & _ & Hbanner & _).
  - discriminate.
  - vm_compute in Hstart. injection Hstart as <-.
    unfold plainRun. rewrite Hbanner. vm_compute. reflexivity.
Defined.

(* ================================================================== *)
(** ** handleComicGeneration: the store at the end of a run *)

Lemma markPanels_nth_any (i : nat) (panel : ComicPanelData) (url : string)
    (store : list ComicPanelData) :
  forall j0 j,
    nth_error (markPanels j0 i panel url store) j =
      option_map (fun p => if strictEq (Nat.eqb (j0 + j) i)
                                (scene_number p) (scene_number panel)
                           then withImageUrl p (Some url) else p)
                 (nth_error store j).
Proof.
  induction store as [|p store IH]; intros j0 j.
  - destruct j; reflexivity.
  - cbn [markPanels]. destruct j as [|j].
    + cbn. now rewrite Nat.add_0_r.
    + cbn [nth_error]. rewrite (IH (S j0) j). now rewrite Nat.add_succ_r.
Qed.

Section SettledStore.

Variable E : Env.
Variable options : StoryInputOptions.
Variable key : string.
Variable scenePrompts : list ComicPanelData.

Lemma passValue_settled (panel : ComicPanelData) (w : World) :
  passValue E options key panel w = "error" \/
  String.prefix "data:" (passValue E options key panel w) = true.
Proof.
  unfold passValue.
  destruct (fst (Image.generateImageForPrompt E key _ _ _ _ _ w)) as [url|e] eqn:Hrun.
  - right. exact (image_result_is_data_url E key _ _ _ _ _ w url Hrun).
  - now left.
Qed.

Lemma panelPass_settles (i : nat) (panel : ComicPanelData) (sw : AppState * World) :
  nth_error scenePrompts i = Some panel ->
  storeSettled scenePrompts i (comicPanels (fst sw)) ->
  storeSettled scenePrompts (S i) (comicPanels (fst (panelPass E options key i panel sw))).
Proof.
  intros Hi [Hsn Hinv]. destruct sw as [st w].
  destruct (panelPass_store E options key i panel st w) as [Hstore _].
  cbn [fst] in *. rewrite Hstore.
  set (v := passValue E options key panel w).
  pose proof (passValue_settled panel w) as Hv. fold v in Hv.
  pose proof (markPanels_nth_any i panel v (comicPanels st) 0) as Hnth.
  cbn [Nat.add] in Hnth.
  split.
  - rewrite <- Hsn. apply map_eq_of_nth. intros j. rewrite Hnth.
    destruct (nth_error (comicPanels st) j) as [x|]; cbn; [|reflexivity].
    destruct (strictEq _ _ _); reflexivity.
  - intros j p' Hp'. rewrite Hnth in Hp'.
    destruct (nth_error (comicPanels st) j) as [p|] eqn:Hp; [|discriminate].
    cbn [option_map] in Hp'. injection Hp' as <-.
    destruct (Hinv j p Hp) as [Hany Hbefore].
    assert (Hmarked : settled (withImageUrl p (Some v))) by (exists v; split; auto).
    destruct (strictEq (Nat.eqb j i) (scene_number p) (scene_number panel)) eqn:Heq.
    + split; [now right | intros _; exact Hmarked].
    + split; [exact Hany|]. intros Hj.
      destruct (Nat.eq_dec j i) as [-> | Hne]; [|apply Hbefore; lia].
      exfalso.
      assert (Hsame : scene_number p = scene_number panel).
      { assert (H : nth_error (map scene_number (comicPanels st)) i
                    = nth_error (map scene_number scenePrompts) i) by now rewrite Hsn.
        rewrite !nth_error_map, Hp, Hi in H. now injection H. }
      rewrite Hsame, Nat.eqb_refl, strictEq_same in Heq. discriminate.
Qed.

Lemma imageLoop_settles (todo : list ComicPanelData) :
  forall (i : nat) (sw : AppState * World),
    (forall k panel, nth_error todo k = Some panel ->
                     nth_error scenePrompts (i + k) = Some panel) ->
    storeSettled scenePrompts i (comicPanels (fst sw)) ->
    storeSettled scenePrompts (i + List.length todo)
      (comicPanels (fst (last (imageLoop E options key i todo sw) sw))).
Proof.
  induction todo as [|panel todo IH]; intros i sw Hpos Hst.
  - cbn. now rewrite Nat.add_0_r.
  - cbn [imageLoop List.length]. rewrite last_cons, Nat.add_succ_r.
    apply (IH (S i)).
    + intros k q Hq. specialize (Hpos (S k) q Hq). now rewrite Nat.add_succ_r in Hpos.
    + apply panelPass_settles; [|exact Hst].
      specialize (Hpos 0%nat panel eq_refl). now rewrite Nat.add_0_r in Hpos.
Qed.

End SettledStore.

Lemma settled_is_not_pending (p : ComicPanelData) :
  settled p -> panelImage p <> ShowGenerating.
Proof.
  intros (u & Hu & [-> | Hdata]); unfold panelImage; rewrite Hu.
  - discriminate.
  - cbn [optTruthy optText].
    destruct u as [|c r]; [discriminate|]. cbn [nonEmpty andb].
    destruct (String.eqb (String c r) "error") eqn:Heq; cbn [negb]; [|discriminate].
    apply String.eqb_eq in Heq. rewrite Heq in Hdata. discriminate.
Qed.

(** X15.  A run that got scenes leaves no panel pending, whatever the scene
    numbers are and whatever the image endpoint answers: at the end the store
    has the panels of the scene list, each with the error marker or a data
    URL in its image slot, so the comic display shows one panel per scene,
    each with its image or the error sign and none with the hourglass; the
    loading flag is off, and a click on the download button exports a
    document. *)
Theorem run_leaves_no_panel_pending
    (E : Env) (options : StoryInputOptions) (st : AppState) (w w1 : World)
    (scenePrompts : list ComicPanelData) :
  nonEmpty (trim (apiKey st)) = true ->
  generateScenePrompts E (apiKey st) options w = (Ok scenePrompts, w1) ->
  scenePrompts <> [] ->
  let run := handleComicGeneration E options st w in
  map scene_number (comicPanels (fst (final run))) = map scene_number scenePrompts /\
  Forall settled (comicPanels (fst (final run))) /\
  (exists views,
     comicDisplay (comicPanels (fst (final run))) = Some views /\
     List.length views = List.length scenePrompts /\
     Forall (fun v => fst v <> ShowGenerating) views) /\
  isLoading (fst (final run)) = false /\
  fst (handleDownloadPdf E (fst (final run))) <> None.
Proof.
  intros Hkey Hgen Hne run.
  unfold run, handleComicGeneration. rewrite Hkey, Hgen. cbn [negb].
  destruct scenePrompts as [|p0 rest] eqn:Hsp; [congruence|]. rewrite <- Hsp in *.
  set (st1 := setCurrentAspectRatio _ _).
  set (start := (setComicPanels (fun _ => map (fun p => withImageUrl p None) scenePrompts)
                   st1, w1)).
  assert (Hstore : storeSettled scenePrompts 0 (comicPanels (fst start))).
  { cbn. split.
    - rewrite map_map. apply map_ext. reflexivity.
    - intros j p Hp. rewrite nth_error_map in Hp.
      destruct (nth_error scenePrompts j); [|discriminate]. injection Hp as <-.
      split; [now left | lia]. }
  pose proof (imageLoop_settles E options (apiKey st) scenePrompts scenePrompts 0 start
                (fun k panel H => H) Hstore) as [Hsn Hinv].
  cbn [Nat.add] in Hinv.
  destruct (last (imageLoop E options (apiKey st) 0 scenePrompts start) start)
    as [stN wN] eqn:Hlast.
  cbn [final fst snd setIsLoading comicPanels isLoading] in *.
  assert (Hlen : List.length (comicPanels stN) = List.length scenePrompts).
  { rewrite <- (length_map scene_number (comicPanels stN)), Hsn. apply length_map. }
  assert (Hall : Forall settled (comicPanels stN)).
  { apply Forall_forall. intros p Hp. apply In_nth_error in Hp as [j Hj].
    apply (Hinv j p Hj). rewrite <- Hlen. apply nth_error_Some. congruence. }
  split; [exact Hsn|]. split; [exact Hall|].
  split.
  { exists (map (fun panel => (panelImage panel, panelText panel)) (comicPanels stN)).
    split; [|split].
    - unfold comicDisplay. rewrite Hlen, Hsp. reflexivity.
    - rewrite length_map. exact Hlen.
    - apply Forall_map. cbn [fst].
      eapply Forall_impl; [|exact Hall]. apply settled_is_not_pending. }
  split; [reflexivity|].
  unfold handleDownloadPdf, setIsLoading. cbn [comicPanels isLoading].
  destruct (comicPanels stN) as [|q qs]; [|cbn; discriminate].
  rewrite Hsp in Hlen. discriminate.
Qed.

Lemma run_leaves_no_panel_pending_witness :
  map panelImage (comicPanels (fst (final twinRun))) = [ShowImageError; ShowImageError] /\
  Forall settled (comicPanels (fst (final twinRun))).
Proof.
  split; [vm_compute; reflexivity|].
  refine (proj1 (proj2
    (run_leaves_no_panel_pending twinScenesEnv (options3 IMAGEN_3 true IN_UI) (app0 "key")
       world0 (afterSceneCall twinScenesEnv "key" (options3 IMAGEN_3 true IN_UI) world0)
       [mkPanel (JNum 1) (JStr "A cat") (JStr EmptyString) [] None (Some "{}");
        mkPanel (JNum 1) (JStr "A hat") (JStr EmptyString) [] None (Some "{}")]
       eq_refl eq_refl _))).
  discriminate.
Defined.

Section FinalSlots.

Variable E : Env.
Variable options : StoryInputOptions.
Variable key : string.

(** Later passes leave the slots of earlier panels alone. *)
Lemma passSteps_keep (todo : list ComicPanelData) :
  forall (i : nat) (prev : AppState * World) (ps : list (AppState * World)),
    passSteps E options key i prev ps todo ->
    forall j, (j < i)%nat -> slot j (fst (last ps prev)) = slot j (fst prev).
Proof.
  induction todo as [|panel todo IH]; intros i prev ps H j Hj.
  - destruct ps; [reflexivity | contradiction].
  - destruct ps as [|next ps]; [contradiction|]. destruct H as [Hstep Hrest].
    rewrite last_cons. rewrite (IH (S i) next ps Hrest j) by lia.
    destruct Hstep as (_ & _ & _ & Hother). apply Hother. lia.
Qed.

(** At the end of the loop the slot of each panel holds what its own pass put
    there. *)
Lemma passSteps_final (todo : list ComicPanelData) :
  forall (i : nat) (prev : AppState * World) (ps : list (AppState * World)),
    passSteps E options key i prev ps todo ->
    forall k panel s,
      nth_error todo k = Some panel ->
      nth_error (prev :: ps) k = Some s ->
      slot (i + k) (fst (last ps prev)) =
        Some (Some (passValue E options key panel (snd s))).
Proof.
  induction todo as [|panel todo IH]; intros i prev ps H k q s Hq Hs.
  - destruct k; discriminate.
  - destruct ps as [|next ps]; [contradiction|]. destruct H as [Hstep Hrest].
    rewrite last_cons. destruct k as [|k].
    + cbn in Hq, Hs. injection Hq as <-. injection Hs as <-.
      rewrite Nat.add_0_r.
      rewrite (passSteps_keep todo (S i) next ps Hrest i) by lia.
      destruct Hstep as (_ & _ & Hset & _). exact Hset.
    + cbn [nth_error] in Hq, Hs. rewrite Nat.add_succ_r.
      exact (IH (S i) next ps Hrest k q s Hq Hs).
Qed.

(** The events of the image loop: three requests and two delays per panel
    at most. *)
Lemma imageLoop_trace (todo : list ComicPanelData) :
  forall (i : nat) (sw : AppState * World),
  exists evs,
    trace (snd (last (imageLoop E options key i todo sw) sw)) = (trace (snd sw) ++ evs)%list /\
    (List.length (requestsOf evs) <= 3 * List.length todo)%nat /\
    (List.length (delaysOf evs) <= 2 * List.length todo)%nat.
Proof.
  induction todo as [|panel todo IH]; intros i sw.
  - exists []. cbn. rewrite app_nil_r. repeat split; lia.
  - cbn [imageLoop]. rewrite last_cons.
    destruct (IH (S i) (panelPass E options key i panel sw)) as (evs2 & Htr2 & Hreq2 & Hdel2).
    destruct sw as [st w].
    destruct (panelPass_store E options key i panel st w) as [_ Hworld].
    destruct (generateImageForPrompt_trace E key (toStr (image_prompt panel))
                (aspectRatio options) (imageModelValue (imageModel options))
                (styleValue (style options)) (eraValue (era options)) w)
      as (evs1 & Htr1 & Hreq1 & d & Hd & Hdel1).
    exists (evs1 ++ evs2)%list. rewrite Htr2, Hworld, Htr1. cbn [snd].
    split; [now rewrite app_assoc|].
    rewrite requestsOf_app, delaysOf_app, !length_app, Hdel1.
    unfold retryDelays. rewrite length_map, length_seq. cbn [List.length]. lia.
Qed.

End FinalSlots.

(** X16.  In a run whose scene prompts carry pairwise different scene
    numbers, every panel ends with the result of its own pass: the image slot
    at position k holds the URL the image generation for panel k returned, or
    the error marker, and it holds the error marker exactly when that image
    generation threw. *)
Theorem error_marker_is_on_the_failed_panels
    (E : Env) (options : StoryInputOptions) (st : AppState) (w w1 : World)
    (scenePrompts : list ComicPanelData) :
  nonEmpty (trim (apiKey st)) = true ->
  generateScenePrompts E (apiKey st) options w = (Ok scenePrompts, w1) ->
  scenePrompts <> [] ->
  distinctSceneNumbers scenePrompts ->
  let run := handleComicGeneration E options st w in
  exists start,
    loopStart run = Some start /\
    forall k panel prev,
      nth_error scenePrompts k = Some panel ->
      nth_error (start :: passes run) k = Some prev ->
      slot k (fst (final run)) =
        Some (Some (passValue E options (apiKey st) panel (snd prev))) /\
      (slot k (fst (final run)) = Some (Some "error") <->
       exists e,
         fst (Image.generateImageForPrompt E (apiKey st) (toStr (image_prompt panel))
                (aspectRatio options) (imageModelValue (imageModel options))
                (styleValue (style options)) (eraValue (era options)) (snd prev))
           = Throw e).
Proof.
  intros Hkey Hgen Hne Hdistinct run.
  unfold run, handleComicGeneration. rewrite Hkey, Hgen. cbn [negb].
  destruct scenePrompts as [|p0 rest] eqn:Hsp; [congruence|]. rewrite <- Hsp in *.
  set (st1 := setCurrentAspectRatio _ _).
  set (start := (setComicPanels (fun _ => map (fun p => withImageUrl p None) scenePrompts)
                   st1, w1)).
  assert (Hstore : storeAt scenePrompts 0 (comicPanels (fst start))).
  { cbn. split.
    - rewrite map_map. apply map_ext. reflexivity.
    - intros j p _ Hp. rewrite nth_error_map in Hp.
      destruct (nth_error scenePrompts j); [|discriminate]. now injection Hp as <-. }
  pose proof (imageLoop_steps E options (apiKey st) scenePrompts Hdistinct scenePrompts
                0 start (fun k panel H => H) Hstore) as Hsteps.
  pose proof (passSteps_final E options (apiKey st) scenePrompts 0 start _ Hsteps) as Hfinal.
  set (ps := imageLoop E options (apiKey st) 0 scenePrompts start) in *.
  exists start.
  destruct (last ps start) as [stN wN] eqn:Hlast.
  cbn [loopStart passes final fst snd] in *.
  split; [reflexivity|].
  intros k panel prev Hpanel Hprev.
  specialize (Hfinal k panel prev Hpanel Hprev). cbn [Nat.add] in Hfinal.
  assert (Hslot : slot k (setIsLoading false stN) = slot k stN) by reflexivity.
  rewrite Hslot, Hfinal. split; [reflexivity|].
  unfold passValue.
  destruct (fst (Image.generateImageForPrompt E (apiKey st) _ _ _ _ _ (snd prev)))
    as [url|e] eqn:Hrun.
  - split.
    + intros H. injection H as ->.
      apply image_result_is_data_url in Hrun. discriminate.
    + intros [e He]. discriminate.
  - split; [intros _; now exists e | reflexivity].
Qed.

Lemma error_marker_is_on_the_failed_panels_witness :
  map (fun k => slot k (fst (final plainRun))) [0%nat; 1%nat] =
    [Some (Some "data:image/jpeg;base64,AAAA"); Some (Some "error")] /\
  exists start, loopStart plainRun = Some start.
Proof.
  split; [vm_compute; reflexivity|].
  destruct (error_marker_is_on_the_failed_panels plainScenesEnv
              (options3 IMAGEN_3 true IN_UI) (app0 "key") world0
              (afterSceneCall plainScenesEnv "key" (options3 IMAGEN_3 true IN_UI) world0)
              [mkPanel (JNum 1) (JStr "A cat") (JStr EmptyString) [] None (Some "{}");
               mkPanel (JNum 2) (JStr "A hat") (JStr EmptyString) [] None (Some "{}")]
              eq_refl eq_refl)
    as (start & Hstart & _).
  - discriminate.
  - intros i j p q Hij Hi Hj.
    destruct i as [|[|i]], j as [|[|j]]; cbn in Hi, Hj;
      try congruence; try (destruct i; discriminate); try (destruct j; discriminate);
      injection Hi as <-; injection Hj as <-; reflexivity.
  - exists start. exact Hstart.
Defined.

(** X17.  A run over n panels costs one text request and at most 3n image
    requests, and sleeps at most 2n times: the events of the run are the
    client and the request of the scene step followed by those of the image
    loop, which hold no more than three requests and two delays per panel. *)
Theorem run_makes_at_most_three_requests_per_panel
    (E : Env) (options : StoryInputOptions) (st : AppState) (w w1 : World)
    (scenePrompts : list ComicPanelData) :
  nonEmpty (trim (apiKey st)) = true ->
  generateScenePrompts E (apiKey st) options w = (Ok scenePrompts, w1) ->
  scenePrompts <> [] ->
  exists evs,
    trace (snd (final (handleComicGeneration E options st w))) =
      (trace w ++ [EvNewClient (apiKey st); EvGenerateContent (sceneRequest E options)]
       ++ evs)%list /\
    (List.length (requestsOf evs) <= 3 * List.length scenePrompts)%nat /\
    (List.length (delaysOf evs) <= 2 * List.length scenePrompts)%nat.
Proof.
  intros Hkey Hgen Hne.
  assert (Hw1 : w1 = afterSceneCall E (apiKey st) options w).
  { rewrite (generateScenePrompts_any E options (apiKey st) w (nonEmpty_trim _ Hkey)) in Hgen.
    now injection Hgen. }
  unfold handleComicGeneration. rewrite Hkey, Hgen. cbn [negb].
  destruct scenePrompts as [|p0 rest] eqn:Hsp; [congruence|]. rewrite <- Hsp in *.
  set (st1 := setCurrentAspectRatio _ _).
  set (start := (setComicPanels (fun _ => map (fun p => withImageUrl p None) scenePrompts)
                   st1, w1)).
  destruct (imageLoop_trace E options (apiKey st) scenePrompts 0 start)
    as (evs & Htr & Hreq & Hdel).
  destruct (last (imageLoop E options (apiKey st) 0 scenePrompts start) start)
    as [stN wN] eqn:Hlast.
  cbn [final fst snd] in *.
  exists evs. rewrite Htr. unfold start. cbn [snd]. rewrite Hw1.
  unfold afterSceneCall. cbn [trace].
  split; [now rewrite <- app_assoc|]. split; [exact Hreq | exact Hdel].
Qed.

Lemma run_makes_at_most_three_requests_per_panel_witness :
  exists evs,
    trace (snd (final plainRun)) =
      (trace world0 ++
       [EvNewClient "key";
        EvGenerateContent (sceneRequest plainScenesEnv (options3 IMAGEN_3 true IN_UI))]
       ++ evs)%list /\
    (List.length (requestsOf evs) <= 3 * 2)%nat /\
    (List.length (delaysOf evs) <= 2 * 2)%nat.
Proof.
  refine (run_makes_at_most_three_requests_per_panel plainScenesEnv
            (options3 IMAGEN_3 true IN_UI) (app0 "key") world0
            (afterSceneCall plainScenesEnv "key" (options3 IMAGEN_3 true IN_UI) world0)
            [mkPanel (JNum 1) (JStr "A cat") (JStr EmptyString) [] None (Some "{}");
             mkPanel (JNum 2) (JStr "A hat") (JStr EmptyString) [] None (Some "{}")]
            eq_refl eq_refl _).
  discriminate.
Defined.

(* ================================================================== *)
(** ** The progress display and the form *)

Section Progress.

Local Open Scope Q_scope.

Lemma progress_fraction (i totalPanels : nat) :
  (i < totalPanels)%nat ->
  0 < inject_Z (Z.of_nat totalPanels) /\
  0 < inject_Z (Z.of_nat i + 1) / inject_Z (Z.of_nat totalPanels) /\
  inject_Z (Z.of_nat i + 1) / inject_Z (Z.of_nat totalPanels) <= 1.
Proof.
  intros Hi.
  assert (Ht : 0 < inject_Z (Z.of_nat totalPanels)).
  { change 0 with (inject_Z 0). rewrite <- Zlt_Qlt. lia. }
  split; [exact Ht|]. split.
  - apply Qlt_shift_div_l; [exact Ht|]. rewrite Qmult_0_l.
    change 0 with (inject_Z 0). rewrite <- Zlt_Qlt. lia.
  - apply Qle_shift_div_r; [exact Ht|]. rewrite Qmult_1_l.
    rewrite <- Zle_Qle. lia.
Qed.

End Progress.

(** X18.  While the image of panel i of n is generated (i counted from 0,
    i < n) the percentage shown lies above 10 and at most at 100, it grows
    with i, and it is 100 exactly for the last panel; the rounded figure the
    spinner prints lies between 10 and 100. *)
Theorem progress_rises_to_one_hundred (i totalPanels : nat) :
  (i < totalPanels)%nat ->
  (10 < panelProgressPercentage i totalPanels /\
   panelProgressPercentage i totalPanels <= 100)%Q /\
  (forall j, (i < j)%nat -> (j < totalPanels)%nat ->
     (panelProgressPercentage i totalPanels < panelProgressPercentage j totalPanels)%Q) /\
  ((panelProgressPercentage i totalPanels == 100)%Q <-> S i = totalPanels) /\
  10 <= mathRound (panelProgressPercentage i totalPanels) <= 100.
Proof.
  intros Hi.
  destruct (progress_fraction i totalPanels Hi) as (Ht & Hpos & Hle).
  pose proof (div_mult_back (inject_Z (Z.of_nat i + 1)) (inject_Z (Z.of_nat totalPanels)) Ht)
    as Hback.
  unfold panelProgressPercentage.
  set (x := (inject_Z (Z.of_nat i + 1) / inject_Z (Z.of_nat totalPanels))%Q) in *.
  assert (Hrange : (10 < 10 + x * 90 /\ 10 + x * 90 <= 100)%Q) by (split; lra).
  split; [exact Hrange|]. split; [|split].
  - intros j Hij Hj.
    destruct (progress_fraction j totalPanels Hj) as (_ & _ & _).
    pose proof (div_mult_back (inject_Z (Z.of_nat j + 1))
                  (inject_Z (Z.of_nat totalPanels)) Ht) as Hbackj.
    set (y := (inject_Z (Z.of_nat j + 1) / inject_Z (Z.of_nat totalPanels))%Q) in *.
    assert (Hxy : (x < y)%Q).
    { apply (Qmult_lt_r _ _ (inject_Z (Z.of_nat totalPanels)) Ht).
      rewrite Hback, Hbackj. rewrite <- Zlt_Qlt. lia. }
    lra.
  - split.
    + intros H100.
      assert (Hx : (x == 1)%Q) by (clear - H100; clearbody x; lra).
      rewrite Hx, Qmult_1_l in Hback.
      apply (proj1 (inject_Z_injective _ _)) in Hback. lia.
    + intros <-.
      assert (Hx : (x == 1)%Q).
      { unfold x. replace (Z.of_nat i + 1) with (Z.of_nat (S i)) by lia.
        field. intros H0. rewrite H0 in Ht. discriminate. }
      rewrite Hx. reflexivity.
  - unfold mathRound. split.
    + assert (H : (inject_Z 10 <= 10 + x * 90 + (1 # 2))%Q)
        by (change (inject_Z 10) with 10%Q; lra).
      apply Qfloor_resp_le in H. now rewrite Qfloor_Z in H.
    + assert (H : (10 + x * 90 + (1 # 2) <= 201 # 2)%Q) by lra.
      apply Qfloor_resp_le in H. exact H.
Qed.

Lemma progress_rises_to_one_hundred_witness :
  (panelProgressPercentage 3 4 == 100)%Q /\
  10 <= mathRound (panelProgressPercentage 0 200) <= 100.
Proof.
  split.
  - exact (proj2 (proj1 (proj2 (proj2 (progress_rises_to_one_hundred 3 4
             (le_n 4))))) eq_refl).
  - refine (proj2 (proj2 (proj2 (progress_rises_to_one_hundred 0 200 _)))). lia.
Defined.

Lemma onNumPagesChange_range (value : string) :
  1 <= onNumPagesChange value <= MAX_COMIC_PAGES.
Proof. unfold onNumPagesChange, MAX_COMIC_PAGES. lia. Qed.

Lemma onChange_range (ev : FormEvent) (form : StoryInputOptions) :
  1 <= numPages form <= MAX_COMIC_PAGES ->
  1 <= numPages (onChange ev form) <= MAX_COMIC_PAGES.
Proof.
  intros H. destruct ev; cbn [onChange numPages]; try exact H.
  apply onNumPagesChange_range.
Qed.

(** X19.  The page count of the form is always a number from 1 to
    [MAX_COMIC_PAGES] (200): whatever text is put into the input, the handler
    stores a number in that range, so after any sequence of edits of the form
    the count is in range; and a number from 1 to 200 typed in decimal is
    stored as it is. *)
Theorem page_count_stays_in_range :
  (forall value, 1 <= onNumPagesChange value <= MAX_COMIC_PAGES) /\
  (forall evs, 1 <= numPages (formAfter evs) <= MAX_COMIC_PAGES) /\
  (forall n, 1 <= n <= MAX_COMIC_PAGES -> onNumPagesChange (showZ n) = n).
Proof.
  split; [exact onNumPagesChange_range|]. split.
  - intros evs. unfold formAfter.
    assert (H : forall form,
              1 <= numPages form <= MAX_COMIC_PAGES ->
              1 <= numPages (fold_left (fun form ev => onChange ev form) evs form)
                <= MAX_COMIC_PAGES).
    { induction evs as [|ev evs IH]; intros form Hform; [exact Hform|].
      cbn [fold_left]. apply IH. now apply onChange_range. }
    apply H. unfold initialForm, DEFAULT_NUM_PAGES, MAX_COMIC_PAGES. cbn [numPages]. lia.
  - intros n Hn.
    assert (Hall : forallb (fun k => onNumPagesChange (showZ (Z.of_nat k)) =? Z.of_nat k)
                     (seq 1 200) = true) by (vm_compute; reflexivity).
    rewrite forallb_forall in Hall.
    specialize (Hall (Z.to_nat n)).
    unfold MAX_COMIC_PAGES in Hn.
    rewrite Z2Nat.id in Hall by lia.
    apply Z.eqb_eq, Hall, in_seq. lia.
Qed.

Lemma page_count_stays_in_range_witness : onNumPagesChange "75" = 75.
Proof.
  refine (proj2 (proj2 page_count_stays_in_range) 75 _).
  unfold MAX_COMIC_PAGES. lia.
Defined.

(** With a key that is not blank, every run starts with the client and the
    request of the scene step. *)
Lemma run_sends_scene_request
    (E : Env) (options : StoryInputOptions) (st : AppState) (w : World) :
  nonEmpty (trim (apiKey st)) = true ->
  exists evs,
    trace (snd (final (handleComicGeneration E options st w))) =
      (trace w ++ EvNewClient (apiKey st) :: EvGenerateContent (sceneRequest E options)
                  :: evs)%list.
Proof.
  intros Hkey.
  pose proof (generateScenePrompts_any E options (apiKey st) w (nonEmpty_trim _ Hkey))
    as Hany.
  destruct (generateScenePrompts E (apiKey st) options w) as [[sp|e] w1] eqn:Hgen.
  - injection Hany as _ Hw1.
    unfold handleComicGeneration. rewrite Hkey, Hgen. cbn [negb].
    destruct sp as [|p0 rest] eqn:Hsp.
    + exists []. cbn [final snd]. rewrite Hw1. reflexivity.
    + rewrite <- Hsp in *.
      set (st1 := setCurrentAspectRatio _ _).
      set (start := (setComicPanels
                       (fun _ => map (fun p => withImageUrl p None) sp) st1, w1)).
      destruct (imageLoop_trace E options (apiKey st) sp 0 start) as (evs & Htr & _).
      destruct (last (imageLoop E options (apiKey st) 0 sp start) start)
        as [stN wN] eqn:Hlast.
      cbn [final fst snd] in *.
      exists evs. rewrite Htr. unfold start. cbn [snd]. rewrite Hw1.
      unfold afterSceneCall. cbn [trace]. now rewrite <- app_assoc.
  - rewrite (run_after_throw E options st w Hkey e) by now rewrite Hgen.
    exists []. reflexivity.
Qed.

(** X20.  A submission of the form starts a run only when the API key and
    the story are both not blank; otherwise it raises an alert and nothing
    else happens.  The run it starts is the run of [handleComicGeneration] on
    the fields of the form, and that run always gets past its own key check:
    its first two events are the client built with the key and the scene
    request for the submitted options. *)
Theorem form_starts_a_run_only_with_key_and_story
    (E : Env) (st : AppState) (form : StoryInputOptions) (w : World) :
  match submitForm E st form w with
  | Alerted msg =>
      (nonEmpty (trim (apiKey st)) = false /\
       msg = "Please enter your API Key above the form.") \/
      (nonEmpty (trim (apiKey st)) = true /\ nonEmpty (trim (story form)) = false /\
       msg = "Please enter a story.")
  | Started run =>
      nonEmpty (trim (apiKey st)) = true /\
      nonEmpty (trim (story form)) = true /\
      run = handleComicGeneration E form st w /\
      exists evs,
        trace (snd (final run)) =
          (trace w ++ EvNewClient (apiKey st) :: EvGenerateContent (sceneRequest E form)
                      :: evs)%list
  end.
Proof.
  unfold submitForm, handleSubmit.
  destruct (nonEmpty (trim (apiKey st))) eqn:Hkey; cbn [negb]; [|now left].
  destruct (nonEmpty (trim (story form))) eqn:Hstory; cbn [negb]; [|now right].
  split; [reflexivity|]. split; [reflexivity|]. split; [reflexivity|].
  now apply run_sends_scene_request.
Qed.

Lemma form_starts_a_run_only_with_key_and_story_witness :
  (nonEmpty (trim "key") = false /\
   "Please enter a story." = "Please enter your API Key above the form.") \/
  (nonEmpty (trim "key") = true /\
   nonEmpty (trim (nbsp ++ newline ++ nbsp)) = false /\
   "Please enter a story." = "Please enter a story.").
Proof.
  exact (form_starts_a_run_only_with_key_and_story exportEnv (app0 "key")
           (mkOptions (nbsp ++ newline ++ nbsp) ANIME NEW SQUARE true 3 IMAGEN_3
              GEMINI_2_5_FLASH IN_UI)
           world0).
Defined.

Section ExportAndScreen.

Variable isLandscape : bool.
Variable E : Env.

(** The pages of a panel without a picture. *)
Lemma placeholder_pages (p : ComicPanelData) :
  (optTruthy (imageUrl p) && negb (String.eqb (optText (imageUrl p)) "error"))%bool = false ->
  panelPages isLandscape E p =
    [[DrawText ["Panel " ++ toStr (scene_number p)] 10 15 10 (Gray 100) None;
      DrawText [match imageUrl p with
                | Some u => if String.eqb u "error"
                            then "Image generation failed for this panel."
                            else "Image not available for this panel."
                | None => "Image not available for this panel."
                end] 10 30 12 (RGB 255 0 0) (Some (MAX_IMG_WIDTH isLandscape))]].
Proof. intros H. unfold panelPages, drawPanel. rewrite H. reflexivity. Qed.

Lemma undecoded_pages (p : ComicPanelData) :
  (optTruthy (imageUrl p) && negb (String.eqb (optText (imageUrl p)) "error"))%bool = true ->
  loadImage E (optText (imageUrl p)) = None ->
  panelPages isLandscape E p =
    [[DrawText ["Panel " ++ toStr (scene_number p)] 10 15 10 (Gray 100) None;
      DrawText ["Error loading image for this panel."] 10 30 10 (RGB 255 0 0)
               (Some (MAX_IMG_WIDTH isLandscape))]].
Proof. intros H Hload. unfold panelPages, drawPanel. rewrite H, Hload. reflexivity. Qed.

End ExportAndScreen.

(** X21.  The export treats the image slot of a panel as the screen does.
    A panel the screen shows with the error sign gives one page with the
    panel label and the sentence that the image generation failed; a panel the
    screen shows with the hourglass gives one page with the label and the
    sentence that the image is not available; a panel the screen shows with
    its image gives pages of which the first holds that image and the others
    none, or, if the image does not decode, one page with the label and the
    sentence that the image could not be loaded.  In each of the three cases
    without a picture the page of the panel holds the label and the sentence
    and nothing else: for such a panel neither the caption nor a dialogue line
    is printed. *)
Theorem export_page_agrees_with_the_screen
    (isLandscape : bool) (E : Env) (p : ComicPanelData) :
  let label := DrawText ["Panel " ++ toStr (scene_number p)] 10 15 10 (Gray 100) None in
  let notice (sentence : string) (size : Z) :=
    DrawText [sentence] 10 30 size (RGB 255 0 0) (Some (MAX_IMG_WIDTH isLandscape)) in
  match panelImage p with
  | ShowImageError =>
      panelPages isLandscape E p =
        [[label; notice "Image generation failed for this panel." 12]]
  | ShowGenerating =>
      panelPages isLandscape E p =
        [[label; notice "Image not available for this panel." 12]]
  | ShowImage src alt =>
      imageUrl p = Some src /\
      (loadImage E src = None ->
       panelPages isLandscape E p =
         [[label; notice "Error loading image for this panel." 10]]) /\
      (forall w h,
         loadImage E src = Some (w, h) -> 0 < w -> 0 < h ->
         exists (x y w' h' : Q) (n : nat),
           map pageImages (panelPages isLandscape E p) =
             [DrawImage src "JPEG" x y w' h'] :: repeat [] n)
  end.
Proof.
  intros label notice. unfold panelImage.
  destruct (optTruthy (imageUrl p) && negb (String.eqb (optText (imageUrl p)) "error"))%bool
    eqn:Hshown.
  - destruct (imageUrl p) as [u|] eqn:Hu; [|discriminate].
    cbn [optTruthy optText] in *. apply andb_prop in Hshown as [Hne Herr].
    apply negb_true_iff in Herr.
    split; [reflexivity|]. split.
    + intros Hload.
      apply undecoded_pages; rewrite Hu; cbn [optTruthy optText];
        [now rewrite Hne, Herr | exact Hload].
    + intros w h Hload Hw Hh.
      assert (Hvalid : hasValidImage E p w h).
      { exists u. split; [exact Hu|]. split; [exact Hne|].
        split; [now apply String.eqb_neq|]. auto. }
      pose proof (valid_image_pages isLandscape E p w h Hvalid) as Himg.
      rewrite Hu in Himg. cbn [optText] in Himg. eauto 10.
  - rewrite (placeholder_pages isLandscape E p Hshown).
    destruct (imageUrl p) as [u|]; [|reflexivity].
    destruct (String.eqb u "error"); reflexivity.
Qed.

Lemma export_page_agrees_with_the_screen_witness :
  panelPages false exportEnv (errorPanel 2) =
    [[DrawText ["Panel 2"] 10 15 10 (Gray 100) None;
      DrawText ["Image generation failed for this panel."] 10 30 12 (RGB 255 0 0)
               (Some (MAX_IMG_WIDTH false))]] /\
  panelPages false exportEnv (mkPanel (JNum 4) (JStr "A cat") (JStr "Morning") ["Cat: Meow"]
                                      None None) =
    [[DrawText ["Panel 4"] 10 15 10 (Gray 100) None;
      DrawText ["Image not available for this panel."] 10 30 12 (RGB 255 0 0)
               (Some (MAX_IMG_WIDTH false))]].
Proof.
  split.
  - exact (export_page_agrees_with_the_screen false exportEnv (errorPanel 2)).
  - exact (export_page_agrees_with_the_screen false exportEnv
             (mkPanel (JNum 4) (JStr "A cat") (JStr "Morning") ["Cat: Meow"] None None)).
Defined.

(* ================================================================== *)
(** ** The screen and the export *)

(** X22.  Under its image a panel shows either the content block or the
    scene number alone, never both and never neither.  The scene number is
    absent from the screen only for a panel with dialogue lines and no
    caption.  And every panel that [generateScenePrompts] returns with
    captions switched off, or embedded in the image, shows the scene number
    alone. *)
Theorem panel_without_text_shows_its_scene_number :
  (forall p,
     (panelContent (panelText p) = None <->
      sceneNumberOnly (panelText p) = Some ("Scene " ++ toStr (scene_number p))) /\
     (panelContent (panelText p) <> None <-> sceneNumberOnly (panelText p) = None)) /\
  (forall p,
     truthy (caption p) = false -> dialogues p <> [] ->
     panelText p = mkPanelText (Some (None, dialogues p)) None) /\
  (forall E apiKey options w w' panels,
     includeCaptions options = false \/ captionPlacement options = IN_IMAGE ->
     generateScenePrompts E apiKey options w = (Ok panels, w') ->
     Forall (fun p => panelText p =
                      mkPanelText None (Some ("Scene " ++ toStr (scene_number p))))
            panels).
Proof.
  split; [|split].
  - intros p. unfold panelText. cbn [panelContent sceneNumberOnly].
    destruct (truthy (caption p)); destruct (dialogues p); cbn;
      repeat split; intros; try reflexivity; try discriminate; try congruence.
  - intros p Hcap Hd. unfold panelText. rewrite Hcap.
    destruct (dialogues p); [congruence | reflexivity].
  - intros E apiKey options w w' panels Hmode Hrun.
    destruct (generateScenePrompts_ok_inv E options apiKey w w' panels Hrun)
      as (t & parsedData & scenes & _ & _ & _ & _ & Hmap).
    change 0 with (Z.of_nat 0) in Hmap.
    apply mapPanels_ok_inv in Hmap as (_ & _ & _ & _ & Hcap).
    eapply Forall_impl; [|apply Hcap].
    + intros p [Hc Hd]. unfold panelText. rewrite Hc, Hd. reflexivity.
    + destruct Hmode as [-> | ->]; [reflexivity | apply andb_false_r].
Qed.

Lemma panel_without_text_shows_its_scene_number_witness :
  Forall (fun p => panelText p = mkPanelText None (Some ("Scene " ++ toStr (scene_number p))))
    [mkPanel (JNum 7) (JStr "A cat") JNull [] None (Some "{}")].
Proof.
  refine (proj2 (proj2 panel_without_text_shows_its_scene_number) oneSceneEnv "key"
            (options3 IMAGEN_3 true IN_IMAGE) world0
            (afterSceneCall oneSceneEnv "key" (options3 IMAGEN_3 true IN_IMAGE) world0)
            _ _ eq_refl).
  right; reflexivity.
Defined.

Section PdfText.

Variable isLandscape : bool.
Variable E : Env.

Lemma pageText_app (a b : Page) :
  pageText (List.app a b) = List.app (pageText a) (pageText b).
Proof. unfold pageText. apply flat_map_app. Qed.

Lemma labels_text (lines : list string) (x y : Q) (mw : option Q) (pdf : Pdf) :
  page pdf <> [] ->
  map pageLabel (savedPages (text lines x y mw pdf)) = map pageLabel (savedPages pdf).
Proof.
  intros Hne. unfold savedPages, text. cbn [donePages page]. rewrite !map_app. f_equal.
  destruct (page pdf); [congruence | reflexivity].
Qed.

Lemma bodies_text (lines : list string) (x y : Q) (mw : option Q) (pdf : Pdf) :
  page pdf <> [] ->
  flat_map pageBody (savedPages (text lines x y mw pdf)) =
    (flat_map pageBody (savedPages pdf) ++ lines)%list.
Proof.
  intros Hne. unfold savedPages, text. cbn [donePages page].
  rewrite !flat_map_app, <- app_assoc. f_equal. cbn [flat_map]. rewrite !app_nil_r.
  destruct (page pdf) as [|op ops]; [congruence|].
  unfold pageBody. cbn [tl List.app]. rewrite pageText_app. cbn. now rewrite app_nil_r.
Qed.

Lemma labels_newpage (lab : string) (x y : Q) (mw : option Q) (pdf : Pdf) :
  map pageLabel (savedPages (text [lab] x y mw (addPage pdf))) =
    (map pageLabel (savedPages pdf) ++ [Some lab])%list.
Proof. unfold savedPages, text, addPage. cbn. now rewrite !map_app. Qed.

Lemma bodies_newpage (lab : string) (x y : Q) (mw : option Q) (pdf : Pdf) :
  flat_map pageBody (savedPages (text [lab] x y mw (addPage pdf))) =
    flat_map pageBody (savedPages pdf).
Proof.
  unfold savedPages, text, addPage. cbn. rewrite !flat_map_app. cbn.
  now rewrite !app_nil_r.
Qed.

Lemma page_text_nonempty (lines : list string) (x y : Q) (mw : option Q) (pdf : Pdf) :
  page (text lines x y mw pdf) <> [].
Proof. unfold text. cbn. destruct (page pdf); discriminate. Qed.

(** The dialogue loop: each continuation page opens with the continuation
    label, and the lines of the dialogues follow what was there, in order. *)
Lemma drawDialogues_text (panel : ComicPanelData) (ds : list string) :
  forall (y : Q) (pdf : Pdf),
    page pdf <> [] ->
    map pageLabel (savedPages (drawDialogues isLandscape E panel ds y pdf)) =
      List.app (map pageLabel (savedPages pdf))
        (repeat (Some ("Panel " ++ toStr (scene_number panel) ++ " (cont.)"))
                (continuationCount isLandscape E (fontSize pdf) ds y)) /\
    flat_map pageBody (savedPages (drawDialogues isLandscape E panel ds y pdf)) =
      List.app (flat_map pageBody (savedPages pdf))
        (flat_map (fun d => splitTextToSize E (fontSize pdf) d (MAX_IMG_WIDTH isLandscape))
                  ds).
Proof.
  induction ds as [|d ds IH]; intros y pdf Hne; cbn [drawDialogues continuationCount].
  - cbn. now rewrite !app_nil_r.
  - destruct (Qgtb y (A4_HEIGHT_MM isLandscape - MARGIN_MM - 10)).
    + match goal with
      | |- context [drawDialogues _ _ _ _ ?y' ?pdf'] =>
          destruct (IH y' pdf' (page_text_nonempty _ _ _ _ _)) as [Hl Hb]
      end.
      cbn [fontSize text addPage] in Hl, Hb |- *.
      rewrite Hl, Hb.
      rewrite labels_text, bodies_text by apply page_text_nonempty.
      rewrite labels_newpage, bodies_newpage.
      cbn [repeat flat_map]. rewrite <- !app_assoc. split; reflexivity.
    + match goal with
      | |- context [drawDialogues _ _ _ _ ?y' ?pdf'] =>
          destruct (IH y' pdf' (page_text_nonempty _ _ _ _ _)) as [Hl Hb]
      end.
      cbn [fontSize text] in Hl, Hb |- *.
      rewrite Hl, Hb.
      rewrite labels_text, bodies_text by exact Hne.
      cbn [flat_map]. rewrite <- !app_assoc. split; reflexivity.
Qed.

End PdfText.

(** X23.  The pages of a panel whose image decodes lose no text and print none
    twice.  The first page opens with the panel label and every continuation
    page with the continuation label of the same panel; what follows the
    labels, read page after page, is the lines of the caption (if the panel
    has one) followed by the lines of the dialogues, in the order of the
    panel, each dialogue split at the font size of the dialogue text. *)
Theorem export_keeps_the_text_of_a_panel
    (isLandscape : bool) (E : Env) (p : ComicPanelData) (w h : Z) :
  hasValidImage E p w h ->
  map pageLabel (panelPages isLandscape E p) =
    Some ("Panel " ++ toStr (scene_number p))
    :: repeat (Some ("Panel " ++ toStr (scene_number p) ++ " (cont.)"))
         (continuationCount isLandscape E 10 (dialogues p)
            (dialogueStartY isLandscape E p w h)) /\
  flat_map pageBody (panelPages isLandscape E p) =
    List.app
      (if truthy (caption p)
       then splitTextToSize E 12 ("Caption: " ++ toStr (caption p))
              (MAX_IMG_WIDTH isLandscape)
       else [])
      (flat_map (fun d => splitTextToSize E 10 d (MAX_IMG_WIDTH isLandscape))
         (dialogues p)).
Proof.
  intros (u & Hu & Hne & Herr & Hload & _ & _).
  unfold panelPages, drawPanel, dialogueStartY.
  rewrite Hu. cbn [optTruthy optText Nat.ltb Nat.leb].
  rewrite Hne. apply String.eqb_neq in Herr. rewrite Herr. cbn [negb andb].
  rewrite Hload.
  destruct (fitImage isLandscape w h) as [pdfImgWidth pdfImgHeight]. cbn [fst snd].
  destruct (truthy (caption p)); destruct (dialogues p) as [|d ds].
  - cbn. rewrite !app_nil_r. split; reflexivity.
  - match goal with
    | |- context [drawDialogues _ _ _ ?l ?y' ?pdf'] =>
        destruct (drawDialogues_text isLandscape E p l y' pdf') as [Hl Hb]
    end.
    + cbn. discriminate.
    + rewrite Hl, Hb. cbn. rewrite !app_nil_r. split; reflexivity.
  - cbn. split; reflexivity.
  - match goal with
    | |- context [drawDialogues _ _ _ ?l ?y' ?pdf'] =>
        destruct (drawDialogues_text isLandscape E p l y' pdf') as [Hl Hb]
    end.
    + cbn. discriminate.
    + rewrite Hl, Hb. cbn. split; reflexivity.
Qed.

Lemma export_keeps_the_text_of_a_panel_witness :
  map pageLabel (panelPages false exportEnv (imagePanel 3 twelveLines)) =
    [Some "Panel 3"; Some "Panel 3 (cont.)"] /\
  flat_map pageBody (panelPages false exportEnv (imagePanel 3 twelveLines)) = twelveLines.
Proof.
  refine (export_keeps_the_text_of_a_panel false exportEnv (imagePanel 3 twelveLines)
            1024 1024 _).
  exists "data:image/jpeg;base64,AAAA". repeat split; try reflexivity. discriminate.
Defined.

(** X24.  On the first page of a panel whose image decodes, the picture is
    as large as its box allows (its width is the full content width, or its
    height the full height of the image area), it is centred between the left
    and right edges of the page, it lies within the margins on all sides, and
    its top edge is 20 mm below the top of the page. *)
Theorem picture_is_centred_within_the_margins
    (isLandscape : bool) (E : Env) (p : ComicPanelData) (w h : Z) :
  hasValidImage E p w h ->
  exists (x y w' h' : Q) (n : nat),
    map pageImages (panelPages isLandscape E p) =
      [DrawImage (optText (imageUrl p)) "JPEG" x y w' h'] :: repeat [] n /\
    (x + w' / 2 == A4_WIDTH_MM isLandscape / 2 /\
     MARGIN_MM <= x /\
     x + w' <= A4_WIDTH_MM isLandscape - MARGIN_MM /\
     y == 20 /\
     y + h' <= A4_HEIGHT_MM isLandscape - MARGIN_MM /\
     (w' == MAX_IMG_WIDTH isLandscape \/ h' == MAX_IMG_HEIGHT_AREA isLandscape))%Q.
Proof.
  intros Hvalid.
  pose proof (valid_image_pages isLandscape E p w h Hvalid) as Himg.
  destruct Hvalid as (u & _ & _ & _ & _ & Hw & Hh).
  destruct (fitImage_fits isLandscape w h Hw Hh) as (HW & HH & _ & HWpos & HHpos).
  assert (Hmax : (fst (fitImage isLandscape w h) == MAX_IMG_WIDTH isLandscape \/
                  snd (fitImage isLandscape w h) == MAX_IMG_HEIGHT_AREA isLandscape)%Q).
  { unfold fitImage.
    destruct (Qgtb _ _); cbn [fst snd]; [right | left]; reflexivity. }
  eexists _, _, _, _, _. split; [exact Himg|].
  set (fw := fst (fitImage isLandscape w h)) in *.
  set (fh := snd (fitImage isLandscape w h)) in *.
  clearbody fw fh. clear Himg.
  split; [field|].
  assert (Hx : ((A4_WIDTH_MM isLandscape - fw) / 2 * 2 == A4_WIDTH_MM isLandscape - fw)%Q)
    by (apply div_mult_back; reflexivity).
  set (x := ((A4_WIDTH_MM isLandscape - fw) / 2)%Q) in *. clearbody x.
  unfold MAX_IMG_WIDTH, MAX_IMG_HEIGHT_AREA, MARGIN_MM, A4_WIDTH_MM, A4_HEIGHT_MM in *.
  split; [|split; [|split; [|split]]].
  - destruct isLandscape; lra.
  - destruct isLandscape; lra.
  - reflexivity.
  - destruct isLandscape; lra.
  - exact Hmax.
Qed.

Lemma picture_is_centred_within_the_margins_witness :
  exists (x y w' h' : Q) (n : nat),
    map pageImages (panelPages false exportEnv (imagePanel 1 [])) =
      [DrawImage (optText (imageUrl (imagePanel 1 []))) "JPEG" x y w' h'] :: repeat [] n /\
    (x + w' / 2 == A4_WIDTH_MM false / 2 /\
     MARGIN_MM <= x /\
     x + w' <= A4_WIDTH_MM false - MARGIN_MM /\
     y == 20 /\
     y + h' <= A4_HEIGHT_MM false - MARGIN_MM /\
     (w' == MAX_IMG_WIDTH false \/ h' == MAX_IMG_HEIGHT_AREA false))%Q.
Proof.
  refine (picture_is_centred_within_the_margins false exportEnv (imagePanel 1 [])
            1024 1024 _).
  exists "data:image/jpeg;base64,AAAA". repeat split; try reflexivity. discriminate.
Defined.

Section PageLabels.

Variable isLandscape : bool.
Variable E : Env.

(** Whatever its image slot holds, a panel gives a page that opens with its
    label, followed by continuation pages only. *)
Lemma panel_labels (p : ComicPanelData) :
  exists n, map pageLabel (panelPages isLandscape E p) = panelLabels (p, n).
Proof.
  destruct (optTruthy (imageUrl p) && negb (String.eqb (optText (imageUrl p)) "error"))%bool
    eqn:Hshown.
  2:{ exists 0%nat. now rewrite (placeholder_pages isLandscape E p Hshown). }
  destruct (loadImage E (optText (imageUrl p))) as [[w h]|] eqn:Hload.
  2:{ exists 0%nat. now rewrite (undecoded_pages isLandscape E p Hshown Hload). }
  unfold panelPages, drawPanel, panelLabels. cbn [Nat.ltb Nat.leb fst snd].
  rewrite Hshown, Hload.
  destruct (fitImage isLandscape w h) as [pdfImgWidth pdfImgHeight].
  destruct (truthy (caption p)); destruct (dialogues p) as [|d ds].
  - exists 0%nat. reflexivity.
  - match goal with
    | |- context [drawDialogues _ _ _ ?l ?y' ?pdf'] =>
        destruct (drawDialogues_text isLandscape E p l y' pdf') as [Hl _];
          [cbn; discriminate|];
        exists (continuationCount isLandscape E (fontSize pdf') l y')
    end.
    rewrite Hl. reflexivity.
  - exists 0%nat. reflexivity.
  - match goal with
    | |- context [drawDialogues _ _ _ ?l ?y' ?pdf'] =>
        destruct (drawDialogues_text isLandscape E p l y' pdf') as [Hl _];
          [cbn; discriminate|];
        exists (continuationCount isLandscape E (fontSize pdf') l y')
    end.
    rewrite Hl. reflexivity.
Qed.

Lemma document_labels (panels : list ComicPanelData) :
  exists counts : list nat,
    List.length counts = List.length panels /\
    map pageLabel (flat_map (panelPages isLandscape E) panels) =
      flat_map panelLabels (combine panels counts).
Proof.
  induction panels as [|p panels (counts & Hlen & Hlabels)].
  - exists []. split; reflexivity.
  - destruct (panel_labels p) as [n Hn].
    exists (n :: counts). split; [cbn; now rewrite Hlen|].
    cbn [flat_map combine]. now rewrite map_app, Hn, Hlabels.
Qed.

End PageLabels.

(** X25.  Every page of an exported document opens with the label of a
    panel.  Read in order, the pages are those of the panels of the store, in
    the order of the store: for each panel one page that opens with the panel
    label, followed by some number of pages that open with the continuation
    label of the same panel.  So the document never has fewer pages than the
    store has panels. *)
Theorem every_page_opens_with_a_panel_label (E : Env) (st : AppState) :
  comicPanels st <> [] ->
  isLoading st = false ->
  exists (pages : list Page) (counts : list nat),
    fst (handleDownloadPdf E st) = Some pages /\
    List.length counts = List.length (comicPanels st) /\
    map pageLabel pages = flat_map panelLabels (combine (comicPanels st) counts) /\
    Forall (fun pg => pageLabel pg <> None) pages /\
    (List.length (comicPanels st) <= List.length pages)%nat.
Proof.
  intros Hne Hload.
  set (b := aspectRatioEqb (currentAspectRatio st) LANDSCAPE).
  destruct (document_labels b E (comicPanels st)) as (counts & Hlen & Hlabels).
  exists (flat_map (panelPages b E) (comicPanels st)), counts.
  split.
  { unfold handleDownloadPdf. rewrite Hload.
    destruct (comicPanels st) as [|p ps] eqn:Hps; [congruence|].
    cbn [List.length Nat.eqb orb fst]. rewrite <- Hps.
    f_equal. apply export_pages. congruence. }
  split; [exact Hlen|]. split; [exact Hlabels|].
  assert (Hsome : Forall (fun l : option string => l <> None)
                    (flat_map panelLabels (combine (comicPanels st) counts))).
  { apply Forall_forall. intros l Hl. apply in_flat_map in Hl as (pn & _ & Hin).
    unfold panelLabels in Hin. destruct Hin as [<- | Hin]; [discriminate|].
    apply repeat_spec in Hin. subst l. discriminate. }
  split.
  - apply Forall_forall. intros pg Hpg. rewrite Forall_forall in Hsome.
    apply Hsome. rewrite <- Hlabels. now apply in_map.
  - rewrite <- (length_map pageLabel), Hlabels.
    assert (Hcount : forall (panels : list ComicPanelData) (ns : list nat),
              List.length ns = List.length panels ->
              (List.length panels
               <= List.length (flat_map panelLabels (combine panels ns)))%nat).
    { induction panels as [|p ps IH]; intros ns Hns; [cbn; lia|].
      destruct ns as [|n ns]; [discriminate|].
      cbn [combine flat_map List.length]. rewrite length_app.
      injection Hns as Hns. specialize (IH ns Hns).
      unfold panelLabels at 1. cbn [List.length]. lia. }
    now apply Hcount.
Qed.

Lemma every_page_opens_with_a_panel_label_witness :
  exists (pages : list Page) (counts : list nat),
    fst (handleDownloadPdf exportEnv (exportState twelveLines)) = Some pages /\
    List.length counts = 3%nat /\
    map pageLabel pages =
      flat_map panelLabels (combine (comicPanels (exportState twelveLines)) counts) /\
    Forall (fun pg => pageLabel pg <> None) pages /\
    (3 <= List.length pages)%nat.
Proof.
  refine (every_page_opens_with_a_panel_label exportEnv (exportState twelveLines) _ eq_refl).
  discriminate.
Defined.

(* ================================================================== *)
(** ** The dialogue lines of a panel *)

Section DialogueLines.

Variable E : Env.
Variable options : StoryInputOptions.

(** [scenes.map] builds the record at position k from the scene at
    position k. *)
Lemma mapPanels_nth (canon : JValue) (scenes : list JValue) :
  forall (index : Z) (panels : list ComicPanelData),
    mapPanels (buildPanel E options canon) scenes index = Ok panels ->
    forall k scene p,
      nth_error scenes k = Some scene -> nth_error panels k = Some p ->
      buildPanel E options canon scene (index + Z.of_nat k) = Ok p.
Proof.
  induction scenes as [|s rest IH]; intros index panels H k scene p Hs Hp.
  - destruct k; discriminate.
  - simpl in H.
    destruct (buildPanel E options canon s index) as [q|] eqn:Hq; [|discriminate].
    destruct (mapPanels _ rest (index + 1)) as [qs|] eqn:Hqs; [|discriminate].
    injection H as <-. destruct k as [|k].
    + cbn in Hs, Hp. injection Hs as <-. injection Hp as <-.
      now rewrite Z.add_0_r.
    + cbn [nth_error] in Hs, Hp.
      replace (index + Z.of_nat (S k)) with (index + 1 + Z.of_nat k) by lia.
      exact (IH (index + 1) qs Hqs k scene p Hs Hp).
Qed.

Lemma mapDialogues_strings (ls : list string) : mapDialogues E (map JStr ls) = Ok ls.
Proof. induction ls as [|l ls IH]; cbn; [reflexivity | now rewrite IH]. Qed.

Lemma mapDialogues_speakers (speakers : list (string * string)) :
  Forall (fun cl => nonEmpty (fst cl) = true /\ nonEmpty (snd cl) = true) speakers ->
  mapDialogues E (map speakerEntry speakers) = Ok (map speakerLine speakers) /\
  filter nonEmpty (map speakerLine speakers) = map speakerLine speakers.
Proof.
  induction 1 as [|[c l] rest [Hc Hl] _ [IHmap IHfilter]]; [split; reflexivity|].
  cbn [map fst snd mapDialogues] in *.
  assert (Hline : normalizeDialogue E (speakerEntry (c, l)) = Ok (speakerLine (c, l))).
  { unfold normalizeDialogue, speakerEntry, speakerLine.
    cbn [fst snd prop getProp lookupField String.eqb Ascii.eqb Bool.eqb truthy toStr
         converts andb].
    rewrite Hc, Hl. reflexivity. }
  rewrite Hline, IHmap. split; [reflexivity|]. cbn [filter].
  replace (nonEmpty (speakerLine (c, l))) with true; [now rewrite IHfilter|].
  unfold speakerLine. cbn [fst snd]. destruct c; [discriminate | reflexivity].
Qed.

End DialogueLines.

(** X26.  With captions shown in the user interface, the panel at position
    k has the caption of the scene at position k (the empty string if that is
    falsy) and that scene's dialogue lines, in their order: a list of strings
    comes back as it is, less the empty strings; a list of speaker objects
    with a character and a line comes back as lines of the form
    character, colon, the line in double quotes; and a scene whose dialogues
    are no array gives no line. *)
Theorem dialogue_lines_follow_the_scene
    (E : Env) (apiKey : string) (options : StoryInputOptions) (w : World)
    (t : string) (parsedData : JValue) (scenes : list JValue)
    (panels : list ComicPanelData) :
  nonEmpty apiKey = true ->
  answersText E options w t ->
  JSON_parse E (stripFence t) = Parsed parsedData ->
  hasScenes parsedData scenes ->
  includeCaptions options = true ->
  captionPlacement options = IN_UI ->
  fst (generateScenePrompts E apiKey options w) = Ok panels ->
  forall k scene p,
    nth_error scenes k = Some scene ->
    nth_error panels k = Some p ->
    caption p = orElse (prop scene "caption") (JStr EmptyString) /\
    (forall ls,
       prop scene "dialogues" = JArr (map JStr ls) -> dialogues p = filter nonEmpty ls) /\
    (forall speakers,
       prop scene "dialogues" = JArr (map speakerEntry speakers) ->
       Forall (fun cl => nonEmpty (fst cl) = true /\ nonEmpty (snd cl) = true) speakers ->
       dialogues p = map speakerLine speakers) /\
    ((forall ds, prop scene "dialogues" <> JArr ds) -> dialogues p = []).
Proof.
  intros Hkey Hans Hparse Hshape Hinc Hui Hrun k scene p Hscene Hp.
  rewrite (generateScenePrompts_run E options apiKey w t Hkey Hans) in Hrun.
  rewrite (parseScenes_valid E options _ _ _ Hparse Hshape) in Hrun. cbn [fst] in Hrun.
  destruct (mapPanels _ scenes 0) as [ps|] eqn:Hmap; [|discriminate].
  injection Hrun as ->.
  pose proof (mapPanels_nth E options _ scenes 0 panels Hmap k scene p Hscene Hp) as Hbuild.
  unfold buildPanel in Hbuild. rewrite Hinc, Hui in Hbuild.
  cbn [captionPlacementIsUI andb] in Hbuild.
  destruct (getProp scene "scene_number") as [sn|]; [|discriminate].
  match type of Hbuild with
  | match ?m with Ok _ => _ | Throw _ => _ end = _ =>
      destruct m as [lines|] eqn:Hlines; [|discriminate]
  end.
  injection Hbuild as <-. cbn [caption dialogues].
  split; [reflexivity|]. split; [|split].
  - intros ls Hd. rewrite Hd, mapDialogues_strings in Hlines. now injection Hlines as <-.
  - intros speakers Hd Hall. rewrite Hd in Hlines.
    destruct (mapDialogues_speakers E speakers Hall) as [Hm Hf].
    rewrite Hm in Hlines. injection Hlines as <-. exact Hf.
  - intros Hno. destruct (prop scene "dialogues"); try (now injection Hlines as <-).
    exfalso. exact (Hno items eq_refl).
Qed.

Lemma dialogue_lines_follow_the_scene_witness :
  dialogues (mkPanel (JNum 7) (JStr "A cat") (JStr "Morning") ["Cat: Meow"] None (Some "{}"))
    = filter nonEmpty ["Cat: Meow"].
Proof.
  refine (proj1 (proj2
    (dialogue_lines_follow_the_scene oneSceneEnv "key" (options3 IMAGEN_3 true IN_UI)
       world0 (fenced oneSceneText) oneSceneValue
       [JObj [("scene_number", JNum 7); ("image_prompt", JStr "A cat");
              ("caption", JStr "Morning"); ("dialogues", JArr [JStr "Cat: Meow"])]]
       _ eq_refl _ eq_refl _ eq_refl eq_refl eq_refl 0%nat _ _ eq_refl eq_refl))
    ["Cat: Meow"] eq_refl).
  - exists (mkContentResp None (Some (fenced oneSceneText)) None). repeat split.
  - repeat split.
Defined.

(* ================================================================== *)
(** ** Scenes on which the callback throws *)

Section ThrowingScenes.

Variable E : Env.
Variable options : StoryInputOptions.

Lemma normalizeDialogue_ok (d : JValue) (line : string) :
  normalizeDialogue E d = Ok line -> dialogueConverts d = true.
Proof.
  unfold normalizeDialogue, dialogueConverts.
  destruct d; try reflexivity;
    destruct (_ && _ && _)%bool;
    match goal with
    | |- (if ?c then _ else _) = _ -> _ => destruct c; [reflexivity | discriminate]
    end.
Qed.

Lemma mapDialogues_ok (ds : list JValue) :
  forall lines, mapDialogues E ds = Ok lines -> forallb dialogueConverts ds = true.
Proof.
  induction ds as [|d rest IH]; intros lines H; [reflexivity|].
  cbn [mapDialogues] in H.
  destruct (normalizeDialogue E d) as [line|] eqn:Hd; [|discriminate].
  destruct (mapDialogues E rest) as [ls|] eqn:Hrest; [|discriminate].
  cbn [forallb]. now rewrite (normalizeDialogue_ok d line Hd), (IH ls eq_refl).
Qed.

Lemma buildPanel_ok_buildable (canon panel : JValue) (index : Z) (p : ComicPanelData) :
  buildPanel E options canon panel index = Ok p -> buildable options panel = true.
Proof.
  intros H.
  destruct (buildPanel_ok_inv E options canon panel index p H) as (Hr & _ & _ & Hd & _).
  unfold buildable, sceneDialogues in *. rewrite Hr. cbn [andb].
  destruct (includeCaptions options && captionPlacementIsUI (captionPlacement options))%bool;
    [|reflexivity].
  cbn [negb orb].
  destruct (prop panel "dialogues"); try reflexivity.
  destruct (mapDialogues E items) as [lines|] eqn:Hlines; [|discriminate].
  exact (mapDialogues_ok items lines Hlines).
Qed.

Lemma mapPanels_ok_buildable (canon : JValue) (scenes : list JValue) :
  forall (index : Z) (panels : list ComicPanelData),
    mapPanels (buildPanel E options canon) scenes index = Ok panels ->
    forallb (buildable options) scenes = true.
Proof.
  induction scenes as [|scene rest IH]; intros index panels H; [reflexivity|].
  cbn [mapPanels] in H.
  destruct (buildPanel E options canon scene index) as [p|] eqn:Hp; [|discriminate].
  destruct (mapPanels _ rest (index + 1)) as [ps|] eqn:Hps; [|discriminate].
  cbn [forallb].
  now rewrite (buildPanel_ok_buildable canon scene index p Hp), (IH (index + 1) ps Hps).
Qed.

End ThrowingScenes.

(** X28.  For an answer that passes the shape checks, the call returns panels
    exactly when the callback of [scenes.map] throws on no scene: no scene is
    null, and, where captions are shown in the user interface, every entry of
    every dialogue list converts to a string.  One scene on which it throws
    costs the whole comic: the call fails with an error of the [catch] block
    and returns no panel at all.  With captions off or embedded in the image
    the dialogue entries are not looked at, and the call returns as soon as no
    scene is null. *)
Theorem one_throwing_scene_fails_the_call
    (E : Env) (apiKey : string) (options : StoryInputOptions) (w : World)
    (t : string) (parsedData : JValue) (scenes : list JValue) :
  nonEmpty apiKey = true ->
  answersText E options w t ->
  JSON_parse E (stripFence t) = Parsed parsedData ->
  hasScenes parsedData scenes ->
  ((exists panels, fst (generateScenePrompts E apiKey options w) = Ok panels) <->
   forallb (buildable options) scenes = true) /\
  (forallb (buildable options) scenes = false ->
   exists e,
     fst (generateScenePrompts E apiKey options w) = Throw e /\
     kind e = KError /\ String.prefix "Failed to " (message e) = true) /\
  (includeCaptions options = false \/ captionPlacement options = IN_IMAGE ->
   forallb readable scenes = true ->
   exists panels, fst (generateScenePrompts E apiKey options w) = Ok panels).
Proof.
  intros Hkey Hans Hparse Hshape.
  rewrite (generateScenePrompts_run E options apiKey w t Hkey Hans).
  rewrite (parseScenes_valid E options _ _ _ Hparse Hshape).
  cbn [fst].
  assert (Hiff : (exists panels,
                    match mapPanels (buildPanel E options (prop parsedData "characterCanon"))
                            scenes 0 with
                    | Ok panels0 => Ok panels0
                    | Throw e => Throw (sceneCatch options e)
                    end = Ok panels) <->
                 forallb (buildable options) scenes = true).
  { split.
    - intros [panels H].
      destruct (mapPanels _ scenes 0) as [ps|] eqn:Hmap; [|discriminate].
      exact (mapPanels_ok_buildable E options _ scenes 0 ps Hmap).
    - intros H.
      destruct (mapPanels_total E options (prop parsedData "characterCanon") scenes 0 H)
        as [panels ->].
      eauto. }
  split; [exact Hiff|]. split.
  - intros Hbad.
    destruct (mapPanels _ scenes 0) as [ps|e0] eqn:Hmap.
    + assert (Hgood : forallb (buildable options) scenes = true)
        by (apply Hiff; eauto).
      congruence.
    + exists (sceneCatch options e0). split; [reflexivity|].
      destruct (sceneCatch_shape options e0) as (Hk & Hp & _). auto.
  - intros Hmode Hread. apply Hiff.
    assert (Hoff : (includeCaptions options
                    && captionPlacementIsUI (captionPlacement options))%bool = false).
    { destruct Hmode as [-> | ->]; [reflexivity | apply andb_false_r]. }
    clear - Hread Hoff. induction scenes as [|s r IH]; [reflexivity|].
    cbn [forallb] in *. apply andb_prop in Hread as [Hs Hr].
    unfold buildable at 1. rewrite Hs, Hoff. cbn [negb orb andb]. exact (IH Hr).
Qed.

Lemma one_throwing_scene_fails_the_call_witness :
  (exists e,
     fst (generateScenePrompts ownToStringEnv "key" (options3 IMAGEN_3 true IN_UI) world0)
       = Throw e /\
     kind e = KError /\ String.prefix "Failed to " (message e) = true) /\
  (exists panels,
     fst (generateScenePrompts ownToStringEnv "key" (options3 IMAGEN_3 true IN_IMAGE) world0)
       = Ok panels).
Proof.
  assert (Hans : forall pl,
            answersText ownToStringEnv (options3 IMAGEN_3 true pl) world0 ownToStringText).
  { intros pl. exists (mkContentResp None (Some ownToStringText) None). repeat split. }
  assert (Hshape : hasScenes ownToStringValue [ownToStringScene]) by (repeat split).
  split.
  - exact (proj1 (proj2
      (one_throwing_scene_fails_the_call ownToStringEnv "key" (options3 IMAGEN_3 true IN_UI)
         world0 ownToStringText ownToStringValue [ownToStringScene]
         eq_refl (Hans IN_UI) eq_refl Hshape)) eq_refl).
  - exact (proj2 (proj2
      (one_throwing_scene_fails_the_call ownToStringEnv "key"
         (options3 IMAGEN_3 true IN_IMAGE)
         world0 ownToStringText ownToStringValue [ownToStringScene]
         eq_refl (Hans IN_IMAGE) eq_refl Hshape)) (or_intror eq_refl) eq_refl).
Defined.
